(** * PR-Reviewer: the review pipeline, embedded and verified

    A shallow embedding of the Python sources under [backend/]:
    - [services/diff_parser.py]   (module [DiffParser])
    - [workers/orchestrator.py]   (modules [RateLimiter], [Orchestrator])
    - [workers/agents/*.py]       (modules [Agents], [Synthesizer])
    - [services/queue.py]         (module [Queue])

    Python [str] is modelled by [string] (one [ascii] per character),
    Python [int] by [Z], lists by [list], [Optional[T]] by [option T].
    Calls to external collaborators (Redis, PostgreSQL, GitHub, the LLM
    providers) are modelled by their outcome: a value or a raised
    exception, carried by [result]. The embedding comes first, module by
    module, then the notions the properties are stated with
    ([...Notions]), then the properties ([...Facts]). *)

From Stdlib Require Import String Ascii List ZArith Lia Bool QArith.
From Stdlib Require Import DecimalString.
Import ListNotations.

Local Open Scope string_scope.
Local Open Scope list_scope.
Local Open Scope Z_scope.

(** ** Python string primitives *)

Module Str.

(** ['\n'] *)
Definition nl : ascii := "010"%char.
Definition nl_s : string := String nl EmptyString.

(** [len(s)] as a Python [int]. *)
Definition len (s : string) : Z := Z.of_nat (String.length s).

(** [s.split('\n')]: never empty, [''.split('\n') == ['']]. *)
Fixpoint split_lines (s : string) : list string :=
  match s with
  | EmptyString => [EmptyString]
  | String c s' =>
      if Ascii.eqb c nl then EmptyString :: split_lines s'
      else match split_lines s' with
           | [] => [String c EmptyString]
           | h :: t => String c h :: t
           end
  end.

(** ['\n'.join(l)] *)
Fixpoint join_lines (l : list string) : string :=
  match l with
  | [] => EmptyString
  | [x] => x
  | x :: rest => (x ++ nl_s ++ join_lines rest)%string
  end.

(** [s.startswith(p)] *)
Definition startswith (s p : string) : bool := String.prefix p s.

(** [s[n:]] for [n >= 0] *)
Fixpoint drop (n : nat) (s : string) : string :=
  match n, s with
  | O, _ => s
  | S _, EmptyString => EmptyString
  | S n', String _ s' => drop n' s'
  end.

(** [s[:n]] for [n >= 0] *)
Fixpoint take (n : nat) (s : string) : string :=
  match n, s with
  | O, _ => EmptyString
  | S _, EmptyString => EmptyString
  | S n', String c s' => String c (take n' s')
  end.

(** [s[:n]] for any [int] [n]: a negative [n] counts from the end. *)
Definition slice_to (n : Z) (s : string) : string :=
  if n <? 0 then take (Z.to_nat (len s + n)) s else take (Z.to_nat n) s.

(** ASCII lower-casing, the folding [re.IGNORECASE] applies to ASCII text. *)
Definition lower_char (c : ascii) : ascii :=
  let n := nat_of_ascii c in
  if ((65 <=? n) && (n <=? 90))%nat then ascii_of_nat (n + 32) else c.

Fixpoint lower (s : string) : string :=
  match s with
  | EmptyString => EmptyString
  | String c s' => String (lower_char c) (lower s')
  end.

(** [c] is one of ['0'..'9'] (the ASCII part of the regex class [\d]). *)
Definition is_digit (c : ascii) : bool :=
  let n := nat_of_ascii c in ((48 <=? n) && (n <=? 57))%nat.

(** Longest prefix of digits and the rest: the greedy [\d*]. *)
Fixpoint span_digits (s : string) : string * string :=
  match s with
  | EmptyString => (EmptyString, EmptyString)
  | String c s' =>
      if is_digit c
      then let '(d, r) := span_digits s' in (String c d, r)
      else (EmptyString, s)
  end.

(** [int(d)] for a string of decimal digits. *)
Fixpoint int_of_digits_from (acc : Z) (d : string) : Z :=
  match d with
  | EmptyString => acc
  | String c d' =>
      int_of_digits_from (10 * acc + (Z.of_nat (nat_of_ascii c) - 48)) d'
  end.

Definition int_of_digits (d : string) : Z := int_of_digits_from 0 d.

(** Python truthiness of a [str]. *)
Definition truthy (s : string) : bool :=
  match s with EmptyString => false | _ => true end.

(** ['\n' in s] *)
Fixpoint has_nl (s : string) : bool :=
  match s with
  | EmptyString => false
  | String c s' => Ascii.eqb c nl || has_nl s'
  end.

(** [sum(g(l) for l in ls)] *)
Fixpoint sum_over (g : string -> Z) (ls : list string) : Z :=
  match ls with
  | [] => 0
  | l :: rest => g l + sum_over g rest
  end.

(** Lines in a total size: [sum(len(l) + 1 for l in ls)]. *)
Fixpoint lines_size (ls : list string) : Z :=
  match ls with
  | [] => 0
  | l :: rest => len l + 1 + lines_size rest
  end.

End Str.

(** ** [config/settings.py] *)

Module Settings.

Record Settings := {
  worker_poll_interval : Z;
  max_retries : Z;
  retry_delay : Z;
  github_rate_limit_per_minute : Z;
  openai_rate_limit_per_minute : Z;
  anthropic_rate_limit_per_minute : Z;
  scout_model : string;
  guardian_model : string;
  architect_model : string;
  stylist_model : string;
  synthesizer_model : string;
  max_diff_size : Z;
  max_file_size : Z
}.

(** The defaults of the class [Settings]. *)
Definition defaults : Settings := {|
  worker_poll_interval := 5;
  max_retries := 3;
  retry_delay := 5;
  github_rate_limit_per_minute := 30;
  openai_rate_limit_per_minute := 60;
  anthropic_rate_limit_per_minute := 50;
  scout_model := "gpt-4o-mini";
  guardian_model := "claude-3-5-sonnet-20241022";
  architect_model := "gpt-4o";
  stylist_model := "gpt-4o-mini";
  synthesizer_model := "gpt-4o";
  max_diff_size := 100000;
  max_file_size := 50000
|}.

End Settings.

(** ** [services/diff_parser.py] *)

Module DiffParser.
Import Str.

(** *** The noise denylist

    Every entry of [NOISE_PATTERNS] is a literal, or an alternation of
    literals, optionally followed by [$]. [alternatives] lists the
    literals (escapes resolved), [at_end] records the trailing [$]. *)
Record noise_pattern := {
  alternatives : list string;
  at_end : bool
}.

Definition anywhere (lit : string) : noise_pattern :=
  {| alternatives := [lit]; at_end := false |}.
Definition ending (lits : list string) : noise_pattern :=
  {| alternatives := lits; at_end := true |}.

Definition NOISE_PATTERNS : list noise_pattern := [
  ending [".lock"];
  ending ["package-lock.json"];
  ending ["yarn.lock"];
  ending ["pnpm-lock.yaml"];
  ending [".min.js"; ".min.css"];
  anywhere "node_modules/";
  anywhere ".git/";
  ending [".DS_Store"];
  ending [".log"];
  anywhere "dist/";
  anywhere "build/";
  ending [".pyc"];
  anywhere "__pycache__/";
  ending [".png"];
  ending [".jpg"];
  ending [".jpeg"];
  ending [".gif"];
  ending [".svg"];
  ending [".ico"];
  anywhere ".woff";
  ending [".woff2"];
  ending [".ttf"];
  ending [".eot"]
].

(** Where [$] matches without [re.MULTILINE]: at the end of the string
    and just before a newline that ends the string. *)
Definition dollar (rest : string) : bool :=
  match rest with
  | EmptyString => true
  | String c EmptyString => Ascii.eqb c nl
  | _ => false
  end.

(** The literal [lit] matches at the start of [s], and [$] after it when
    [anchored]. Both arguments are already lower-cased. *)
Definition lit_here (anchored : bool) (s lit : string) : bool :=
  String.prefix lit s && (negb anchored || dollar (drop (String.length lit) s)).

(** [pattern.search(s)]: some alternative matches at some position. *)
Fixpoint search_lower (p : noise_pattern) (s : string) : bool :=
  existsb (fun lit => lit_here (at_end p) s (lower lit)) (alternatives p)
  || match s with
     | EmptyString => false
     | String _ s' => search_lower p s'
     end.

(** The search under [re.IGNORECASE]: exact on paths of ASCII
    characters, where the folding is the lower-casing of [A] to [Z]. The
    two characters beyond ASCII that the folding also takes to [s] and
    [k] (U+017F and U+212A) are none of the 8-bit characters of a
    [string]. *)
Definition search (p : noise_pattern) (s : string) : bool :=
  search_lower p (lower s).

(** [is_noise_file]: the loop returns at the first pattern that matches. *)
Fixpoint is_noise_loop (patterns : list noise_pattern) (filepath : string) : bool :=
  match patterns with
  | [] => false
  | p :: rest => if search p filepath then true else is_noise_loop rest filepath
  end.

Definition is_noise_file (filepath : string) : bool :=
  is_noise_loop NOISE_PATTERNS filepath.

(** *** The per-file dictionary

    The keys ['old_path'], ['new_path'], ['content'], ['added_lines'] and
    ['removed_lines'] are set when the dictionary is created; ['is_binary']
    and ['is_deleted'] are only ever set to [True], so a [bool] records
    whether the key is present. A path is [None] when its key is absent
    (possible only for dictionaries not built by [parse_diff]). *)
Record DiffFile := {
  old_path : option string;
  new_path : option string;
  content : string;
  added_lines : Z;
  removed_lines : Z;
  is_binary : bool;
  is_deleted : bool
}.

Definition set_content (c : string) (f : DiffFile) : DiffFile :=
  {| old_path := old_path f; new_path := new_path f; content := c;
     added_lines := added_lines f; removed_lines := removed_lines f;
     is_binary := is_binary f; is_deleted := is_deleted f |}.

Definition add_counts (a r : Z) (f : DiffFile) : DiffFile :=
  {| old_path := old_path f; new_path := new_path f; content := content f;
     added_lines := added_lines f + a; removed_lines := removed_lines f + r;
     is_binary := is_binary f; is_deleted := is_deleted f |}.

Definition set_is_binary (f : DiffFile) : DiffFile :=
  {| old_path := old_path f; new_path := new_path f; content := content f;
     added_lines := added_lines f; removed_lines := removed_lines f;
     is_binary := true; is_deleted := is_deleted f |}.

Definition set_is_deleted (f : DiffFile) : DiffFile :=
  {| old_path := old_path f; new_path := new_path f; content := content f;
     added_lines := added_lines f; removed_lines := removed_lines f;
     is_binary := is_binary f; is_deleted := true |}.

(** [file_info.get('new_path') or file_info.get('old_path', '')] *)
Definition effective_path (f : DiffFile) : string :=
  match new_path f with
  | Some (String c s) => String c s
  | _ => match old_path f with Some s => s | None => EmptyString end
  end.

(** *** The two regular expressions of [parse_diff] *)

(** [(.+?)$] against the whole of [s]: [.] takes any character but a
    newline, [$] accepts the end or a final newline. *)
Fixpoint dot_plus_dollar (s : string) : option string :=
  match s with
  | EmptyString => None
  | String c s' =>
      if Ascii.eqb c nl then None
      else if dollar s' then Some (String c EmptyString)
      else match dot_plus_dollar s' with
           | Some g => Some (String c g)
           | None => None
           end
  end.

(** [(.+?) b/(.+?)$]: the first group is lazy, so the shortest prefix
    followed by [" b/"] and a matching remainder wins. *)
Fixpoint match_paths (s : string) : option (string * string) :=
  match s with
  | EmptyString => None
  | String c s' =>
      if Ascii.eqb c nl then None
      else
        match (if String.prefix " b/" s' then dot_plus_dollar (drop 3 s') else None) with
        | Some np => Some (String c EmptyString, np)
        | None =>
            match match_paths s' with
            | Some (op, np) => Some (String c op, np)
            | None => None
            end
        end
  end.

(** [re.match(r'diff --git a/(.+?) b/(.+?)$', line)] *)
Definition match_file_header (line : string) : option (string * string) :=
  if String.prefix "diff --git a/" line then match_paths (drop 13 line) else None.

(** [(\d+)(?:,(\d+))?] at the start of [s]: the number, the optional
    count, the rest. *)
Definition match_range (s : string) : option (string * option string * string) :=
  match span_digits s with
  | (EmptyString, _) => None
  | (start, String c rest) =>
      if Ascii.eqb c ","%char then
        match span_digits rest with
        | (EmptyString, _) => Some (start, None, String c rest)
        | (count, rest') => Some (start, Some count, rest')
        end
      else Some (start, None, String c rest)
  | (start, EmptyString) => Some (start, None, EmptyString)
  end.

(** [re.match(r'@@ -(\d+)(?:,(\d+))? \+(\d+)(?:,(\d+))? @@', line)]:
    groups 2 and 4. *)
Definition match_hunk_header (line : string) : option (option string * option string) :=
  if String.prefix "@@ -" line then
    match match_range (drop 4 line) with
    | Some (_, g2, rest) =>
        if String.prefix " +" rest then
          match match_range (drop 2 rest) with
          | Some (_, g4, rest') =>
              if String.prefix " @@" rest' then Some (g2, g4) else None
          | None => None
          end
        else None
    | None => None
    end
  else None.

(** [int(g or 1)] *)
Definition int_or_1 (g : option string) : Z :=
  match g with
  | Some d => int_of_digits d
  | None => 1
  end.

(** *** [parse_diff]

    The dictionaries live in [heap]; [files] and [current_file] hold
    references (indices), because [parse_diff] can append one dictionary
    to [files] more than once and go on mutating it afterwards. *)
Record parse_state := {
  heap : list DiffFile;
  files : list nat;
  current_file : option nat;
  current_lines : list string
}.

Definition initial_state : parse_state :=
  {| heap := []; files := []; current_file := None; current_lines := [] |}.

(** [heap[r] = f (heap[r])] *)
Fixpoint update (r : nat) (f : DiffFile -> DiffFile) (h : list DiffFile) : list DiffFile :=
  match h, r with
  | [], _ => []
  | x :: h', O => f x :: h'
  | x :: h', S r' => x :: update r' f h'
  end.

(** [current_file['content'] = '\n'.join(current_lines); files.append(current_file)] *)
Definition close_current (st : parse_state) : parse_state :=
  match current_file st with
  | Some r =>
      {| heap := update r (set_content (join_lines (current_lines st))) (heap st);
         files := files st ++ [r];
         current_file := Some r;
         current_lines := current_lines st |}
  | None => st
  end.

(** [if current_file: <mutate current_file>; current_lines.append(line)] *)
Definition on_current (f : DiffFile -> DiffFile) (line : string) (st : parse_state) : parse_state :=
  match current_file st with
  | Some r =>
      {| heap := update r f (heap st);
         files := files st;
         current_file := Some r;
         current_lines := current_lines st ++ [line] |}
  | None => st
  end.

(** The counts a hunk-header line adds. *)
Definition hunk_counts (line : string) (f : DiffFile) : DiffFile :=
  match match_hunk_header line with
  | Some (g2, g4) => add_counts (int_or_1 g4) (int_or_1 g2) f
  | None => f
  end.

(** The counts a content line adds. *)
Definition content_counts (line : string) (f : DiffFile) : DiffFile :=
  if startswith line "+" && negb (startswith line "+++") then add_counts 1 0 f
  else if startswith line "-" && negb (startswith line "---") then add_counts 0 1 f
  else f.

(** The body of [for line in lines]. *)
Definition parse_line (st : parse_state) (line : string) : parse_state :=
  if startswith line "diff --git" then
    let st1 := close_current st in
    match match_file_header line with
    | Some (op, np) =>
        {| heap := heap st1 ++
             [{| old_path := Some op; new_path := Some np; content := EmptyString;
                 added_lines := 0; removed_lines := 0;
                 is_binary := false; is_deleted := false |}];
           files := files st1;
           current_file := Some (List.length (heap st1));
           current_lines := [line] |}
    | None => st1
    end
  else if startswith line "index " then on_current (fun f => f) line st
  else if startswith line "Binary files" then on_current set_is_binary line st
  else if startswith line "new file mode" then on_current (fun f => f) line st
  else if startswith line "deleted file mode" then on_current set_is_deleted line st
  else if startswith line "@@" then on_current (hunk_counts line) line st
  else on_current (content_counts line) line st.

(** The list [parse_diff] returns, read through the references. *)
Definition deref (h : list DiffFile) (refs : list nat) : list DiffFile :=
  flat_map (fun r => match nth_error h r with Some f => [f] | None => [] end) refs.

Definition parse_diff (diff_text : string) : list DiffFile :=
  if negb (truthy diff_text) then []
  else
    let st := close_current (fold_left parse_line (split_lines diff_text) initial_state) in
    deref (heap st) (files st).

(** *** [filter_noise] *)
Definition filter_noise (files : list DiffFile) : list DiffFile :=
  fold_left
    (fun filtered file_info =>
       if negb (is_noise_file (effective_path file_info))
       then filtered ++ [file_info] else filtered)
    files [].

(** *** [chunk_large_file] *)

(** The loop state: [chunks], [current_chunk], [current_size]. *)
Definition chunk_state : Type := list string * list string * Z.

Definition chunk_line (max_size : Z) (st : chunk_state) (line : string) : chunk_state :=
  let '(chunks, current_chunk, current_size) := st in
  let line_size := len line + 1 in
  if (current_size + line_size >? max_size)
     && match current_chunk with [] => false | _ => true end
  then (chunks ++ [join_lines current_chunk], [line], line_size)
  else (chunks, current_chunk ++ [line], current_size + line_size).

Definition chunk_finish (st : chunk_state) : list string :=
  let '(chunks, current_chunk, _) := st in
  match current_chunk with
  | [] => chunks
  | _ => chunks ++ [join_lines current_chunk]
  end.

Definition chunk_large_file_with (file_content : string) (max_size : Z) : list string :=
  if len file_content <=? max_size then [file_content]
  else chunk_finish
         (fold_left (chunk_line max_size) (split_lines file_content) ([], [], 0)).

(** [max_size=None] takes [settings.max_file_size]. *)
Definition chunk_large_file (settings : Settings.Settings)
    (file_content : string) (max_size : option Z) : list string :=
  chunk_large_file_with file_content
    (match max_size with Some m => m | None => Settings.max_file_size settings end).

(** *** [get_file_summary] *)

Inductive file_status := modified | deleted | binary | new.

Definition status_of (f : DiffFile) : file_status :=
  if is_deleted f then deleted
  else if is_binary f then binary
  else if negb (match old_path f with Some s => truthy s | None => false end) then new
  else modified.

Definition status_name (s : file_status) : string :=
  match s with
  | modified => "modified"
  | deleted => "deleted"
  | binary => "binary"
  | new => "new"
  end.

(** [str(n)] for an [int]. *)
Definition str_of_int (n : Z) : string :=
  NilZero.string_of_int (Z.to_int n).

(** [f"{status}: {filepath} (+{added}/-{removed})"] *)
Definition summary_line (f : DiffFile) : string :=
  (status_name (status_of f) ++ ": " ++ effective_path f ++ " (+"
   ++ str_of_int (added_lines f) ++ "/-" ++ str_of_int (removed_lines f) ++ ")")%string.

Definition get_file_summary (files : list DiffFile) : string :=
  join_lines
    (fold_left (fun summary_lines file_info => summary_lines ++ [summary_line file_info])
       files []).

(** *** [process_diff] *)
Definition process_diff (settings : Settings.Settings) (diff_text : string)
    : string * list DiffFile :=
  let max := Settings.max_diff_size settings in
  let diff_text' :=
    if len diff_text >? max
    then (slice_to max diff_text ++ nl_s ++ nl_s
          ++ "[DIFF TRUNCATED: Original size " ++ str_of_int (len diff_text)
          ++ " chars, max " ++ str_of_int max ++ " chars]")%string
    else diff_text in
  let filtered_files := filter_noise (parse_diff diff_text') in
  (join_lines (map content filtered_files), filtered_files).

(** The independent count of literal ['+'] and ['-'] lines of a text. *)
Definition count_lines (p : string -> bool) (text : string) : Z :=
  Z.of_nat (List.length (filter p (split_lines text))).

Definition is_added_line (line : string) : bool :=
  startswith line "+" && negb (startswith line "+++").
Definition is_removed_line (line : string) : bool :=
  startswith line "-" && negb (startswith line "---").

Definition rescan_added (f : DiffFile) : Z := count_lines is_added_line (content f).
Definition rescan_removed (f : DiffFile) : Z := count_lines is_removed_line (content f).

(** The counts the hunk headers of a text declare: for each line that
    matches the hunk-header expression, the new-side and the old-side
    count, 1 when the count is left out. *)
Definition hunk_added_line (line : string) : Z :=
  match match_hunk_header line with
  | Some (_, g4) => int_or_1 g4
  | None => 0
  end.

Definition hunk_removed_line (line : string) : Z :=
  match match_hunk_header line with
  | Some (g2, _) => int_or_1 g2
  | None => 0
  end.

Definition hunk_added (text : string) : Z :=
  sum_over hunk_added_line (split_lines text).
Definition hunk_removed (text : string) : Z :=
  sum_over hunk_removed_line (split_lines text).

End DiffParser.

(** ** [workers/orchestrator.py]: the token bucket *)

Module RateLimiter.

(** [time.time()] readings are modelled by rationals; the arithmetic on
    them is exact where Python rounds to a double. None of the properties
    below depends on the value of a reading. *)
Definition time : Type := Q.

Record RateLimiter := {
  rate : Z;
  per : Z;
  tokens : Z;
  last_refill : time
}.

(** [__init__(rate, per)] at clock reading [now]. *)
Definition init (rate per : Z) (now : time) : RateLimiter :=
  {| rate := rate; per := per; tokens := rate; last_refill := now |}.

(** [int(x)]: truncation toward zero. *)
Definition int_of (x : Q) : Z := Z.quot (Qnum x) (Zpos (Qden x)).

(** [int(elapsed * self.rate / self.per)]; [None] is the
    [ZeroDivisionError] of a zero [per]. *)
Definition tokens_to_add (l : RateLimiter) (now : time) : option Z :=
  if (per l =? 0)%Z then None
  else
    let elapsed := (now - last_refill l)%Q in
    Some (int_of (elapsed * inject_Z (rate l) / inject_Z (per l))%Q).

(** The refill, given the number of tokens to add. *)
Definition refill_by (n : Z) (now : time) (l : RateLimiter) : RateLimiter :=
  if (n >? 0)%Z then
    {| rate := rate l; per := per l;
       tokens := Z.min (rate l) (tokens l + n);
       last_refill := now |}
  else l.

(** The check and the decrement. *)
Definition take (l : RateLimiter) : RateLimiter * bool :=
  if (tokens l >? 0)%Z then
    ({| rate := rate l; per := per l; tokens := tokens l - 1;
        last_refill := last_refill l |}, true)
  else (l, false).

(** One call of [acquire] at clock reading [now], with the state it
    checks: [refilled] is the limiter after the refill ([None] when the
    refill raised), [final] the limiter the call leaves, [returned] the
    value returned ([None] when the call raised). *)
Record acquire_run := {
  refilled : option RateLimiter;
  final : RateLimiter;
  returned : option bool
}.

Definition acquire (now : time) (l : RateLimiter) : acquire_run :=
  match tokens_to_add l now with
  | None => {| refilled := None; final := l; returned := None |}
  | Some n =>
      let l1 := refill_by n now l in
      let '(l2, ok) := take l1 in
      {| refilled := Some l1; final := l2; returned := Some ok |}
  end.

(** The calls of [acquire] made at the clock readings [nows], in order. *)
Fixpoint acquire_all (nows : list time) (l : RateLimiter) : list acquire_run :=
  match nows with
  | [] => []
  | now :: rest =>
      let r := acquire now l in r :: acquire_all rest (final r)
  end.

(** How a call of [wait()] ends, given the clock reading of each of its
    attempts: it returns after the first attempt that acquires; it raises
    when an attempt raises or when the pause [per / rate] divides by a
    zero [rate]; it is still waiting when the readings run out. *)
Inductive wait_outcome :=
| Acquired
| Raised
| Waiting.

Fixpoint wait (nows : list time) (l : RateLimiter) : RateLimiter * wait_outcome :=
  match nows with
  | [] => (l, Waiting)
  | now :: rest =>
      let r := acquire now l in
      match returned r with
      | Some true => (final r, Acquired)
      | Some false =>
          if (rate l =? 0)%Z then (final r, Raised) else wait rest (final r)
      | None => (final r, Raised)
      end
  end.

(** The available tokens are within [[0, capacity]]. *)
Definition in_range (l : RateLimiter) : Prop :=
  (0 <= tokens l <= rate l)%Z.

(** One call respects the bucket: the refilled and the final state are in
    range for [capacity], and [True] is returned only on a refilled
    bucket that holds a token. *)
Definition acquire_ok (capacity : Z) (r : acquire_run) : Prop :=
  (forall l1, refilled r = Some l1 ->
     in_range l1 /\ rate l1 = capacity /\
     (returned r = Some true -> (0 < tokens l1)%Z)) /\
  in_range (final r) /\ rate (final r) = capacity.

End RateLimiter.

(** ** [models/review.py], [models/pr.py] *)

Module Models.

(** Elapsed wall-clock seconds: differences of [time.time()] readings. *)
Definition seconds : Type := Q.

Record AgentResult := {
  agent_name : string;
  output : string;
  tokens_used : Z;
  model_used : string;
  processing_time : seconds;
  error : option string
}.

Record PRMetadata := {
  pr_id : Z;
  repository : string;
  owner : string;
  repo_name : string;
  title : string;
  author : string;
  base_branch : string;
  head_branch : string;
  head_sha : string;
  installation_id : Z;
  webhook_delivery_id : option string
}.

(** [queued_at] is kept as its ISO-8601 text. *)
Record PRTask := {
  pr_metadata : PRMetadata;
  queued_at : string;
  retry_count : Z
}.

(** [task.retry_count += 1] *)
Definition bump_retry_count (t : PRTask) : PRTask :=
  {| pr_metadata := pr_metadata t; queued_at := queued_at t;
     retry_count := retry_count t + 1 |}.

End Models.

(** ** Exceptions *)

Module Exc.

(** The outcome of a call: the value returned, or the exception raised.
    An exception (a subclass of [Exception]) is kept as its text
    [str(e)], which is all the handlers of this program read of it. *)
Inductive result (A : Type) : Type :=
| Ok (a : A)
| Raise (msg : string).
Arguments Ok {A} a.
Arguments Raise {A} msg.

Definition bind {A B} (r : result A) (k : A -> result B) : result B :=
  match r with
  | Ok a => k a
  | Raise msg => Raise msg
  end.

(** [try: body  except Exception as e: handler(str(e))] *)
Definition try_except {A} (body : result A) (handler : string -> result A) : result A :=
  match body with
  | Ok a => Ok a
  | Raise msg => handler msg
  end.

End Exc.

Declare Scope exc_scope.
Delimit Scope exc_scope with exc.
Notation "x <- e ;; k" := (Exc.bind e (fun x => k))
  (at level 61, e at next level, right associativity) : exc_scope.
Notation "e ;;; k" := (Exc.bind e (fun _ => k))
  (at level 61, right associativity) : exc_scope.

(** ** [workers/agents/]: the four analysis stages *)

Module Agents.
Import Str Models Exc.

(** The [context] dictionary; [None] is an absent key. *)
Record Context := {
  ctx_repository : option string;
  ctx_pr_id : option Z;
  ctx_files : option (list DiffParser.DiffFile);
  ctx_language : option string;
  ctx_pr_title : option string;
  ctx_files_changed : option Z
}.

(** A chat-completion request and the parts of its response the stages
    read: [choices[i].message.content] and [usage.total_tokens]. *)
Record ChatRequest := {
  chat_model : string;
  chat_system : string;
  chat_user : string;
  chat_temperature : Q;
  chat_max_tokens : Z
}.

Record ChatCompletion := {
  choices : list (option string);
  usage : option Z
}.

(** A messages request and the text blocks [content[i].text] of its
    response. *)
Record MessageRequest := {
  msg_model : string;
  msg_user : string;
  msg_temperature : Q;
  msg_max_tokens : Z
}.

Record Message := {
  content : list string
}.

(** The provider clients: each call returns a response or raises. *)
Definition OpenAI : Type := ChatRequest -> result ChatCompletion.
Definition Anthropic : Type := MessageRequest -> result Message.

(** [xs[0]] *)
Definition first {A} (xs : list A) : result A :=
  match xs with
  | x :: _ => Ok x
  | [] => Raise "list index out of range"
  end.

(** [response.usage.total_tokens] *)
Definition total_tokens (r : ChatCompletion) : result Z :=
  match usage r with
  | Some n => Ok n
  | None => Raise "'NoneType' object has no attribute 'total_tokens'"
  end.

(** [len(s.split())]: the number of maximal runs of characters that are
    not white space. *)
Definition is_space (c : ascii) : bool :=
  let n := nat_of_ascii c in
  (((9 <=? n) && (n <=? 13)) || ((28 <=? n) && (n <=? 32)))%nat.

Fixpoint count_words (in_word : bool) (s : string) : Z :=
  match s with
  | EmptyString => 0
  | String c s' =>
      if is_space c then count_words false s'
      else (if in_word then 0 else 1) + count_words true s'
  end.

Definition word_count (s : string) : Z := count_words false s.

(** [diff[:50000]] *)
Definition head_of_diff (diff : string) : string := slice_to 50000 diff.


(** *** [scout.py] *)

Module ScoutAgent.

Definition prompt_0 : string :=
"You are a code review assistant. Your task is to filter a Git diff and identify the most relevant code changes for review.

Focus on:
- Functional code changes (not comments, whitespace-only changes, or formatting)
- Logic modifications
- New features or bug fixes
- Important refactoring

Ignore:
- Lock file changes (package-lock.json, yarn.lock, etc.)
- Generated files
- Binary files
- Whitespace-only changes
- Comment-only changes

Here is the diff:

".

Definition prompt_1 : string :=
"  # Limit to 50k chars to avoid token limits

Please provide a filtered version of the diff that contains only the relevant code changes for review. If the diff is already clean, return it as-is. Format your response as a Git unified diff.".

Definition system_message : string :=
"You are a code review assistant that filters Git diffs to show only relevant changes.".

Definition prompt (diff : string) : string :=
  (prompt_0 ++ head_of_diff diff ++ prompt_1)%string.

(** The request [analyze] sends. *)
Definition request (model diff : string) : ChatRequest :=
  {| chat_model := model; chat_system := system_message;
     chat_user := prompt diff; chat_temperature := (1 # 10)%Q;
     chat_max_tokens := 8000 |}.

(** The [try] block. [tokens_used] is assigned before the [len] of the
    content is taken, so the handler sees the response's count when the
    content is [None]. *)
Definition analyze (client : OpenAI) (model : string)
    (start_time end_time : Q) (diff : string) (context : Context)
    : result AgentResult :=
  let failed (tokens_used : Z) (msg : string) : result AgentResult :=
    Ok {| agent_name := "scout"; output := diff; tokens_used := tokens_used;
          model_used := model; processing_time := (end_time - start_time)%Q;
          error := Some msg |} in
  match client (request model diff) with
  | Raise msg => failed 0 msg
  | Ok response =>
      match first (choices response) with
      | Raise msg => failed 0 msg
      | Ok filtered_diff =>
          match total_tokens response with
          | Raise msg => failed 0 msg
          | Ok tokens_used =>
              match filtered_diff with
              | None => failed tokens_used "object of type 'NoneType' has no len()"
              | Some text =>
                  Ok {| agent_name := "scout"; output := text;
                        tokens_used := tokens_used; model_used := model;
                        processing_time := (end_time - start_time)%Q;
                        error := None |}
              end
          end
      end
  end.

End ScoutAgent.


(** *** [guardian.py] *)

Module GuardianAgent.

Definition prompt_0 : string :=
"You are a security expert reviewing code changes. Analyze this Git diff for security vulnerabilities.

Focus on:
1. Hardcoded secrets (API keys, passwords, tokens, credentials)
2. SQL injection vulnerabilities
3. XSS (Cross-Site Scripting) vulnerabilities
4. CSRF (Cross-Site Request Forgery) issues
5. Authentication and authorization flaws
6. Insecure data storage
7. Insecure communication
8. OWASP Top 10 vulnerabilities

For each issue found, provide:
- Severity (Critical, High, Medium, Low)
- Location (file and line number if possible)
- Description of the vulnerability
- Recommended fix

Here is the diff:

".

Definition prompt_1 : string :=
"

Provide a detailed security analysis. If no issues are found, state that clearly.".

Definition fallback_output : string :=
  "Security analysis failed. Please review manually.".

Definition prompt (diff : string) : string :=
  (prompt_0 ++ head_of_diff diff ++ prompt_1)%string.

Definition request (model diff : string) : MessageRequest :=
  {| msg_model := model; msg_user := prompt diff;
     msg_temperature := (2 # 10)%Q; msg_max_tokens := 4000 |}.

Definition analyze (client : Anthropic) (model : string)
    (start_time end_time : Q) (diff : string) (context : Context)
    : result AgentResult :=
  let failed (tokens_used : Z) (msg : string) : result AgentResult :=
    Ok {| agent_name := "guardian"; output := fallback_output;
          tokens_used := tokens_used; model_used := model;
          processing_time := (end_time - start_time)%Q;
          error := Some msg |} in
  match client (request model diff) with
  | Raise msg => failed 0 msg
  | Ok response =>
      match first (content response) with
      | Raise msg => failed 0 msg
      | Ok analysis =>
          Ok {| agent_name := "guardian"; output := analysis;
                tokens_used := word_count (prompt diff) + word_count analysis;
                model_used := model;
                processing_time := (end_time - start_time)%Q;
                error := None |}
      end
  end.

End GuardianAgent.


(** *** [architect.py] *)

Module ArchitectAgent.

Definition prompt_0 : string :=
"You are a senior software architect reviewing code changes. Analyze this Git diff for:

1. Logic Flow Issues:
   - Missing error handling
   - Incorrect control flow
   - Race conditions
   - Dead code
   - Infinite loops or recursion issues

2. Code Complexity:
   - Cyclomatic complexity
   - Nested conditionals
   - Long functions/methods
   - Cognitive complexity

3. DRY (Don't Repeat Yourself) Violations:
   - Code duplication
   - Opportunities for abstraction
   - Missing utility functions

4. Design Patterns:
   - Appropriate use of design patterns
   - Missing abstractions
   - Tight coupling
   - Poor separation of concerns

5. Performance:
   - Inefficient algorithms
   - Unnecessary database queries
   - Memory leaks
   - Resource management

For each issue, provide:
- Type of issue
- Location (file/function if identifiable)
- Impact
- Suggested improvement

Here is the diff:

".

Definition prompt_1 : string :=
"

Provide a comprehensive architectural review.".

Definition system_message : string :=
"You are a senior software architect with expertise in code quality, design patterns, and best practices.".

Definition fallback_output : string :=
  "Architectural analysis failed. Please review manually.".

Definition prompt (diff : string) : string :=
  (prompt_0 ++ head_of_diff diff ++ prompt_1)%string.

Definition request (model diff : string) : ChatRequest :=
  {| chat_model := model; chat_system := system_message;
     chat_user := prompt diff; chat_temperature := (2 # 10)%Q;
     chat_max_tokens := 4000 |}.

(** The [try] block. A [None] content is refused when the [AgentResult]
    is built, after [tokens_used] was assigned. *)
Definition analyze (client : OpenAI) (model : string)
    (validation_error : string)
    (start_time end_time : Q) (diff : string) (context : Context)
    : result AgentResult :=
  let failed (tokens_used : Z) (msg : string) : result AgentResult :=
    Ok {| agent_name := "architect"; output := fallback_output;
          tokens_used := tokens_used; model_used := model;
          processing_time := (end_time - start_time)%Q;
          error := Some msg |} in
  match client (request model diff) with
  | Raise msg => failed 0 msg
  | Ok response =>
      match first (choices response) with
      | Raise msg => failed 0 msg
      | Ok analysis =>
          match total_tokens response with
          | Raise msg => failed 0 msg
          | Ok tokens_used =>
              match analysis with
              | None => failed tokens_used validation_error
              | Some text =>
                  Ok {| agent_name := "architect"; output := text;
                        tokens_used := tokens_used; model_used := model;
                        processing_time := (end_time - start_time)%Q;
                        error := None |}
              end
          end
      end
  end.

End ArchitectAgent.


(** *** [stylist.py] *)

Module StylistAgent.

Definition prompt_0 : string :=
"You are a code style reviewer. Analyze this Git diff for style and naming issues.

Focus on:
1. Naming Conventions:
   - Variable names (camelCase, snake_case, etc.)
   - Function/method names
   - Class names
   - Constant names
   - File names

2. Code Style:
   - Indentation consistency
   - Spacing and formatting
   - Line length
   - Trailing whitespace
   - Missing/extra blank lines

3. Best Practices:
   - Magic numbers (should be constants)
   - Comment quality
   - Documentation
   - Import organization

4. Language-Specific Linting:
   - Follow common linting rules for ".

Definition prompt_1 : string :=
"
   - Common anti-patterns

Provide feedback in a friendly, constructive manner. Focus on actionable improvements.
If the code style is good, acknowledge that.

Here is the diff:

".

Definition prompt_2 : string :=
"

Provide a style review with specific suggestions.".

Definition system_message : string :=
"You are a friendly code style reviewer who provides constructive feedback.".

Definition fallback_output : string :=
  "Style analysis failed. Please review manually.".

(** [context.get('language', 'unknown')] *)
Definition language_of (context : Context) : string :=
  match ctx_language context with
  | Some l => l
  | None => "unknown"
  end.

Definition prompt (diff : string) (context : Context) : string :=
  (prompt_0 ++ language_of context ++ prompt_1 ++ head_of_diff diff ++ prompt_2)%string.

Definition request (model diff : string) (context : Context) : ChatRequest :=
  {| chat_model := model; chat_system := system_message;
     chat_user := prompt diff context; chat_temperature := (3 # 10)%Q;
     chat_max_tokens := 3000 |}.

(** The [try] block. A [None] content is refused when the [AgentResult]
    is built, after [tokens_used] was assigned. *)
Definition analyze (client : OpenAI) (model : string)
    (validation_error : string)
    (start_time end_time : Q) (diff : string) (context : Context)
    : result AgentResult :=
  let failed (tokens_used : Z) (msg : string) : result AgentResult :=
    Ok {| agent_name := "stylist"; output := fallback_output;
          tokens_used := tokens_used; model_used := model;
          processing_time := (end_time - start_time)%Q;
          error := Some msg |} in
  match client (request model diff context) with
  | Raise msg => failed 0 msg
  | Ok response =>
      match first (choices response) with
      | Raise msg => failed 0 msg
      | Ok analysis =>
          match total_tokens response with
          | Raise msg => failed 0 msg
          | Ok tokens_used =>
              match analysis with
              | None => failed tokens_used validation_error
              | Some text =>
                  Ok {| agent_name := "stylist"; output := text;
                        tokens_used := tokens_used; model_used := model;
                        processing_time := (end_time - start_time)%Q;
                        error := None |}
              end
          end
      end
  end.

End StylistAgent.


End Agents.


(** ** [workers/agents/synthesizer.py] *)

Module Synthesizer.
Import Str Models Exc Agents.

Definition prompt_0 : string :=
"You are a senior developer synthesizing code review feedback from multiple specialized reviewers.

Your task is to create a single, cohesive, and friendly PR review comment that:
1. Summarizes the key findings from all reviewers
2. Prioritizes issues by severity/importance
3. Provides actionable feedback
4. Maintains a constructive, professional tone
5. Uses proper Markdown formatting for GitHub

Here are the individual reviews:

## Security Review (Guardian):
".

Definition prompt_1 : string :=
"

## Architecture Review (Architect):
".

Definition prompt_2 : string :=
"

## Style Review (Stylist):
".

Definition prompt_3 : string :=
"

## Context:
- Repository: ".

Definition prompt_4 : string :=
"
- PR Title: ".

Definition prompt_5 : string :=
"
- Files Changed: ".

Definition prompt_6 : string :=
"

Create a well-structured PR review comment that:
- Starts with a brief summary
- Groups findings by category (Security, Architecture, Style)
- Highlights critical issues first
- Provides specific, actionable suggestions
- Ends on a positive note

Format the output as GitHub Markdown.".

Definition system_message : string :=
"You are a senior developer who writes clear, constructive, and actionable code review comments.".

(** [r and not r.error]: the result is there and its [error] is [None]
    or empty. *)
Definition succeeded (r : option AgentResult) : bool :=
  match r with
  | Some a => match error a with
              | Some msg => negb (truthy msg)
              | None => true
              end
  | None => false
  end.

(** [r.output if r and not r.error else default] *)
Definition output_or (r : option AgentResult) (default : string) : string :=
  match r with
  | Some a => if succeeded r then output a else default
  | None => default
  end.

(** [context.get(key, 'unknown')] inside the f-string *)
Definition get_or_unknown (v : option string) : string :=
  match v with Some s => s | None => "unknown" end.

Definition prompt (guardian_result architect_result stylist_result : option AgentResult)
    (context : Context) : string :=
  (prompt_0
   ++ output_or guardian_result "No security issues found or analysis unavailable."
   ++ prompt_1
   ++ output_or architect_result "No architectural issues found or analysis unavailable."
   ++ prompt_2
   ++ output_or stylist_result "Code style looks good or analysis unavailable."
   ++ prompt_3 ++ get_or_unknown (ctx_repository context)
   ++ prompt_4 ++ get_or_unknown (ctx_pr_title context)
   ++ prompt_5
   ++ get_or_unknown (option_map DiffParser.str_of_int (ctx_files_changed context))
   ++ prompt_6)%string.

Definition request (model : string)
    (guardian_result architect_result stylist_result : option AgentResult)
    (context : Context) : ChatRequest :=
  {| chat_model := model; chat_system := system_message;
     chat_user := prompt guardian_result architect_result stylist_result context;
     chat_temperature := (3 # 10)%Q; chat_max_tokens := 4000 |}.

(** [comment_parts.append(title); comment_parts.append(r.output);
    comment_parts.append("\n\n")] under [if r and not r.error] *)
Definition append_review (title : string) (r : option AgentResult)
    (comment_parts : list string) : list string :=
  match r with
  | Some a =>
      if succeeded r
      then comment_parts ++ [title] ++ [output a] ++ [(nl_s ++ nl_s)%string]
      else comment_parts
  | None => comment_parts
  end.

Definition _create_fallback_comment
    (scout_result guardian_result architect_result stylist_result : option AgentResult)
    : string :=
  let comment_parts := [("## Code Review Summary" ++ nl_s ++ nl_s)%string] in
  let comment_parts :=
    append_review ("### Security Review" ++ nl_s)%string guardian_result comment_parts in
  let comment_parts :=
    append_review ("### Architecture Review" ++ nl_s)%string architect_result comment_parts in
  let comment_parts :=
    append_review ("### Style Review" ++ nl_s)%string stylist_result comment_parts in
  String.concat EmptyString comment_parts.

Definition analyze (client : OpenAI) (model : string)
    (validation_error : string)
    (start_time end_time : Q)
    (scout_result guardian_result architect_result stylist_result : option AgentResult)
    (context : Context) : result AgentResult :=
  let failed (tokens_used : Z) (msg : string) : result AgentResult :=
    Ok {| agent_name := "synthesizer";
          output := _create_fallback_comment scout_result guardian_result
                      architect_result stylist_result;
          tokens_used := tokens_used; model_used := model;
          processing_time := (end_time - start_time)%Q;
          error := Some msg |} in
  match client (request model guardian_result architect_result stylist_result context) with
  | Raise msg => failed 0 msg
  | Ok response =>
      match first (choices response) with
      | Raise msg => failed 0 msg
      | Ok synthesized_comment =>
          match total_tokens response with
          | Raise msg => failed 0 msg
          | Ok tokens_used =>
              match synthesized_comment with
              | None => failed tokens_used validation_error
              | Some text =>
                  Ok {| agent_name := "synthesizer"; output := text;
                        tokens_used := tokens_used; model_used := model;
                        processing_time := (end_time - start_time)%Q;
                        error := None |}
              end
          end
      end
  end.

End Synthesizer.

(** ** The stores the worker writes to *)

Module Stores.
Import Models Exc.

(** One entry of the Redis list [pr_review_dlq]: the fields of the JSON
    object [enqueue_dlq] pushes. *)
Record DlqEntry := {
  dlq_task : string;
  dlq_error : string;
  dlq_failed_at : string
}.

(** One write to the table [pr_reviews]. *)
Record StatusWrite := {
  sw_pr_id : Z;
  sw_repository : string;
  sw_status : string;
  sw_error_message : option string;
  sw_comment_posted : bool;
  sw_comment_id : option Z
}.

(** [ReviewResult] without its default [created_at]; [metadata] holds
    the three sizes. *)
Record ReviewResult := {
  rr_pr_id : Z;
  rr_repository : string;
  rr_scout_result : option AgentResult;
  rr_guardian_result : option AgentResult;
  rr_architect_result : option AgentResult;
  rr_stylist_result : option AgentResult;
  rr_synthesizer_result : option AgentResult;
  rr_final_comment : option string;
  rr_total_tokens : Z;
  rr_files_changed : Z;
  rr_diff_size : Z;
  rr_filtered_diff_size : Z
}.

(** [APIUsage] without its default [timestamp]. *)
Record APIUsage := {
  au_pr_id : Z;
  au_repository : string;
  au_agent_name : string;
  au_model : string;
  au_tokens_used : Z;
  au_cost_estimate : Q
}.

Record Comment := {
  c_owner : string;
  c_repo : string;
  c_pr_number : Z;
  c_installation_id : Z;
  c_body : string
}.

(** Everything outside the process that a task's processing changes.
    The two Redis lists are written leftmost element first; the other
    logs are oldest write first. *)
Record World := {
  pr_review_queue : list string;
  pr_review_dlq : list DlqEntry;
  pr_reviews : list StatusWrite;
  review_results : list ReviewResult;
  api_usage : list APIUsage;
  comments : list Comment;
  sleeps : list Z
}.

Definition with_queue (q : list string) (w : World) : World :=
  {| pr_review_queue := q; pr_review_dlq := pr_review_dlq w;
     pr_reviews := pr_reviews w; review_results := review_results w;
     api_usage := api_usage w; comments := comments w; sleeps := sleeps w |}.

Definition with_dlq (d : list DlqEntry) (w : World) : World :=
  {| pr_review_queue := pr_review_queue w; pr_review_dlq := d;
     pr_reviews := pr_reviews w; review_results := review_results w;
     api_usage := api_usage w; comments := comments w; sleeps := sleeps w |}.

Definition with_pr_reviews (p : list StatusWrite) (w : World) : World :=
  {| pr_review_queue := pr_review_queue w; pr_review_dlq := pr_review_dlq w;
     pr_reviews := p; review_results := review_results w;
     api_usage := api_usage w; comments := comments w; sleeps := sleeps w |}.

Definition with_review_results (r : list ReviewResult) (w : World) : World :=
  {| pr_review_queue := pr_review_queue w; pr_review_dlq := pr_review_dlq w;
     pr_reviews := pr_reviews w; review_results := r;
     api_usage := api_usage w; comments := comments w; sleeps := sleeps w |}.

Definition with_api_usage (a : list APIUsage) (w : World) : World :=
  {| pr_review_queue := pr_review_queue w; pr_review_dlq := pr_review_dlq w;
     pr_reviews := pr_reviews w; review_results := review_results w;
     api_usage := a; comments := comments w; sleeps := sleeps w |}.

Definition with_comments (c : list Comment) (w : World) : World :=
  {| pr_review_queue := pr_review_queue w; pr_review_dlq := pr_review_dlq w;
     pr_reviews := pr_reviews w; review_results := review_results w;
     api_usage := api_usage w; comments := c; sleeps := sleeps w |}.

Definition with_sleeps (s : list Z) (w : World) : World :=
  {| pr_review_queue := pr_review_queue w; pr_review_dlq := pr_review_dlq w;
     pr_reviews := pr_reviews w; review_results := review_results w;
     api_usage := api_usage w; comments := comments w; sleeps := s |}.

(** A coroutine of the worker: it changes the world and returns a value
    or raises. *)
Definition M (A : Type) : Type := World -> World * result A.

Definition ret {A} (a : A) : M A := fun w => (w, Ok a).

Definition bind {A B} (m : M A) (k : A -> M B) : M B :=
  fun w =>
    match m w with
    | (w', Ok a) => k a w'
    | (w', Raise msg) => (w', Raise msg)
    end.

(** [try: body  except Exception as e: handler(str(e))] *)
Definition try_except {A} (body : M A) (handler : string -> M A) : M A :=
  fun w =>
    match body w with
    | (w', Ok a) => (w', Ok a)
    | (w', Raise msg) => handler msg w'
    end.

(** A call to a collaborator: when it returns, its write is applied. *)
Definition call {A} (reply : result A) (write : World -> World) : M A :=
  fun w =>
    match reply with
    | Ok a => (write w, Ok a)
    | Raise msg => (w, Raise msg)
    end.

End Stores.

Declare Scope worker_scope.
Delimit Scope worker_scope with worker.
Notation "x <- m ;; k" := (Stores.bind m (fun x => k))
  (at level 61, m at next level, right associativity) : worker_scope.
Notation "m ;;; k" := (Stores.bind m (fun _ => k))
  (at level 61, right associativity) : worker_scope.

(** ** [services/queue.py] *)

Module Queue.
Import Models Exc Stores.

(** How Redis answers one command of the client. *)
Inductive redis_reply :=
| Served
| TimeoutError
| OtherError (msg : string).

Section Queue.
(** [task.model_dump_json()], and the decoding of a payload:
    [json.loads], [datetime.fromisoformat] and the [PRTask] constructor. *)
Variable model_dump_json : PRTask -> string.
Variable parse_task : string -> result PRTask.

(** [client.lpush(name, value)] on a list *)
Definition lpush {A} (value : A) (l : list A) : list A := value :: l.

(** [enqueue]: [True] when the push was served. *)
Definition enqueue (reply : redis_reply) (task : PRTask) : M bool :=
  try_except
    (let task_data := model_dump_json task in
     match reply with
     | Served =>
         fun w => (with_queue (lpush task_data (pr_review_queue w)) w, Ok true)
     | TimeoutError => fun w => (w, Raise "Timeout reading from socket")
     | OtherError msg => fun w => (w, Raise msg)
     end)
    (fun _ => ret false).

(** [client.brpop(name, timeout)]: the rightmost element, [None] when
    the list stays empty for [timeout] seconds. *)
Definition brpop (reply : redis_reply) : M (option string) :=
  match reply with
  | Served =>
      fun w =>
        match rev (pr_review_queue w) with
        | [] => (w, Ok None)
        | task_data :: _ =>
            (with_queue (removelast (pr_review_queue w)) w, Ok (Some task_data))
        end
  | TimeoutError => fun w => (w, Raise "Timeout reading from socket")
  | OtherError msg => fun w => (w, Raise msg)
  end.

(** [dequeue]: both [except] clauses return [None]. *)
Definition dequeue (reply : redis_reply) : M (option PRTask) :=
  try_except
    (bind (brpop reply) (fun result =>
       match result with
       | Some task_data =>
           match parse_task task_data with
           | Ok task => ret (Some task)
           | Raise msg => fun w => (w, Raise msg)
           end
       | None => ret None
       end))
    (fun _ => ret None).

(** [enqueue_dlq]: [failed_at] is [datetime.utcnow().isoformat()]. *)
Definition enqueue_dlq (reply : redis_reply) (utcnow : string)
    (task : PRTask) (error : string) : M unit :=
  try_except
    (let task_data := model_dump_json task in
     let error_data :=
       {| dlq_task := task_data; dlq_error := error; dlq_failed_at := utcnow |} in
     match reply with
     | Served =>
         fun w => (with_dlq (lpush error_data (pr_review_dlq w)) w, Ok tt)
     | TimeoutError => fun w => (w, Raise "Timeout reading from socket")
     | OtherError msg => fun w => (w, Raise msg)
     end)
    (fun _ => ret tt).

(** [get_queue_length] *)
Definition get_queue_length (reply : redis_reply) : M Z :=
  try_except
    (match reply with
     | Served => fun w => (w, Ok (Z.of_nat (List.length (pr_review_queue w))))
     | TimeoutError => fun w => (w, Raise "Timeout reading from socket")
     | OtherError msg => fun w => (w, Raise msg)
     end)
    (fun _ => ret 0).

(** [clear_queue] *)
Definition clear_queue (reply : redis_reply) : M unit :=
  try_except
    (match reply with
     | Served => fun w => (with_queue [] w, Ok tt)
     | TimeoutError => fun w => (w, Raise "Timeout reading from socket")
     | OtherError msg => fun w => (w, Raise msg)
     end)
    (fun _ => ret tt).

End Queue.

End Queue.

(** ** [workers/orchestrator.py]: the pipeline *)

Module Orchestrator.
Import Str Models Exc Stores Agents Queue.

(** The replies of the collaborators during one [process_task]: what
    PostgreSQL, GitHub, the rate limiters, the LLM providers and Redis
    answer to each call the coroutine makes. A limiter's [wait()] is kept
    as its outcome: it returns, or raises. *)
Record Env := {
  create_pr_review : result unit;
  update_processing : result unit;
  save_review_result : result unit;
  save_api_usage : string -> result unit;
  update_completed : result unit;
  update_failed : result unit;
  get_pr_diff : result string;
  get_pr_details : result (option string);
  post_pr_comment : result (option Z);
  github_wait_diff : result unit;
  openai_wait_scout : result unit;
  reviewers_wait : result unit;
  openai_wait_synthesizer : result unit;
  github_wait_comment : result unit;
  openai : OpenAI;
  anthropic : Anthropic;
  validation_error : string;
  clock : string -> Q * Q;
  lpush_queue : redis_reply;
  lpush_dlq : redis_reply;
  utcnow : string
}.

(** *** [_detect_language] *)

(** [filepath.split('.')[-1]] when ['.' in filepath] *)
Fixpoint extension (filepath : string) : option string :=
  match filepath with
  | EmptyString => None
  | String c rest =>
      match extension rest with
      | Some e => Some e
      | None => if Ascii.eqb c "."%char then Some rest else None
      end
  end.

(** [extensions[ext] = extensions.get(ext, 0) + 1] on a dictionary kept
    in insertion order. *)
Fixpoint count_extension (ext : string) (extensions : list (string * Z))
    : list (string * Z) :=
  match extensions with
  | [] => [(ext, 1)]
  | (e, n) :: rest =>
      if String.eqb e ext then (e, n + 1) :: rest
      else (e, n) :: count_extension ext rest
  end.

(** [max(extensions.items(), key=lambda x: x[1])]: the first of the
    largest. *)
Fixpoint max_by_count (best : string * Z) (items : list (string * Z)) : string * Z :=
  match items with
  | [] => best
  | item :: rest =>
      max_by_count (if snd item >? snd best then item else best) rest
  end.

Definition lang_map : list (string * string) := [
  ("py", "python"); ("js", "javascript"); ("ts", "typescript");
  ("java", "java"); ("go", "go"); ("rs", "rust"); ("cpp", "c++");
  ("c", "c"); ("rb", "ruby"); ("php", "php"); ("swift", "swift");
  ("kt", "kotlin")
].

Fixpoint get_or {V} (key : string) (default : V) (d : list (string * V)) : V :=
  match d with
  | [] => default
  | (k, v) :: rest => if String.eqb k key then v else get_or key default rest
  end.

Definition _detect_language (files_info : list DiffParser.DiffFile) : string :=
  let extensions :=
    fold_left
      (fun extensions file_info =>
         match extension (DiffParser.effective_path file_info) with
         | Some ext => count_extension (lower ext) extensions
         | None => extensions
         end)
      files_info [] in
  match extensions with
  | [] => "unknown"
  | first_item :: rest =>
      let most_common := fst (max_by_count first_item rest) in
      get_or most_common most_common lang_map
  end.

(** *** [_estimate_cost], in exact arithmetic *)
Definition _estimate_cost (model : string) (tokens : Z) : Q :=
  let costs := [("gpt-4o", 5 # 1000); ("gpt-4o-mini", 15 # 100000);
                ("claude-3-5-sonnet-20241022", 3 # 1000)]%Q in
  let cost_per_1k := get_or model (1 # 1000)%Q costs in
  ((inject_Z tokens / 1000) * cost_per_1k)%Q.

(** *** [process_task] *)

Section ProcessTask.
Variable settings : Settings.Settings.
Variable model_dump_json : PRTask -> string.
Variable env : Env.

Local Open Scope worker_scope.

(** [db.update_pr_review_status] and the row it writes. *)
Definition status_write (task : PRTask) (status : string)
    (error_message : option string) (comment_posted : bool)
    (comment_id : option Z) : StatusWrite :=
  {| sw_pr_id := pr_id (pr_metadata task);
     sw_repository := repository (pr_metadata task);
     sw_status := status; sw_error_message := error_message;
     sw_comment_posted := comment_posted; sw_comment_id := comment_id |}.

Definition write_status (sw : StatusWrite) (w : World) : World :=
  with_pr_reviews (pr_reviews w ++ [sw]) w.

(** [await asyncio.sleep(seconds)] *)
Definition sleep (seconds : Z) : M unit :=
  fun w => (with_sleeps (sleeps w ++ [seconds]) w, Ok tt).

(** An awaited coroutine that touches none of the stores. *)
Definition await {A} (r : result A) : M A := call r (fun w => w).

(** The result a reviewer's exception is replaced by after
    [asyncio.gather(..., return_exceptions=True)]. *)
Definition or_exception (name fallback model : string)
    (r : result AgentResult) : AgentResult :=
  match r with
  | Ok a => a
  | Raise msg =>
      {| agent_name := name; output := fallback; tokens_used := 0;
         model_used := model; processing_time := 0%Q; error := Some msg |}
  end.

(** [for agent_result in [...]: await db.save_api_usage(...)] *)
Fixpoint save_usages (task : PRTask) (results : list AgentResult) : M unit :=
  match results with
  | [] => ret tt
  | agent_result :: rest =>
      let usage :=
        {| au_pr_id := pr_id (pr_metadata task);
           au_repository := repository (pr_metadata task);
           au_agent_name := agent_name agent_result;
           au_model := model_used agent_result;
           au_tokens_used := tokens_used agent_result;
           au_cost_estimate :=
             _estimate_cost (model_used agent_result) (tokens_used agent_result) |} in
      call (save_api_usage env (agent_name agent_result))
           (fun w => with_api_usage (api_usage w ++ [usage]) w) ;;;
      save_usages task rest
  end.

(** The body of the second [try]. *)
Definition review (task : PRTask) : M unit :=
  let pr_meta := pr_metadata task in
  let base_context :=
    {| ctx_repository := Some (repository pr_meta);
       ctx_pr_id := Some (pr_id pr_meta);
       ctx_files := None; ctx_language := None;
       ctx_pr_title := None; ctx_files_changed := None |} in
  (* Step 1: fetch the diff *)
  await (github_wait_diff env) ;;;
  diff <- await (get_pr_diff env) ;;
  (* Step 2: process and filter *)
  let '(filtered_diff, files_info) := DiffParser.process_diff settings diff in
  (* Step 3: Scout *)
  await (openai_wait_scout env) ;;;
  scout_result <-
    await (ScoutAgent.analyze (openai env) (Settings.scout_model settings)
             (fst (clock env "scout")) (snd (clock env "scout")) filtered_diff
             {| ctx_repository := Some (repository pr_meta);
                ctx_pr_id := Some (pr_id pr_meta);
                ctx_files := Some files_info; ctx_language := None;
                ctx_pr_title := None; ctx_files_changed := None |}) ;;
  (* Step 4: Guardian, Architect and Stylist *)
  let filtered_for_review :=
    match error scout_result with
    | Some (String _ _) => filtered_diff
    | _ => output scout_result
    end in
  let stylist_context :=
    {| ctx_repository := Some (repository pr_meta);
       ctx_pr_id := Some (pr_id pr_meta);
       ctx_files := None; ctx_language := Some (_detect_language files_info);
       ctx_pr_title := None; ctx_files_changed := None |} in
  await (reviewers_wait env) ;;;
  let guardian_result :=
    or_exception "guardian" "Security analysis failed"
      (Settings.guardian_model settings)
      (GuardianAgent.analyze (anthropic env) (Settings.guardian_model settings)
         (fst (clock env "guardian")) (snd (clock env "guardian"))
         filtered_for_review base_context) in
  let architect_result :=
    or_exception "architect" "Architecture analysis failed"
      (Settings.architect_model settings)
      (ArchitectAgent.analyze (openai env) (Settings.architect_model settings)
         (validation_error env)
         (fst (clock env "architect")) (snd (clock env "architect"))
         filtered_for_review base_context) in
  let stylist_result :=
    or_exception "stylist" "Style analysis failed"
      (Settings.stylist_model settings)
      (StylistAgent.analyze (openai env) (Settings.stylist_model settings)
         (validation_error env)
         (fst (clock env "stylist")) (snd (clock env "stylist"))
         filtered_for_review stylist_context) in
  (* Step 5: Synthesizer *)
  await (openai_wait_synthesizer env) ;;;
  pr_title <- await (get_pr_details env) ;;
  synthesizer_result <-
    await (Synthesizer.analyze (openai env) (Settings.synthesizer_model settings)
             (validation_error env)
             (fst (clock env "synthesizer")) (snd (clock env "synthesizer"))
             (Some scout_result) (Some guardian_result)
             (Some architect_result) (Some stylist_result)
             {| ctx_repository := Some (repository pr_meta);
                ctx_pr_id := Some (pr_id pr_meta);
                ctx_files := None; ctx_language := None;
                ctx_pr_title :=
                  Some (match pr_title with Some t => t | None => EmptyString end);
                ctx_files_changed := Some (Z.of_nat (List.length files_info)) |}) ;;
  (* Step 6: the review result *)
  let total_tokens :=
    tokens_used scout_result + tokens_used guardian_result
    + tokens_used architect_result + tokens_used stylist_result
    + tokens_used synthesizer_result in
  let review_result :=
    {| rr_pr_id := pr_id pr_meta; rr_repository := repository pr_meta;
       rr_scout_result := Some scout_result;
       rr_guardian_result := Some guardian_result;
       rr_architect_result := Some architect_result;
       rr_stylist_result := Some stylist_result;
       rr_synthesizer_result := Some synthesizer_result;
       rr_final_comment := Some (output synthesizer_result);
       rr_total_tokens := total_tokens;
       rr_files_changed := Z.of_nat (List.length files_info);
       rr_diff_size := len diff;
       rr_filtered_diff_size := len filtered_diff |} in
  (* Step 7: save *)
  call (save_review_result env)
       (fun w => with_review_results (review_results w ++ [review_result]) w) ;;;
  save_usages task
    [scout_result; guardian_result; architect_result; stylist_result;
     synthesizer_result] ;;;
  (* Step 8: post the comment *)
  await (github_wait_comment env) ;;;
  comment_id <-
    call (post_pr_comment env)
         (fun w => with_comments
                     (comments w ++
                        [{| c_owner := owner pr_meta; c_repo := repo_name pr_meta;
                            c_pr_number := pr_id pr_meta;
                            c_installation_id := installation_id pr_meta;
                            c_body := output synthesizer_result |}]) w) ;;
  (* Step 9: completed *)
  call (update_completed env)
       (write_status (status_write task "completed" None true comment_id)).

(** The [except] clause of the second [try]. *)
Definition on_failure (task : PRTask) (e : string) : M unit :=
  call (update_failed env)
       (write_status (status_write task "failed" (Some e) false None)) ;;;
  if retry_count task >=? Settings.max_retries settings then
    enqueue_dlq model_dump_json (lpush_dlq env) (utcnow env) task e
  else
    let task := bump_retry_count task in
    sleep (Settings.retry_delay settings * retry_count task) ;;;
    _ <- enqueue model_dump_json (lpush_queue env) task ;;
    ret tt.

(** The first [try]: [False] stands for the [return] of its [except]
    clause. *)
Definition open_review (task : PRTask) : M bool :=
  try_except
    (call (create_pr_review env)
          (write_status (status_write task "pending" None false None)) ;;;
     call (update_processing env)
          (write_status (status_write task "processing" None false None)) ;;;
     ret true)
    (fun _ => ret false).

Definition process_task (task : PRTask) : M unit :=
  opened <- open_review task ;;
  if opened then try_except (review task) (on_failure task) else ret tt.

End ProcessTask.

End Orchestrator.

(** ** Notions for the properties of: the diff parser *)

Module DiffParserNotions.
Import Str DiffParser.

(** The test of [filter_noise] on one entry. *)
Definition kept (f : DiffFile) : bool := negb (is_noise_file (effective_path f)).

(** What the loop keeps true of a group of lines it has put together:
    it is not empty, and it fits unless it is one line alone. *)
Definition packed (max_size : Z) (g : list string) : Prop :=
  g <> [] /\ (lines_size g <= max_size \/ exists l, g = [l]).

(** What a finished chunk satisfies. *)
Definition chunk_bound (max_size : Z) (g : list string) : Prop :=
  g <> [] /\
  (len (join_lines g) <= max_size \/ exists l, g = [l] /\ max_size < len l).

(** What one line adds to the counters of the current file. *)
Definition added_by (line : string) : Z :=
  Z.b2z (is_added_line line) + hunk_added_line line.
Definition removed_by (line : string) : Z :=
  Z.b2z (is_removed_line line) + hunk_removed_line line.

(** The mutation of the current file by a line that opens no file. *)
Definition mutation (line : string) : DiffFile -> DiffFile :=
  if startswith line "index " then (fun f => f)
  else if startswith line "Binary files" then set_is_binary
  else if startswith line "new file mode" then (fun f => f)
  else if startswith line "deleted file mode" then set_is_deleted
  else if startswith line "@@" then hunk_counts line
  else content_counts line.

(** No line holds a newline. *)
Definition newline_free (ls : list string) : Prop :=
  Forall (fun l => has_nl l = false) ls.

(** The counters hold what the lines [ls] add. *)
Definition counted (ls : list string) (f : DiffFile) : Prop :=
  added_lines f = sum_over added_by ls /\
  removed_lines f = sum_over removed_by ls.

(** The dictionary is finished: its content is the join of the lines it
    was counted from. *)
Definition recorded (f : DiffFile) : Prop :=
  exists ls,
    ls <> [] /\ newline_free ls /\ content f = join_lines ls /\ counted ls f.

(** The dictionary has a non-empty ['old_path']. *)
Definition named (f : DiffFile) : Prop :=
  exists c s, old_path f = Some (String c s).

(** The invariant of the loop of [parse_diff]: every dictionary is
    named, every dictionary but the current one is finished, and the
    current one is counted from [current_lines]. *)
Record parse_inv (st : parse_state) : Prop := {
  inv_named : Forall named (heap st);
  inv_others : forall i f,
    nth_error (heap st) i = Some f -> current_file st <> Some i -> recorded f;
  inv_current : forall r,
    current_file st = Some r ->
    exists f,
      nth_error (heap st) r = Some f /\
      counted (current_lines st) f /\
      current_lines st <> [] /\
      newline_free (current_lines st)
}.

(** Every character is a decimal digit. *)
Fixpoint all_digits (d : string) : bool :=
  match d with
  | EmptyString => true
  | String c d' => is_digit c && all_digits d'
  end.

(** A one-line change to [f.txt]. *)
Definition one_line_change : string :=
  ("diff --git a/f.txt b/f.txt" ++ nl_s
   ++ "index 1234567..89abcde 100644" ++ nl_s
   ++ "--- a/f.txt" ++ nl_s
   ++ "+++ b/f.txt" ++ nl_s
   ++ "@@ -1 +1 @@" ++ nl_s
   ++ "-old" ++ nl_s
   ++ "+new")%string.

(** A new file [g.txt] with one line. *)
Definition one_new_file : string :=
  ("diff --git a/g.txt b/g.txt" ++ nl_s
   ++ "new file mode 100644" ++ nl_s
   ++ "index 0000000..89abcde" ++ nl_s
   ++ "--- /dev/null" ++ nl_s
   ++ "+++ b/g.txt" ++ nl_s
   ++ "@@ -0,0 +1 @@" ++ nl_s
   ++ "+hello")%string.

End DiffParserNotions.

(** ** Notions for the properties of: the analysis stages *)

Module AgentsNotions.
Import Str Models Exc Agents.

(** What a stage returns when it degrades: the error text is recorded
    and the output is the stage's fallback. *)
Definition degraded (fallback : string) (r : AgentResult) : Prop :=
  forall msg, error r = Some msg -> output r = fallback.

(** A context with no key set. *)
Definition no_context : Context :=
  {| ctx_repository := None; ctx_pr_id := None; ctx_files := None;
     ctx_language := None; ctx_pr_title := None; ctx_files_changed := None |}.

End AgentsNotions.

(** ** Notions for the properties of: the synthesizer's fallback *)

Module SynthesizerNotions.
Import Str Models Exc Agents Synthesizer.

(** The section the fallback writes for one review. *)
Definition review_section (title : string) (r : option AgentResult) : string :=
  match r with
  | Some a =>
      if succeeded r then (title ++ nl_s ++ output a ++ nl_s ++ nl_s)%string
      else EmptyString
  | None => EmptyString
  end.

(** The first part of every fallback. *)
Definition header : string := ("## Code Review Summary" ++ nl_s ++ nl_s)%string.

(** Guardian failed with a time-out; Architect and Stylist answered. *)
Definition failed_guardian : AgentResult :=
  {| agent_name := "guardian";
     output := "Security analysis failed. Please review manually.";
     tokens_used := 0; model_used := "claude-3-5-sonnet-20241022";
     processing_time := 30%Q; error := Some "Request timed out." |}.

(** Guardian failed with an exception that has no text, as
    [asyncio.TimeoutError()] has none: [str(e)] is empty. *)
Definition silent_guardian : AgentResult :=
  {| agent_name := "guardian";
     output := "Security analysis failed. Please review manually.";
     tokens_used := 0; model_used := "claude-3-5-sonnet-20241022";
     processing_time := (30 - 0)%Q; error := Some EmptyString |}.

Definition good_architect : AgentResult :=
  {| agent_name := "architect"; output := "Extract the retry loop.";
     tokens_used := 120; model_used := "gpt-4o";
     processing_time := 2%Q; error := None |}.

Definition good_stylist : AgentResult :=
  {| agent_name := "stylist"; output := "Rename tmp.";
     tokens_used := 80; model_used := "gpt-4o-mini";
     processing_time := 1%Q; error := None |}.

End SynthesizerNotions.

(** ** Notions for the properties of: the work queue *)

Module QueueNotions.
Import Models Exc Stores Queue.

(** A queue holding a valid payload on the left of one that is not JSON. *)
Definition no_parse : string -> result PRTask :=
  fun _ => Raise "Expecting value: line 1 column 1 (char 0)".

Definition queue_with_garbage : World :=
  {| pr_review_queue := ["{}"; "not json"]; pr_review_dlq := [];
     pr_reviews := []; review_results := []; api_usage := [];
     comments := []; sleeps := [] |}.

End QueueNotions.

(** ** Notions for the properties of: the pipeline's failure policy *)

Module OrchestratorNotions.
Import Str Models Exc Stores Agents Queue Orchestrator.

(** The row written when processing fails with [e]. *)
Definition failed_write (task : PRTask) (e : string) : StatusWrite :=
  status_write task "failed" (Some e) false None.

(** The entry [enqueue_dlq] pushes for [task] and [e]. *)
Definition dead_letter (model_dump_json : PRTask -> string) (env : Env)
    (task : PRTask) (e : string) : DlqEntry :=
  {| dlq_task := model_dump_json task; dlq_error := e;
     dlq_failed_at := utcnow env |}.

(** A reply without its value. *)
Definition forget {A} (r : result A) : result unit :=
  match r with
  | Ok _ => Ok tt
  | Raise e => Raise e
  end.

(** The replies [review] waits for, in the order it asks for them. The
    stages are not among them: they never raise. *)
Definition review_steps (env : Env) : list (result unit) := [
  github_wait_diff env;
  forget (get_pr_diff env);
  openai_wait_scout env;
  reviewers_wait env;
  openai_wait_synthesizer env;
  forget (get_pr_details env);
  save_review_result env;
  save_api_usage env "scout";
  save_api_usage env "guardian";
  save_api_usage env "architect";
  save_api_usage env "stylist";
  save_api_usage env "synthesizer";
  github_wait_comment env;
  forget (post_pr_comment env);
  update_completed env
].

(** The text of the first reply that raised. *)
Fixpoint first_failure (steps : list (result unit)) : option string :=
  match steps with
  | [] => None
  | Ok _ :: rest => first_failure rest
  | Raise e :: _ => Some e
  end.

(** Pull request 42 of acme/widgets, after [retries] retries. *)
Definition widget_task (retries : Z) : PRTask :=
  {| pr_metadata :=
       {| pr_id := 42; repository := "acme/widgets"; owner := "acme";
          repo_name := "widgets"; title := "Add retry"; author := "dev";
          base_branch := "main"; head_branch := "retry"; head_sha := "abc123";
          installation_id := 7; webhook_delivery_id := None |};
     queued_at := "2024-05-01T10:00:00";
     retry_count := retries |}.

(** A stand-in for [model_dump_json] on [widget_task]. *)
Definition show_task (t : PRTask) : string :=
  ("acme/widgets#42 retry " ++ DiffParser.str_of_int (retry_count t))%string.

(** Nothing queued, nothing written. *)
Definition empty_world : World :=
  {| pr_review_queue := []; pr_review_dlq := []; pr_reviews := [];
     review_results := []; api_usage := []; comments := []; sleeps := [] |}.

(** Every collaborator answers, except that the diff cannot be fetched
    and Redis and PostgreSQL answer as given. *)
Definition fetch_fails (create : result unit) (push : redis_reply) : Env :=
  {| create_pr_review := create; update_processing := Ok tt;
     save_review_result := Ok tt; save_api_usage := fun _ => Ok tt;
     update_completed := Ok tt; update_failed := Ok tt;
     get_pr_diff := Raise "502 Bad Gateway";
     get_pr_details := Ok (Some "Add retry");
     post_pr_comment := Ok (Some 1001);
     github_wait_diff := Ok tt; openai_wait_scout := Ok tt;
     reviewers_wait := Ok tt; openai_wait_synthesizer := Ok tt;
     github_wait_comment := Ok tt;
     openai := fun _ => Raise "Request timed out.";
     anthropic := fun _ => Raise "Request timed out.";
     validation_error := "1 validation error for AgentResult";
     clock := fun _ => (0%Q, 1%Q);
     lpush_queue := push; lpush_dlq := push;
     utcnow := "2024-05-01T10:00:30" |}.

(** Every collaborator answers; the providers answer with a fixed text
    and a count of 100 tokens. *)
Definition all_answer : Env :=
  {| create_pr_review := Ok tt; update_processing := Ok tt;
     save_review_result := Ok tt; save_api_usage := fun _ => Ok tt;
     update_completed := Ok tt; update_failed := Ok tt;
     get_pr_diff := Ok DiffParserNotions.one_line_change;
     get_pr_details := Ok (Some "Add retry");
     post_pr_comment := Ok (Some 1001);
     github_wait_diff := Ok tt; openai_wait_scout := Ok tt;
     reviewers_wait := Ok tt; openai_wait_synthesizer := Ok tt;
     github_wait_comment := Ok tt;
     openai := fun _ => Ok {| choices := [Some "Looks fine."]; usage := Some 100 |};
     anthropic := fun _ => Ok {| content := ["No issues found."] |};
     validation_error := "1 validation error for AgentResult";
     clock := fun _ => (0%Q, 1%Q);
     lpush_queue := Served; lpush_dlq := Served;
     utcnow := "2024-05-01T10:00:30" |}.

(** The payloads [show_task] writes, read back. *)
Definition read_task (payload : string) : result PRTask :=
  if String.prefix "acme/widgets#42 retry " payload
  then Ok (widget_task (int_of_digits (drop 22 payload)))
  else Raise "Expecting value: line 1 column 1 (char 0)".

(** [rounds] turns of the worker, one task at a time, while the diff
    cannot be fetched. *)
Fixpoint work (rounds : nat) (w : World) : World :=
  match rounds with
  | O => w
  | S n =>
      match dequeue read_task Served w with
      | (w1, Ok (Some task)) =>
          work n (fst (process_task Settings.defaults show_task
                         (fetch_fails (Ok tt) Served) task w1))
      | (w1, _) => w1
      end
  end.

End OrchestratorNotions.

(** ** Runs of the work queue *)

Module QueueRuns.
Import Models Exc Stores Queue.

Section Runs.
Variable model_dump_json : PRTask -> string.
Variable parse_task : string -> result PRTask.

(** [enqueue] each task in turn, Redis serving every push. *)
Definition enqueue_all (tasks : list PRTask) (w : World) : World :=
  fold_left (fun w task => fst (enqueue model_dump_json Served task w)) tasks w.

(** [n] calls of [dequeue], Redis serving every pop: what each call
    returned, and the world left. *)
Fixpoint dequeue_times (n : nat) (w : World) : list (result (option PRTask)) * World :=
  match n with
  | O => ([], w)
  | S n' =>
      let '(w1, r) := dequeue parse_task Served w in
      let '(rs, w2) := dequeue_times n' w1 in
      (r :: rs, w2)
  end.

End Runs.

End QueueRuns.

(** ** Notions for the properties of: what the stages hand on *)

Module StagesNotions.
Import Models Exc Agents.

(** The answer of a chat provider when it is usable: the text of the
    first choice and the token count. *)
Definition usable (response : ChatCompletion) : option (string * Z) :=
  match choices response, usage response with
  | Some text :: _, Some n => Some (text, n)
  | _, _ => None
  end.

End StagesNotions.

(** ** Notions for the properties of: language detection *)

Module LanguageNotions.
Import Str Orchestrator.

(** The lower-cased extensions of the files that have one, in order. *)
Definition extensions_of (files_info : list DiffParser.DiffFile) : list string :=
  flat_map
    (fun file_info =>
       match extension (DiffParser.effective_path file_info) with
       | Some ext => [lower ext]
       | None => []
       end)
    files_info.

(** How many files have the extension [ext]. *)
Definition occurrences (ext : string) (files_info : list DiffParser.DiffFile) : Z :=
  Z.of_nat (List.length (filter (String.eqb ext) (extensions_of files_info))).

(** The counter [extensions] after the loop over the extensions [exts]. *)
Definition counted_extensions (exts : list string) (start : list (string * Z))
    : list (string * Z) :=
  fold_left (fun extensions ext => count_extension ext extensions) exts start.

(** The keys of the counter are distinct and its counts positive. *)
Definition tidy (c : list (string * Z)) : Prop :=
  NoDup (map fst c) /\ Forall (fun item => 0 < snd item) c.

End LanguageNotions.

(** ** Notions for the properties of: re-parsing what [parse_diff] recorded *)

Module ReparseNotions.
Import Str DiffParser DiffParserNotions.

(** The dictionary a matching [diff --git] line creates. *)
Definition fresh (op np : string) : DiffFile :=
  {| old_path := Some op; new_path := Some np; content := EmptyString;
     added_lines := 0; removed_lines := 0;
     is_binary := false; is_deleted := false |}.

(** The mutations of the lines [body], in order. *)
Definition mutate_all (body : list string) (f : DiffFile) : DiffFile :=
  fold_left (fun f line => mutation line f) body f.

(** A segment of a diff: one line that opens a file, then lines that
    open none. *)
Definition segment (header : string) (body : list string) : Prop :=
  has_nl header = false /\
  newline_free body /\
  Forall (fun l => startswith l "diff --git" = false) body.

(** [f] is the dictionary of the segment: created by the header, mutated
    by the body, with the whole segment as content. *)
Definition built (header : string) (body : list string) (f : DiffFile) : Prop :=
  exists op np,
    match_file_header header = Some (op, np) /\
    f = set_content (join_lines (header :: body)) (mutate_all body (fresh op np)).

Definition canonical (f : DiffFile) : Prop :=
  exists header body, segment header body /\ built header body f.

(** The invariant of the loop of [parse_diff] that ties each dictionary
    to its segment: the current one up to its content, the others
    entirely. *)
Record reparse_inv (st : parse_state) : Prop := {
  inv_closed : forall i f,
    nth_error (heap st) i = Some f -> current_file st <> Some i -> canonical f;
  inv_open : forall r,
    current_file st = Some r ->
    exists header body op np c,
      current_lines st = header :: body /\
      segment header body /\
      match_file_header header = Some (op, np) /\
      nth_error (heap st) r = Some (set_content c (mutate_all body (fresh op np)))
}.

(** The state of the loop inside a segment when every earlier
    dictionary was appended once. *)
Definition at_segment (closed : list DiffFile) (cur : DiffFile) (lines : list string)
    : parse_state :=
  {| heap := closed ++ [cur];
     files := seq 0 (List.length closed);
     current_file := Some (List.length closed);
     current_lines := lines |}.

(** The lines of a segment. *)
Definition segment_lines (s : string * list string) : list string := fst s :: snd s.

(** [s] is a segment and [f] its dictionary. *)
Definition segment_of (s : string * list string) (f : DiffFile) : Prop :=
  segment (fst s) (snd s) /\ built (fst s) (snd s) f.

(** What [parse_diff] returns when the loop ends in [st]. *)
Definition returned_files (st : parse_state) : list DiffFile :=
  deref (heap (close_current st)) (files (close_current st)).

(** The first dictionary [parse_diff] returns for [one_line_change]. *)
Definition change_of_f_txt : DiffFile :=
  hd (fresh "f.txt" "f.txt") (parse_diff one_line_change).

(** What precedes the diff in a mailed patch. *)
Definition mail_header : string :=
  ("From: A Developer <dev@example.org>" ++ nl_s
   ++ "Subject: [PATCH] change f.txt" ++ nl_s
   ++ "---")%string.

(** The literal of a pattern occurs in the lower-cased path, at its end
    (or before a newline that ends it) when the pattern ends in [$]. *)
Definition occurs (p : noise_pattern) (filepath : string) : Prop :=
  exists lit before after,
    In lit (alternatives p) /\
    lower filepath = (before ++ lower lit ++ after)%string /\
    (at_end p = true -> after = EmptyString \/ after = nl_s).

(** The line opens a file: the header expression matches it. *)
Definition opens (line : string) : bool :=
  match match_file_header line with
  | Some _ => true
  | None => false
  end.

(** A line that starts like a file header is one. *)
Definition sound_line (line : string) : bool :=
  negb (startswith line "diff --git") || opens line.

(** The text starts with a file header, and every line that starts with
    [diff --git] is a file header. *)
Definition well_headed (diff_text : string) : bool :=
  match split_lines diff_text with
  | header :: rest => opens header && forallb sound_line rest
  | [] => false
  end.

(** A diff of two files, the second an image. *)
Definition two_files : string :=
  (one_line_change ++ nl_s
   ++ "diff --git a/logo.png b/logo.png" ++ nl_s
   ++ "Binary files a/logo.png and b/logo.png differ")%string.

End ReparseNotions.

(** ** [api/webhook.py] *)

Module Webhook.
Import Str Models Stores.

(** The values [json.loads] builds; a number is kept as its text. An
    object lists its members, each key once. *)
#[warnings="-register-all"] Inductive JSON :=
| JNull
| JBool (b : bool)
| JNumber (text : string)
| JString (s : string)
| JArray (items : list JSON)
| JObject (members : list (string * JSON)).

(** The exceptions the handler tells apart; every one of them is an
    [Exception]. *)
Inductive exn :=
| HTTPException (status_code : Z) (detail : string)
| JSONDecodeError
| OtherException.

Inductive outcome (A : Type) : Type :=
| Return (a : A)
| Throw (e : exn).
Arguments Return {A} a.
Arguments Throw {A} e.

Definition and_then {A B} (o : outcome A) (k : A -> outcome B) : outcome B :=
  match o with
  | Return a => k a
  | Throw e => Throw e
  end.

(** [d.get(key, default)] on a decoded value: only a [dict] has [get],
    anything else raises [AttributeError]. *)
Fixpoint lookup (key : string) (members : list (string * JSON)) : option JSON :=
  match members with
  | [] => None
  | (k, v) :: rest => if String.eqb k key then Some v else lookup key rest
  end.

Definition get (key : string) (default : JSON) (d : JSON) : outcome JSON :=
  match d with
  | JObject members =>
      Return (match lookup key members with Some v => v | None => default end)
  | _ => Throw OtherException
  end.

(** Every character is ASCII. *)
Fixpoint is_ascii (s : string) : bool :=
  match s with
  | EmptyString => true
  | String c s' => (nat_of_ascii c <? 128)%nat && is_ascii s'
  end.

(** [hmac.compare_digest(a, b)] on two [str]: [TypeError] unless both
    are ASCII. *)
Definition compare_digest (a b : string) : outcome bool :=
  if is_ascii a && is_ascii b then Return (String.eqb a b)
  else Throw OtherException.

(** The request as the handler reads it: the raw body and the value of
    the header [X-Hub-Signature-256] when it was sent. *)
Record Request := {
  body : string;
  hub_signature_256 : option string
}.

(** The dictionary the handler returns; ["pr_id"] is present in one of
    the answers only. *)
Record Response := {
  status : string;
  message : string;
  response_pr_id : option string
}.

(** The arguments of the [PRMetadata] constructor, as decoded. *)
Record RawMetadata := {
  raw_pr_id : JSON;
  raw_repository : JSON;
  raw_owner : JSON;
  raw_repo_name : JSON;
  raw_title : JSON;
  raw_author : JSON;
  raw_base_branch : JSON;
  raw_head_branch : JSON;
  raw_head_sha : JSON;
  raw_installation_id : JSON;
  raw_webhook_delivery_id : string
}.

(** A coroutine of the API process. *)
Definition H (A : Type) : Type := World -> World * outcome A.

Definition ret {A} (a : A) : H A := fun w => (w, Return a).
Definition throw {A} (e : exn) : H A := fun w => (w, Throw e).
Definition lift {A} (o : outcome A) : H A := fun w => (w, o).

Definition bind {A B} (m : H A) (k : A -> H B) : H B :=
  fun w =>
    match m w with
    | (w', Return a) => k a w'
    | (w', Throw e) => (w', Throw e)
    end.

(** A coroutine of the queue, awaited. *)
Definition await {A} (m : M A) : H A :=
  fun w =>
    match m w with
    | (w', Exc.Ok a) => (w', Return a)
    | (w', Exc.Raise _) => (w', Throw OtherException)
    end.

(** [try: body  except json.JSONDecodeError: on_json  except Exception: on_exception] *)
Definition try_except {A} (body on_json on_exception : H A) : H A :=
  fun w =>
    match body w with
    | (w', Return a) => (w', Return a)
    | (w', Throw JSONDecodeError) => on_json w'
    | (w', Throw _) => on_exception w'
    end.

Section Handler.
(** [settings.github_webhook_secret]. *)
Variable github_webhook_secret : string.
(** [hmac.new(secret.encode('utf-8'), payload, hashlib.sha256).hexdigest()] *)
Variable hmac_hexdigest : string -> string -> string.
(** [json.loads(body.decode('utf-8'))] *)
Variable loads : string -> outcome JSON.
(** [str(v)] of a decoded value, as an f-string formats it. *)
Variable str_of : JSON -> string.
(** The validation of the [PRMetadata] constructor: [None] when it
    raises [ValidationError]. *)
Variable validate : RawMetadata -> option PRMetadata.
(** [task.model_dump_json()], the answer of Redis to the push, and the
    reading of [datetime.utcnow] that dates the task. *)
Variable model_dump_json : PRTask -> string.
Variable reply : Queue.redis_reply.
Variable utcnow : string.

Definition verify_webhook_signature (payload signature : string) : outcome bool :=
  if negb (truthy signature) then Return false
  else if negb (startswith signature "sha256=") then Return false
  else
    let expected_signature := drop 7 signature in
    let computed_hash := hmac_hexdigest github_webhook_secret payload in
    compare_digest computed_hash expected_signature.

(** [action in ["opened", "synchronize"]] *)
Definition opened_or_synchronize (action : JSON) : bool :=
  match action with
  | JString s => String.eqb s "opened" || String.eqb s "synchronize"
  | _ => false
  end.

(** The construction of [pr_metadata]: the arguments are evaluated from
    left to right, then validated. *)
Definition extract_metadata (payload : JSON) (x_github_delivery : string)
    : outcome PRMetadata :=
  and_then (get "pull_request" (JObject []) payload) (fun pr_data =>
  and_then (get "repository" (JObject []) payload) (fun repository =>
  and_then (get "installation" (JObject []) payload) (fun installation =>
  and_then (get "number" JNull pr_data) (fun number =>
  and_then (get "full_name" JNull repository) (fun full_name =>
  and_then (and_then (get "owner" (JObject []) repository) (get "login" JNull))
    (fun owner =>
  and_then (get "name" JNull repository) (fun name =>
  and_then (get "title" JNull pr_data) (fun title =>
  and_then (and_then (get "user" (JObject []) pr_data) (get "login" JNull))
    (fun author =>
  and_then (and_then (get "base" (JObject []) pr_data) (get "ref" JNull))
    (fun base_branch =>
  and_then (and_then (get "head" (JObject []) pr_data) (get "ref" JNull))
    (fun head_branch =>
  and_then (and_then (get "head" (JObject []) pr_data) (get "sha" JNull))
    (fun head_sha =>
  and_then (get "id" JNull installation) (fun installation_id =>
  match validate
          {| raw_pr_id := number; raw_repository := full_name;
             raw_owner := owner; raw_repo_name := name; raw_title := title;
             raw_author := author; raw_base_branch := base_branch;
             raw_head_branch := head_branch; raw_head_sha := head_sha;
             raw_installation_id := installation_id;
             raw_webhook_delivery_id := x_github_delivery |} with
  | Some pr_metadata => Return pr_metadata
  | None => Throw OtherException
  end))))))))))))).

Definition handle_webhook (request : Request)
    (x_github_event x_github_delivery : string) : H Response :=
  try_except
    (let x_hub_signature_256 :=
       match hub_signature_256 request with
       | Some v => v
       | None => EmptyString
       end in
     bind (lift (verify_webhook_signature (body request) x_hub_signature_256))
       (fun valid =>
     if negb valid then throw (HTTPException 401 "Invalid signature")
     else
     bind (lift (loads (body request))) (fun payload =>
     let event_type := x_github_event in
     if String.eqb event_type "pull_request" then
       bind (lift (get "action" JNull payload)) (fun action =>
       if opened_or_synchronize action then
         bind (lift (extract_metadata payload x_github_delivery))
           (fun pr_metadata =>
         let task := {| pr_metadata := pr_metadata;
                        queued_at := utcnow;
                        retry_count := 0 |} in
         bind (await (Queue.enqueue model_dump_json reply task)) (fun success =>
         if success : bool then
           ret {| status := "queued";
                  message := ("PR #" ++ DiffParser.str_of_int (pr_id pr_metadata)
                              ++ " queued for review")%string;
                  response_pr_id :=
                    Some (DiffParser.str_of_int (pr_id pr_metadata)) |}
         else throw (HTTPException 500 "Failed to queue PR for review")))
       else
         ret {| status := "ignored";
                message := ("Action '" ++ str_of action ++ "' not processed")%string;
                response_pr_id := None |})
     else if String.eqb event_type "ping" then
       ret {| status := "ok"; message := "Webhook is working";
              response_pr_id := None |}
     else
       ret {| status := "ignored";
              message := ("Event type '" ++ event_type ++ "' not handled")%string;
              response_pr_id := None |})))
    (throw (HTTPException 400 "Invalid JSON payload"))
    (throw (HTTPException 500 "Internal server error")).

End Handler.

End Webhook.

(** ** Notions for the properties of: the webhook *)

Module WebhookNotions.
Import Str Models Stores Webhook.

(** A keyed digest that is good enough to run the handler on: the key,
    a colon, the payload. *)
Definition toy_digest (secret payload : string) : string :=
  (secret ++ ":" ++ payload)%string.

(** A decoder that knows one body. *)
Definition opened_event : JSON :=
  JObject [("action", JString "opened");
           ("pull_request", JObject [("number", JNumber "7")]);
           ("repository", JObject [("full_name", JString "acme/widget")])].

Definition toy_loads (body : string) : outcome JSON :=
  if String.eqb body "opened" then Return opened_event else Throw JSONDecodeError.

Definition toy_str_of (v : JSON) : string :=
  match v with
  | JString s => s
  | _ => "None"
  end.

Definition toy_validate (raw : RawMetadata) : option PRMetadata :=
  match raw_repository raw with
  | JString r =>
      Some {| pr_id := 7; repository := r; owner := "acme"; repo_name := "widget";
              title := "t"; author := "a"; base_branch := "main";
              head_branch := "topic"; head_sha := "0f"; installation_id := 1;
              webhook_delivery_id := Some (raw_webhook_delivery_id raw) |}
  | _ => None
  end.

(** A request that carries no signature. *)
Definition unsigned_request : Request :=
  {| body := "opened"; hub_signature_256 := None |}.

(** The same request, signed. *)
Definition signed_request : Request :=
  {| body := "opened"; hub_signature_256 := Some "sha256=s3cret:opened" |}.

Definition quiet_world : World :=
  {| pr_review_queue := []; pr_review_dlq := []; pr_reviews := [];
     review_results := []; api_usage := []; comments := []; sleeps := [] |}.

End WebhookNotions.

(** * Properties *)

Module StrFacts.
Import Str.

Lemma len_nonneg s : 0 <= len s.
Proof. unfold len. lia. Qed.

Lemma len_append s t : len (s ++ t)%string = len s + len t.
Proof.
  unfold len. induction s as [|c s IH]; simpl String.length.
  - lia.
  - simpl in IH. lia.
Qed.

Lemma append_nil_r s : (s ++ EmptyString)%string = s.
Proof. induction s as [|c s IH]; simpl; [reflexivity | now rewrite IH]. Qed.

Lemma append_assoc s t u : ((s ++ t) ++ u)%string = (s ++ t ++ u)%string.
Proof. induction s as [|c s IH]; simpl; [reflexivity | now rewrite IH]. Qed.

Lemma split_lines_nonempty s : split_lines s <> [].
Proof.
  destruct s as [|c s]; simpl; [discriminate|].
  destruct (Ascii.eqb c nl); [discriminate|].
  destruct (split_lines s); discriminate.
Qed.

(** Joining the lines of a text with newlines gives the text back. *)
Lemma join_split_lines s : join_lines (split_lines s) = s.
Proof.
  induction s as [|c s IH]; [reflexivity|].
  simpl split_lines.
  destruct (Ascii.eqb_spec c nl) as [->|Hc].
  - pose proof (split_lines_nonempty s) as Hne.
    destruct (split_lines s) as [|h t] eqn:E; [congruence|].
    change (join_lines (EmptyString :: h :: t))
      with (EmptyString ++ nl_s ++ join_lines (h :: t))%string.
    rewrite IH. reflexivity.
  - pose proof (split_lines_nonempty s) as Hne.
    destruct (split_lines s) as [|h t] eqn:E; [congruence|].
    destruct t as [|h' t'].
    + simpl in *. now rewrite IH.
    + change (join_lines (String c h :: h' :: t'))
        with (String c (h ++ nl_s ++ join_lines (h' :: t'))%string).
      change (join_lines (h :: h' :: t'))
        with (h ++ nl_s ++ join_lines (h' :: t'))%string in IH.
      now rewrite IH.
Qed.

(** The length of a newline-join is the total line size less one. *)
Lemma len_join_lines ls : ls <> [] -> len (join_lines ls) = lines_size ls - 1.
Proof.
  induction ls as [|l rest IH]; [congruence|]. intros _.
  destruct rest as [|l' rest'].
  - simpl. lia.
  - change (join_lines (l :: l' :: rest'))
      with (l ++ nl_s ++ join_lines (l' :: rest'))%string.
    rewrite !len_append, IH by discriminate.
    change (lines_size (l :: l' :: rest'))
      with (len l + 1 + lines_size (l' :: rest')).
    change (len nl_s) with 1. lia.
Qed.

Lemma lines_size_app a b : lines_size (a ++ b) = lines_size a + lines_size b.
Proof. induction a as [|x a IH]; simpl; lia. Qed.

Lemma sum_over_app g a b : sum_over g (a ++ b) = sum_over g a + sum_over g b.
Proof. induction a as [|x a IH]; simpl; lia. Qed.

(** The lines of a text hold no newline. *)
Lemma split_lines_no_nl s : Forall (fun l => has_nl l = false) (split_lines s).
Proof.
  induction s as [|c s IH]; simpl.
  - repeat constructor.
  - destruct (Ascii.eqb c nl) eqn:E.
    + constructor; [reflexivity | exact IH].
    + destruct (split_lines s) as [|h t]; [repeat constructor; simpl; now rewrite E|].
      inversion IH as [|? ? Hh Ht]; subst.
      constructor; [simpl; now rewrite E, Hh | exact Ht].
Qed.

Lemma split_lines_single l : has_nl l = false -> split_lines l = [l].
Proof.
  induction l as [|c l IH]; simpl; [reflexivity|].
  intros H. apply orb_false_iff in H as [Hc Hl].
  now rewrite Hc, (IH Hl).
Qed.

Lemma split_lines_cons l rest :
  has_nl l = false ->
  split_lines (l ++ nl_s ++ rest)%string = l :: split_lines rest.
Proof.
  induction l as [|c l IH].
  - intros _. reflexivity.
  - intros H. cbn [has_nl] in H. apply orb_false_iff in H as [Hc Hl].
    change (String c l ++ nl_s ++ rest)%string
      with (String c (l ++ nl_s ++ rest))%string.
    cbn [split_lines]. now rewrite Hc, (IH Hl).
Qed.

(** Splitting a newline-join of newline-free lines gives the lines back. *)
Lemma split_join_lines ls :
  ls <> [] -> Forall (fun l => has_nl l = false) ls ->
  split_lines (join_lines ls) = ls.
Proof.
  induction ls as [|l rest IH]; [congruence|]. intros _ Hall.
  inversion Hall as [|? ? Hl Hrest]; subst.
  destruct rest as [|l' rest'].
  - simpl. now apply split_lines_single.
  - change (join_lines (l :: l' :: rest'))
      with (l ++ nl_s ++ join_lines (l' :: rest'))%string.
    rewrite split_lines_cons by assumption.
    now rewrite IH by (auto; discriminate).
Qed.

(** A string with a non-empty prefix starts with the prefix's first
    character. *)
Lemma prefix_first a p l :
  String.prefix (String a p) l = true -> exists l', l = String a l'.
Proof.
  destruct l as [|c l]; simpl; [discriminate|].
  destruct (Ascii.ascii_dec a c) as [->|]; [|discriminate].
  intros _. now exists l.
Qed.

End StrFacts.

(** ** The diff parser *)

Module DiffParserFacts.
Import Str StrFacts DiffParser DiffParserNotions.

(** *** [filter_noise] *)

Lemma filter_noise_loop (fs : list DiffFile) : forall filtered,
  fold_left
    (fun filtered file_info =>
       if negb (is_noise_file (effective_path file_info))
       then filtered ++ [file_info] else filtered)
    fs filtered
  = filtered ++ filter kept fs.
Proof.
  induction fs as [|f fs IH]; intros filtered; simpl.
  - now rewrite app_nil_r.
  - rewrite IH. unfold kept at 2.
    destruct (negb (is_noise_file (effective_path f))); [|reflexivity].
    now rewrite <- app_assoc.
Qed.

Lemma filter_noise_filter fs : filter_noise fs = filter kept fs.
Proof. unfold filter_noise. now rewrite filter_noise_loop. Qed.

Lemma filter_idem {A} (p : A -> bool) l : filter p (filter p l) = filter p l.
Proof.
  induction l as [|x l IH]; [reflexivity|]. simpl.
  destruct (p x) eqn:E; simpl; [rewrite E, IH|]; auto.
Qed.

(** *** [chunk_large_file] *)

Lemma packed_chunk_bound max_size g :
  packed max_size g -> chunk_bound max_size g.
Proof.
  intros [Hne [Hfit | [l ->]]]; split; auto.
  - left. rewrite len_join_lines by assumption. lia.
  - simpl. destruct (Z_le_gt_dec (len l) max_size); [left; lia|].
    right. exists l. split; [reflexivity | lia].
Qed.

Lemma chunk_loop max_size lines : forall chunks cur size groups seen,
  chunks = map join_lines groups ->
  (concat groups ++ cur)%list = seen ->
  Forall (packed max_size) groups ->
  size = lines_size cur ->
  (cur = [] \/ packed max_size cur) ->
  exists groups' cur' size',
    fold_left (chunk_line max_size) lines (chunks, cur, size)
      = (map join_lines groups', cur', size') /\
    (concat groups' ++ cur')%list = (seen ++ lines)%list /\
    Forall (packed max_size) groups' /\
    (cur' = [] \/ packed max_size cur').
Proof.
  induction lines as [|line lines IH]; intros chunks cur size groups seen Hc Hs Hg Hsz Hcur.
  - exists groups, cur, size. simpl. rewrite app_nil_r. subst. auto.
  - cbn [fold_left].
    assert (Hstep : chunk_line max_size (chunks, cur, size) line =
              if (size + (len line + 1) >? max_size)
                 && match cur with [] => false | _ => true end
              then ((chunks ++ [join_lines cur])%list, [line], len line + 1)
              else (chunks, (cur ++ [line])%list, size + (len line + 1)))
      by reflexivity.
    rewrite Hstep. clear Hstep.
    destruct ((size + (len line + 1) >? max_size)
              && match cur with [] => false | _ => true end) eqn:E.
    + apply andb_true_iff in E as [_ Hne].
      destruct Hcur as [-> | Hp]; [discriminate|].
      destruct (IH (chunks ++ [join_lines cur])%list [line] (len line + 1)
                  (groups ++ [cur])%list (seen ++ [line])%list)
        as (g' & c' & s' & Hf & Hcat & Hall & Hc').
      * subst chunks. now rewrite map_app.
      * rewrite concat_app. simpl. rewrite app_nil_r, <- Hs.
        now rewrite <- app_assoc.
      * apply Forall_app. split; [assumption | now constructor].
      * simpl. lia.
      * right. split; [discriminate | right; now exists line].
      * exists g', c', s'. rewrite Hf, Hcat, <- app_assoc. auto.
    + destruct (IH chunks (cur ++ [line])%list (size + (len line + 1))
                  groups (seen ++ [line])%list)
        as (g' & c' & s' & Hf & Hcat & Hall & Hc'); auto.
      * rewrite <- Hs. now rewrite app_assoc.
      * rewrite lines_size_app. simpl. lia.
      * right. split; [now destruct cur|].
        apply andb_false_iff in E as [E | E].
        -- left. rewrite lines_size_app. simpl.
           rewrite Z.gtb_ltb, Z.ltb_ge in E. lia.
        -- destruct cur; [|discriminate]. right. now exists line.
      * exists g', c', s'. rewrite Hf, Hcat, <- app_assoc. auto.
Qed.

(** Claim C7, as stated, fails: a line longer than [max_size] is a chunk
    of its own, which then exceeds [max_size]. Here the ten-character
    first line becomes a chunk although [max_size] is 5. *)
Lemma chunk_large_file_exceeds_max_size :
  ~ (forall (content : string) (max_size : Z),
        0 < max_size ->
        Forall (fun chunk => len chunk <= max_size)
          (chunk_large_file Settings.defaults content (Some max_size))).
Proof.
  intros H.
  specialize (H ("aaaaaaaaaa" ++ nl_s ++ "b")%string 5 eq_refl).
  vm_compute in H. inversion H as [|? ? Hlen _]. apply Hlen. reflexivity.
Qed.

(** Claim C7 (amended). The chunks of [chunk_large_file] are newline-joins
    of groups of whole input lines: the groups, in order, make up exactly
    the lines of the input, none is empty, and every chunk has length at
    most [max_size] unless it is a single input line that is itself longer
    than [max_size]. *)
Theorem chunk_large_file_whole_lines
    (settings : Settings.Settings) (content : string) (max_size : option Z) :
  let m := match max_size with
           | Some m => m
           | None => Settings.max_file_size settings
           end in
  exists groups : list (list string),
    chunk_large_file settings content max_size = map join_lines groups /\
    concat groups = split_lines content /\
    Forall (chunk_bound m) groups.
Proof.
  intros m. unfold chunk_large_file. fold m. unfold chunk_large_file_with.
  destruct (len content <=? m) eqn:E.
  - apply Z.leb_le in E.
    exists [split_lines content]. simpl.
    rewrite join_split_lines, app_nil_r. repeat split; auto.
    constructor; [|constructor]. split; [apply split_lines_nonempty|].
    left. now rewrite join_split_lines.
  - destruct (chunk_loop m (split_lines content) [] [] 0 [] [])
      as (groups & cur & size & Hf & Hcat & Hall & Hcur); auto.
    rewrite Hf. simpl in Hcat. unfold chunk_finish.
    destruct cur as [|l cur].
    + exists groups. rewrite app_nil_r in Hcat. repeat split; auto.
      eapply Forall_impl; [|exact Hall]. apply packed_chunk_bound.
    + exists (groups ++ [l :: cur])%list.
      rewrite map_app, concat_app. simpl. rewrite app_nil_r.
      repeat split; auto.
      apply Forall_app. split.
      * eapply Forall_impl; [|exact Hall]. apply packed_chunk_bound.
      * constructor; [|constructor]. apply packed_chunk_bound.
        destruct Hcur as [Hcur | Hcur]; [discriminate | exact Hcur].
Qed.

(** Claim C8. [filter_noise] keeps exactly the entries whose effective
    path (the new path, else the old one) is not noise, in their original
    order, and filtering a second time changes nothing. *)
Theorem filter_noise_keeps_order_idempotent (fs : list DiffFile) :
  filter_noise fs
    = filter (fun f => negb (is_noise_file (effective_path f))) fs /\
  (forall f, In f (filter_noise fs) <->
             In f fs /\ is_noise_file (effective_path f) = false) /\
  filter_noise (filter_noise fs) = filter_noise fs.
Proof.
  split; [apply filter_noise_filter|]. split.
  - intros f. rewrite filter_noise_filter, filter_In. unfold kept.
    now rewrite negb_true_iff.
  - rewrite !filter_noise_filter. apply filter_idem.
Qed.

(** *** [parse_diff]: what the counters hold *)

Lemma parse_line_mutation st line :
  startswith line "diff --git" = false ->
  parse_line st line = on_current (mutation line) line st.
Proof.
  intros H. unfold parse_line, mutation. rewrite H.
  repeat match goal with
         | |- context [if ?b then _ else _] => destruct b; [reflexivity|]
         end.
  reflexivity.
Qed.

Lemma prefix_cons a p c l :
  String.prefix (String a p) (String c l) = Ascii.eqb a c && String.prefix p l.
Proof.
  simpl. destruct (Ascii.ascii_dec a c) as [->|Hne].
  - now rewrite Ascii.eqb_refl.
  - apply Ascii.eqb_neq in Hne. now rewrite Hne.
Qed.

Lemma prefix_head_false a p l :
  String.prefix (String a EmptyString) l = false ->
  String.prefix (String a p) l = false.
Proof.
  destruct l as [|c l]; [reflexivity|]. rewrite !prefix_cons.
  destruct (Ascii.eqb a c); [|reflexivity].
  destruct l; discriminate.
Qed.

Ltac by_first_char c :=
  repeat match goal with
         | |- context [Ascii.eqb ?a c] =>
             let E := fresh "E" in
             destruct (Ascii.eqb a c) eqn:E;
             [apply Ascii.eqb_eq in E; subst c; cbn | cbn [andb]]
         end.

Lemma mutation_counts line f :
  added_lines (mutation line f) = added_lines f + added_by line /\
  removed_lines (mutation line f) = removed_lines f + removed_by line /\
  old_path (mutation line f) = old_path f.
Proof.
  unfold mutation, added_by, removed_by, hunk_added_line, hunk_removed_line,
    hunk_counts, content_counts, is_added_line, is_removed_line,
    match_hunk_header, startswith.
  destruct line as [|c l]; [cbn; repeat split; lia|].
  rewrite !prefix_cons.
  by_first_char c.
  all: try match goal with
           | |- context [String.prefix "@" ?l] =>
               let P := fresh "P" in
               destruct (String.prefix "@" l) eqn:P;
               [|rewrite (prefix_head_false _ _ _ P)]
           end.
  all: repeat match goal with
         | |- context [match ?x with Some _ => _ | None => _ end] =>
             destruct x as [[? ?]|]
         | |- context [if String.prefix ?p ?l then _ else _] =>
             destruct (String.prefix p l)
         end.
  all: cbn; repeat split; try lia.
  all: match goal with
       | |- context [String.prefix EmptyString ?l] =>
           replace (String.prefix EmptyString l) with true by (now destruct l)
       end.
  all: cbn [andb];
    match goal with
    | |- context [negb ?b] => destruct b
    end; cbn; try reflexivity; lia.
Qed.

(** The line that opens a file adds nothing. *)
Lemma header_line_counts line :
  startswith line "diff --git" = true ->
  added_by line = 0 /\ removed_by line = 0.
Proof.
  unfold startswith. intros H. apply prefix_first in H as [l ->].
  split; reflexivity.
Qed.

(** **** The heap of dictionaries *)

Lemma nth_error_update_eq r g h f :
  nth_error h r = Some f -> nth_error (update r g h) r = Some (g f).
Proof.
  revert r. induction h as [|x h IH]; intros [|r]; simpl; try discriminate.
  - now intros [= ->].
  - apply IH.
Qed.

Lemma nth_error_update_ne r i g h :
  i <> r -> nth_error (update r g h) i = nth_error h i.
Proof.
  revert r i. induction h as [|x h IH]; intros [|r] [|i] Hne; simpl; auto;
    congruence.
Qed.

Lemma nth_error_update_inv r i g h f' :
  nth_error (update r g h) i = Some f' ->
  (i = r /\ exists f, nth_error h r = Some f /\ f' = g f) \/
  (i <> r /\ nth_error h i = Some f').
Proof.
  intros H. destruct (Nat.eq_dec i r) as [->|Hne].
  - left. split; [reflexivity|].
    destruct (nth_error h r) as [f|] eqn:E.
    + rewrite (nth_error_update_eq r g h f E) in H. injection H as <-. eauto.
    + exfalso. revert r H E.
      induction h as [|x h IH]; intros [|r]; simpl; try discriminate.
      apply IH.
  - right. split; [exact Hne|]. now rewrite nth_error_update_ne in H.
Qed.

Lemma Forall_update (P : DiffFile -> Prop) r g h :
  Forall P h -> (forall f, P f -> P (g f)) -> Forall P (update r g h).
Proof.
  intros Hall Hg. revert r.
  induction Hall as [|x h Hx Hh IH]; intros [|r]; simpl; constructor; auto.
Qed.

(** **** The invariant of the loop *)

Lemma parse_inv_initial : parse_inv initial_state.
Proof.
  split; simpl.
  - constructor.
  - intros [|i] f; discriminate.
  - discriminate.
Qed.

(** After [close_current], every dictionary of the heap is finished. *)
Lemma close_current_recorded st :
  parse_inv st ->
  Forall named (heap (close_current st)) /\
  forall i f, nth_error (heap (close_current st)) i = Some f -> recorded f.
Proof.
  intros [Hn Ho Hc]. unfold close_current.
  destruct (current_file st) as [r|] eqn:E; simpl.
  - destruct (Hc r eq_refl) as (f0 & Hf0 & Hcnt & Hne & Hnl).
    split.
    + apply Forall_update; [exact Hn|]. intros f Hf. exact Hf.
    + intros i f Hi.
      apply nth_error_update_inv in Hi as [(-> & f1 & Hf1 & ->) | (Hir & Hi)].
      * rewrite Hf0 in Hf1. injection Hf1 as <-.
        exists (current_lines st). repeat split; auto; apply Hcnt.
      * apply (Ho i f Hi). congruence.
  - split; [exact Hn|]. intros i f Hi. apply (Ho i f Hi). discriminate.
Qed.

Lemma close_current_inv st : parse_inv st -> parse_inv (close_current st).
Proof.
  intros Hinv. destruct (close_current_recorded st Hinv) as [Hn Hrec].
  split; [exact Hn | intros i f Hi _; now apply (Hrec i f)|].
  destruct Hinv as [_ _ Hc]. unfold close_current in *.
  destruct (current_file st) as [r0|] eqn:E; simpl; [|intros r Hr; congruence].
  intros r [= <-]. destruct (Hc r0 eq_refl) as (f0 & Hf0 & Hcnt & Hne & Hnl).
  exists (set_content (join_lines (current_lines st)) f0).
  split; [now apply nth_error_update_eq|]. repeat split; auto; apply Hcnt.
Qed.

Lemma on_current_inv st line :
  has_nl line = false ->
  parse_inv st -> parse_inv (on_current (mutation line) line st).
Proof.
  intros Hnl [Hn Ho Hc]. unfold on_current.
  destruct (current_file st) as [r|] eqn:E; [|split; auto; now rewrite E].
  destruct (Hc r eq_refl) as (f0 & Hf0 & [Ha Hr] & Hne & Hfree).
  destruct (mutation_counts line f0) as (Ma & Mr & Mo).
  split; simpl.
  - apply Forall_update; [exact Hn|].
    intros f (c & s & Hf). exists c, s.
    destruct (mutation_counts line f) as (_ & _ & ->). exact Hf.
  - intros i f Hi Hcur.
    apply nth_error_update_inv in Hi as [(-> & _) | (_ & Hi)]; [congruence|].
    apply (Ho i f Hi). congruence.
  - intros r' [= <-]. exists (mutation line f0).
    split; [now apply nth_error_update_eq|].
    split; [|split].
    + split; rewrite sum_over_app; simpl; lia.
    + now destruct (current_lines st).
    + apply Forall_app. split; [exact Hfree | now constructor].
Qed.

Lemma match_paths_named s op np :
  match_paths s = Some (op, np) -> exists c t, op = String c t.
Proof.
  destruct s as [|c s]; cbn [match_paths]; [discriminate|].
  destruct (Ascii.eqb c nl); [discriminate|].
  destruct (if String.prefix " b/" s then dot_plus_dollar (drop 3 s) else None).
  - intros H. inversion H. eauto.
  - destruct (match_paths s) as [[op' np']|]; [|discriminate].
    intros H. inversion H. eauto.
Qed.

Lemma parse_line_inv st line :
  has_nl line = false -> parse_inv st -> parse_inv (parse_line st line).
Proof.
  intros Hnl Hinv.
  destruct (startswith line "diff --git") eqn:Hd;
    [|rewrite parse_line_mutation by assumption; now apply on_current_inv].
  unfold parse_line. rewrite Hd.
  destruct (match_file_header line) as [[op np]|] eqn:Hm;
    [|now apply close_current_inv].
  destruct (close_current_recorded st Hinv) as [Hn Hrec].
  split; simpl.
  - apply Forall_app. split; [exact Hn|]. constructor; [|constructor].
    unfold match_file_header in Hm.
    destruct (String.prefix "diff --git a/" line); [|discriminate].
    destruct (match_paths_named _ _ _ Hm) as (c & t & ->).
    now exists c, t.
  - intros i f Hi Hcur.
    destruct (Nat.lt_ge_cases i (List.length (heap (close_current st)))) as [Hlt|Hge].
    + rewrite nth_error_app1 in Hi by assumption. now apply (Hrec i f).
    + destruct (Nat.eq_dec i (List.length (heap (close_current st)))) as [->|Hne];
        [congruence|].
      rewrite nth_error_app2 in Hi by assumption.
      destruct (i - List.length (heap (close_current st)))%nat as [|[|k]] eqn:Ek;
        simpl in Hi; try discriminate. lia.
  - intros r [= <-]. eexists. split.
    + rewrite nth_error_app2, Nat.sub_diag by reflexivity. reflexivity.
    + destruct (header_line_counts line Hd) as [Ha Hr].
      repeat split; simpl; try lia; try discriminate.
      constructor; [exact Hnl | constructor].
Qed.

Lemma fold_parse_line_inv lines : forall st,
  newline_free lines -> parse_inv st ->
  parse_inv (fold_left parse_line lines st).
Proof.
  induction lines as [|line lines IH]; intros st Hfree Hinv; [exact Hinv|].
  inversion Hfree; subst. simpl. apply IH; [assumption|].
  now apply parse_line_inv.
Qed.

Lemma in_deref f h refs :
  In f (deref h refs) -> exists r, nth_error h r = Some f.
Proof.
  unfold deref. rewrite in_flat_map. intros (r & _ & Hf).
  exists r. destruct (nth_error h r); simpl in Hf; [|contradiction].
  destruct Hf as [->|[]]. reflexivity.
Qed.

(** Every dictionary [parse_diff] returns is finished and named. *)
Lemma parse_diff_recorded diff_text f :
  In f (parse_diff diff_text) -> recorded f /\ named f.
Proof.
  unfold parse_diff. destruct (negb (truthy diff_text)); [contradiction|].
  intros Hin. apply in_deref in Hin as [r Hr].
  pose proof (fold_parse_line_inv (split_lines diff_text) initial_state
                (split_lines_no_nl diff_text) parse_inv_initial) as Hinv.
  destruct (close_current_recorded _ Hinv) as [Hn Hrec].
  split; [now apply (Hrec r f)|].
  rewrite Forall_forall in Hn. apply Hn. eapply nth_error_In; eassumption.
Qed.

(** **** Hunk-header counts are not negative *)

Lemma span_digits_all_digits s : all_digits (fst (span_digits s)) = true.
Proof.
  induction s as [|c s IH]; simpl; [reflexivity|].
  destruct (is_digit c) eqn:E; [|reflexivity].
  destruct (span_digits s) as [d r]. simpl in *. now rewrite E, IH.
Qed.

Lemma int_of_digits_from_nonneg d : forall acc,
  all_digits d = true -> 0 <= acc -> 0 <= int_of_digits_from acc d.
Proof.
  induction d as [|c d IH]; intros acc Hd Hacc; cbn [int_of_digits_from];
    [exact Hacc|].
  cbn [all_digits] in Hd. apply andb_true_iff in Hd as [Hc Hd].
  apply IH; [exact Hd|].
  unfold is_digit in Hc. apply andb_true_iff in Hc as [Hlo _].
  apply Nat.leb_le in Hlo. lia.
Qed.

Lemma match_range_count_nonneg s start g rest :
  match_range s = Some (start, g, rest) -> 0 <= int_or_1 g.
Proof.
  unfold match_range.
  destruct (span_digits s) as [[|c0 d0] [|c r]]; try discriminate.
  - intros [= _ <- _]. simpl. lia.
  - destruct (Ascii.eqb c ","%char).
    + pose proof (span_digits_all_digits r) as Hd.
      destruct (span_digits r) as [[|c1 d1] r'].
      * intros [= _ <- _]. simpl. lia.
      * intros [= _ <- _]. simpl int_or_1.
        apply int_of_digits_from_nonneg; [exact Hd | lia].
    + intros [= _ <- _]. simpl. lia.
Qed.

Lemma hunk_line_nonneg line :
  0 <= hunk_added_line line /\ 0 <= hunk_removed_line line.
Proof.
  unfold hunk_added_line, hunk_removed_line, match_hunk_header.
  destruct (String.prefix "@@ -" line); [|split; lia].
  destruct (match_range (drop 4 line)) as [[[s1 g2] rest]|] eqn:E1; [|split; lia].
  destruct (String.prefix " +" rest); [|split; lia].
  destruct (match_range (drop 2 rest)) as [[[s2 g4] rest']|] eqn:E2; [|split; lia].
  destruct (String.prefix " @@" rest'); [|split; lia].
  split; eapply match_range_count_nonneg; eassumption.
Qed.

Lemma sum_over_nonneg g ls : (forall l, 0 <= g l) -> 0 <= sum_over g ls.
Proof.
  intros Hg. induction ls as [|l ls IH]; simpl; [lia|].
  specialize (Hg l). lia.
Qed.

(** The counters of a line split into the literal part and the header
    part. *)
Lemma sum_over_added_by ls :
  sum_over added_by ls
  = Z.of_nat (List.length (filter is_added_line ls)) + sum_over hunk_added_line ls.
Proof.
  induction ls as [|l ls IH]; [reflexivity|].
  cbn [sum_over filter]. rewrite IH. unfold added_by.
  destruct (is_added_line l); cbn [Z.b2z List.length]; lia.
Qed.

Lemma sum_over_removed_by ls :
  sum_over removed_by ls
  = Z.of_nat (List.length (filter is_removed_line ls)) + sum_over hunk_removed_line ls.
Proof.
  induction ls as [|l ls IH]; [reflexivity|].
  cbn [sum_over filter]. rewrite IH. unfold removed_by.
  destruct (is_removed_line l); cbn [Z.b2z List.length]; lia.
Qed.

(** For every diff text and every dictionary [parse_diff] returns, each
    counter is the number of literal ['+'] (or ['-']) lines of the
    recorded content plus the counts declared by the hunk headers of that
    content; neither part is negative. The counter equals the re-scanned
    number exactly when the headers declare nothing. *)
Theorem parse_diff_counts (diff_text : string) (f : DiffFile) :
  In f (parse_diff diff_text) ->
  added_lines f = rescan_added f + hunk_added (content f) /\
  removed_lines f = rescan_removed f + hunk_removed (content f) /\
  0 <= rescan_added f /\ 0 <= hunk_added (content f) /\
  0 <= rescan_removed f /\ 0 <= hunk_removed (content f).
Proof.
  intros Hin.
  destruct (parse_diff_recorded diff_text f Hin)
    as [(ls & Hne & Hfree & Hcontent & Ha & Hr) _].
  unfold rescan_added, rescan_removed, hunk_added, hunk_removed, count_lines.
  rewrite Hcontent, split_join_lines by assumption.
  rewrite Ha, Hr, sum_over_added_by, sum_over_removed_by.
  repeat split; try lia;
    apply sum_over_nonneg; intros l; apply hunk_line_nonneg.
Qed.

(** No dictionary [parse_diff] returns is summarised as ["new"]: its
    ['old_path'] is never empty. *)
Theorem parse_diff_never_new (diff_text : string) (f : DiffFile) :
  In f (parse_diff diff_text) -> status_of f <> new.
Proof.
  intros Hin.
  destruct (parse_diff_recorded diff_text f Hin) as [_ (c & s & Hold)].
  unfold status_of. rewrite Hold. simpl.
  destruct (is_deleted f); [discriminate|].
  destruct (is_binary f); discriminate.
Qed.

(** *** [parse_diff] on two small diffs *)

(** Claim C1 (violated by the code). For a diff that replaces one line,
    [parse_diff] records 2 added and 2 removed lines: the hunk header
    [@@ -1 +1 @@] adds 1 to each counter and the ['+'] and ['-'] lines add
    1 again, while a re-scan of the recorded content finds one literal
    ['+'] line and one literal ['-'] line. *)
Theorem parse_diff_counts_hunk_header_and_lines :
  map (fun f => (added_lines f, removed_lines f, rescan_added f, rescan_removed f))
      (parse_diff one_line_change)
  = [(2, 2, 1, 1)].
Proof. vm_compute. reflexivity. Qed.

(** Claim C9 (violated by the code). For a segment with a
    [new file mode] header, [parse_diff] only keeps the header line: the
    dictionary carries no new-file flag, its ['old_path'] is the path of
    the [diff --git] line, and [get_file_summary] reports it as
    ["modified"]. *)
Theorem new_file_mode_summarised_as_modified :
  map (fun f => (old_path f, is_binary f, is_deleted f, status_of f))
      (parse_diff one_new_file)
    = [(Some "g.txt", false, false, modified)] /\
  get_file_summary (parse_diff one_new_file) = "modified: g.txt (+2/-0)".
Proof. vm_compute. split; reflexivity. Qed.

End DiffParserFacts.

(** ** The token bucket *)

Module RateLimiterFacts.
Import RateLimiter.

Lemma refill_by_in_range n now l : in_range l -> in_range (refill_by n now l).
Proof.
  unfold in_range, refill_by. intros H.
  destruct (n >? 0)%Z eqn:E; [|exact H]. simpl.
  rewrite Z.gtb_ltb, Z.ltb_lt in E. lia.
Qed.

Lemma refill_by_rate n now l : rate (refill_by n now l) = rate l.
Proof. unfold refill_by. now destruct (n >? 0)%Z. Qed.

Lemma take_in_range l : in_range l -> in_range (fst (take l)).
Proof.
  unfold in_range, take. intros H.
  destruct (tokens l >? 0)%Z eqn:E; [|exact H]. simpl.
  rewrite Z.gtb_ltb, Z.ltb_lt in E. lia.
Qed.

Lemma take_rate l : rate (fst (take l)) = rate l.
Proof. unfold take. now destruct (tokens l >? 0)%Z. Qed.

Lemma take_true l : snd (take l) = true -> (0 < tokens l)%Z.
Proof.
  unfold take. destruct (tokens l >? 0)%Z eqn:E; [|discriminate].
  rewrite Z.gtb_ltb, Z.ltb_lt in E. auto.
Qed.

Lemma acquire_acquire_ok now l :
  in_range l -> acquire_ok (rate l) (acquire now l).
Proof.
  intros H. unfold acquire, acquire_ok.
  destruct (tokens_to_add l now) as [n|];
    [|simpl; split; [intros ? ?; discriminate | split; [exact H | reflexivity]]].
  pose proof (refill_by_in_range n now l H) as H1.
  pose proof (refill_by_rate n now l) as R1.
  pose proof (take_in_range _ H1) as H2.
  pose proof (take_rate (refill_by n now l)) as R2.
  pose proof (take_true (refill_by n now l)) as T.
  destruct (take (refill_by n now l)) as [l2 ok]. simpl in *.
  split; [|split; [exact H2 | congruence]].
  intros l1 E. injection E as <-.
  split; [exact H1|]. split; [exact R1|].
  intros E. injection E as ->. now apply T.
Qed.

(** Claim C5. From a limiter built with a capacity that is not negative,
    after any sequence of [acquire] calls at arbitrary clock readings, the
    available tokens are within [[0, capacity]] after each refill and after
    each decrement, and a call returns [True] only when the refilled
    bucket holds at least one token at the check. *)
Theorem acquire_tokens_in_range
    (capacity period : Z) (start : time) (nows : list time) :
  (0 <= capacity)%Z ->
  Forall (acquire_ok capacity) (acquire_all nows (init capacity period start)).
Proof.
  intros Hcap.
  assert (H0 : in_range (init capacity period start)) by (unfold in_range; simpl; lia).
  assert (R0 : rate (init capacity period start) = capacity) by reflexivity.
  revert H0 R0. generalize (init capacity period start) as l.
  induction nows as [|now nows IH]; intros l H0 R0; simpl; constructor.
  - rewrite <- R0. now apply acquire_acquire_ok.
  - pose proof (acquire_acquire_ok now l H0) as (_ & Hf & Rf).
    apply IH; [exact Hf | congruence].
Qed.

(** A bucket of two tokens per minute, asked four times within a minute. *)
Lemma acquire_tokens_in_range_witness :
  Forall (acquire_ok 2)
    (acquire_all [0%Q; 1%Q; (3#2)%Q; 31%Q] (init 2 60 0%Q)).
Proof. apply (acquire_tokens_in_range 2 60 0%Q). lia. Defined.

End RateLimiterFacts.

(** ** The analysis stages *)

Module AgentsFacts.
Import Str Models Exc Agents AgentsNotions.

Ltac stage_cases client req :=
  destruct (client req) as [response | msg0]; simpl;
  [ destruct (first (choices response)) as [[text|] | msg1]; simpl;
    [ destruct (total_tokens response) as [n | msg2]; simpl
    | destruct (total_tokens response) as [n | msg2]; simpl
    | ]
  | ].

Lemma scout_never_raises client model t0 t1 diff ctx :
  exists r,
    ScoutAgent.analyze client model t0 t1 diff ctx = Ok r /\
    agent_name r = "scout" /\
    degraded diff r /\
    (forall msg, client (ScoutAgent.request model diff) = Raise msg ->
       error r = Some msg /\ output r = diff).
Proof.
  unfold ScoutAgent.analyze, degraded.
  stage_cases client (ScoutAgent.request model diff);
    eexists; (split; [reflexivity|]); simpl;
    repeat split; try discriminate; try congruence.
Qed.

Lemma guardian_never_raises client model t0 t1 diff ctx :
  exists r,
    GuardianAgent.analyze client model t0 t1 diff ctx = Ok r /\
    agent_name r = "guardian" /\
    degraded "Security analysis failed. Please review manually." r /\
    (forall msg, client (GuardianAgent.request model diff) = Raise msg ->
       error r = Some msg /\
       output r = "Security analysis failed. Please review manually.").
Proof.
  unfold GuardianAgent.analyze, degraded.
  destruct (client (GuardianAgent.request model diff)) as [response | msg0]; simpl;
    [destruct (first (content response)) as [text | msg1]; simpl|];
    eexists; (split; [reflexivity|]); simpl;
    repeat split; try discriminate; try congruence.
Qed.

Lemma architect_never_raises client model verr t0 t1 diff ctx :
  exists r,
    ArchitectAgent.analyze client model verr t0 t1 diff ctx = Ok r /\
    agent_name r = "architect" /\
    degraded "Architectural analysis failed. Please review manually." r /\
    (forall msg, client (ArchitectAgent.request model diff) = Raise msg ->
       error r = Some msg /\
       output r = "Architectural analysis failed. Please review manually.").
Proof.
  unfold ArchitectAgent.analyze, degraded.
  stage_cases client (ArchitectAgent.request model diff);
    eexists; (split; [reflexivity|]); simpl;
    repeat split; try discriminate; try congruence.
Qed.

Lemma stylist_never_raises client model verr t0 t1 diff ctx :
  exists r,
    StylistAgent.analyze client model verr t0 t1 diff ctx = Ok r /\
    agent_name r = "stylist" /\
    degraded "Style analysis failed. Please review manually." r /\
    (forall msg, client (StylistAgent.request model diff ctx) = Raise msg ->
       error r = Some msg /\
       output r = "Style analysis failed. Please review manually.").
Proof.
  unfold StylistAgent.analyze, degraded.
  stage_cases client (StylistAgent.request model diff ctx);
    eexists; (split; [reflexivity|]); simpl;
    repeat split; try discriminate; try congruence.
Qed.

(** Claim C4. Each of Scout, Guardian, Architect and Stylist returns an
    [AgentResult] for every client, model, clock reading, diff and context:
    [analyze] never raises. Whenever the result carries an error, and in
    particular when the provider call raised, the output is the unmodified
    input diff for Scout and the stage's fixed
    "... analysis failed. Please review manually." text for the other
    three, and the error field holds the text of the exception. *)
Theorem analyze_never_raises :
  (forall client model t0 t1 diff ctx,
     exists r,
       ScoutAgent.analyze client model t0 t1 diff ctx = Ok r /\
       degraded diff r /\
       (forall msg, client (ScoutAgent.request model diff) = Raise msg ->
          error r = Some msg /\ output r = diff)) /\
  (forall client model t0 t1 diff ctx,
     exists r,
       GuardianAgent.analyze client model t0 t1 diff ctx = Ok r /\
       degraded "Security analysis failed. Please review manually." r /\
       (forall msg, client (GuardianAgent.request model diff) = Raise msg ->
          error r = Some msg /\
          output r = "Security analysis failed. Please review manually.")) /\
  (forall client model verr t0 t1 diff ctx,
     exists r,
       ArchitectAgent.analyze client model verr t0 t1 diff ctx = Ok r /\
       degraded "Architectural analysis failed. Please review manually." r /\
       (forall msg, client (ArchitectAgent.request model diff) = Raise msg ->
          error r = Some msg /\
          output r = "Architectural analysis failed. Please review manually.")) /\
  (forall client model verr t0 t1 diff ctx,
     exists r,
       StylistAgent.analyze client model verr t0 t1 diff ctx = Ok r /\
       degraded "Style analysis failed. Please review manually." r /\
       (forall msg, client (StylistAgent.request model diff ctx) = Raise msg ->
          error r = Some msg /\
          output r = "Style analysis failed. Please review manually.")).
Proof.
  repeat split; intros.
  - destruct (scout_never_raises client model t0 t1 diff ctx) as (r & ? & ? & ? & ?).
    exists r; auto.
  - destruct (guardian_never_raises client model t0 t1 diff ctx) as (r & ? & ? & ? & ?).
    exists r; auto.
  - destruct (architect_never_raises client model verr t0 t1 diff ctx) as (r & ? & ? & ? & ?).
    exists r; auto.
  - destruct (stylist_never_raises client model verr t0 t1 diff ctx) as (r & ? & ? & ? & ?).
    exists r; auto.
Qed.

Lemma analyze_never_raises_witness :
  exists r,
    ScoutAgent.analyze (fun _ => Raise "Request timed out.") "gpt-4o-mini"
      0%Q 30%Q "+x" no_context = Ok r /\
    error r = Some "Request timed out." /\ output r = "+x".
Proof.
  destruct analyze_never_raises as [Hscout _].
  destruct (Hscout (fun _ => Raise "Request timed out.") "gpt-4o-mini"
              0%Q 30%Q "+x" no_context) as (r & Hr & _ & Hfail).
  exists r. split; [exact Hr|]. apply Hfail. reflexivity.
Defined.

End AgentsFacts.

(** ** The synthesizer's fallback *)

Module SynthesizerFacts.
Import Str StrFacts Models Exc Agents Synthesizer SynthesizerNotions.

Lemma concat_empty_app a b :
  String.concat EmptyString (a ++ b)
  = (String.concat EmptyString a ++ String.concat EmptyString b)%string.
Proof.
  induction a as [|x a IH]; [reflexivity|].
  destruct a as [|y a].
  - simpl. destruct b; simpl; [now rewrite append_nil_r | reflexivity].
  - change (String.concat EmptyString ((x :: y :: a) ++ b))
      with (x ++ EmptyString ++ String.concat EmptyString ((y :: a) ++ b))%string.
    rewrite IH. simpl. now rewrite append_assoc.
Qed.

Lemma concat_append_review title r parts :
  String.concat EmptyString (append_review (title ++ nl_s)%string r parts)
  = (String.concat EmptyString parts ++ review_section title r)%string.
Proof.
  unfold append_review, review_section.
  destruct r as [a|]; [|now rewrite append_nil_r].
  destruct (succeeded (Some a)); [|now rewrite append_nil_r].
  rewrite concat_empty_app. f_equal. simpl.
  now rewrite !append_assoc.
Qed.

Lemma fallback_sections scout g a s :
  _create_fallback_comment scout g a s
  = (header ++ review_section "### Security Review" g
     ++ review_section "### Architecture Review" a
     ++ review_section "### Style Review" s)%string.
Proof.
  unfold _create_fallback_comment.
  rewrite !concat_append_review. simpl String.concat.
  fold header. now rewrite !append_assoc.
Qed.

(** A result that is there and whose [error] is [None] or empty gets its
    section; any other gets none. *)
Lemma review_section_cases (title : string) :
  (forall x, error x = None \/ error x = Some EmptyString ->
     review_section title (Some x)
     = (title ++ nl_s ++ output x ++ nl_s ++ nl_s)%string) /\
  (forall x text, error x = Some text -> text <> EmptyString ->
     review_section title (Some x) = EmptyString) /\
  review_section title None = EmptyString.
Proof.
  unfold review_section, succeeded. repeat split.
  - intros x [-> | ->]; reflexivity.
  - intros x text -> Hne. destruct text; [congruence | reflexivity].
Qed.

(** Claim C6, as stated, fails: Guardian's call raised an exception
    without text, so its result carries the error [""] and the fixed
    failure text as output; the synthesizer's own call fails, and the
    fallback it returns holds Guardian's output under the security title,
    because the code tests [not r.error] and the empty text is falsy. *)
Lemma fallback_keeps_guardian_failed_without_text :
  GuardianAgent.analyze (fun _ => Raise EmptyString) "claude-3-5-sonnet-20241022"
    0%Q 30%Q "+x" AgentsNotions.no_context = Ok silent_guardian /\
  error silent_guardian <> None /\
  exists r,
    Synthesizer.analyze (fun _ => Raise "Connection error.") "gpt-4o"
      "1 validation error for AgentResult" 0%Q 2%Q None
      (Some silent_guardian) (Some good_architect) (Some good_stylist)
      AgentsNotions.no_context = Ok r /\
    error r = Some "Connection error." /\
    output r
    = ("## Code Review Summary" ++ nl_s ++ nl_s
       ++ "### Security Review" ++ nl_s
       ++ "Security analysis failed. Please review manually." ++ nl_s ++ nl_s
       ++ "### Architecture Review" ++ nl_s ++ "Extract the retry loop." ++ nl_s ++ nl_s
       ++ "### Style Review" ++ nl_s ++ "Rename tmp." ++ nl_s ++ nl_s)%string.
Proof.
  split; [reflexivity|]. split; [discriminate|].
  eexists. split; [reflexivity|]. split; reflexivity.
Qed.

(** Claim C6 (amended). [analyze] of the synthesizer always returns a
    result, with the exception's text as error when its primary call
    raises. Whenever that result carries an error, its output is the
    fallback: the summary header followed by one titled section for each
    of Guardian, Architect and Stylist whose result is there and whose
    [error] is [None] or the empty text (the test of the code,
    [r and not r.error]), in that order and with nothing else; a result
    with a non-empty error text, or a missing one, gets no section. In
    particular, with Guardian carrying a non-empty error text and
    Architect and Stylist carrying no error, the text is the header,
    Architect's output under its title and Stylist's output under its
    title: Guardian's output is not part of it. The fallback is never
    empty. *)
Theorem fallback_comment_concatenates_successes
    (client : OpenAI) (model verr : string) (t0 t1 : Q)
    (scout g a s : option AgentResult) (ctx : Context) :
  (exists r,
     Synthesizer.analyze client model verr t0 t1 scout g a s ctx = Ok r /\
     (forall msg,
        client (Synthesizer.request model g a s ctx) = Raise msg ->
        error r = Some msg) /\
     (error r <> None ->
      output r
      = (header ++ review_section "### Security Review" g
         ++ review_section "### Architecture Review" a
         ++ review_section "### Style Review" s)%string /\
      output r <> EmptyString /\
      (forall ga aa sa text,
         g = Some ga -> a = Some aa -> s = Some sa ->
         error ga = Some text -> text <> EmptyString ->
         error aa = None -> error sa = None ->
         output r
         = ("## Code Review Summary" ++ nl_s ++ nl_s
            ++ "### Architecture Review" ++ nl_s ++ output aa ++ nl_s ++ nl_s
            ++ "### Style Review" ++ nl_s ++ output sa ++ nl_s ++ nl_s)%string))) /\
  (forall title,
     (forall x, error x = None \/ error x = Some EmptyString ->
        review_section title (Some x)
        = (title ++ nl_s ++ output x ++ nl_s ++ nl_s)%string) /\
     (forall x text, error x = Some text -> text <> EmptyString ->
        review_section title (Some x) = EmptyString) /\
     review_section title None = EmptyString).
Proof.
  split; [|exact review_section_cases].
  assert (Hfallback :
    forall out, out = _create_fallback_comment scout g a s ->
      out = (header ++ review_section "### Security Review" g
             ++ review_section "### Architecture Review" a
             ++ review_section "### Style Review" s)%string /\
      out <> EmptyString /\
      (forall ga aa sa text,
         g = Some ga -> a = Some aa -> s = Some sa ->
         error ga = Some text -> text <> EmptyString ->
         error aa = None -> error sa = None ->
         out
         = ("## Code Review Summary" ++ nl_s ++ nl_s
            ++ "### Architecture Review" ++ nl_s ++ output aa ++ nl_s ++ nl_s
            ++ "### Style Review" ++ nl_s ++ output sa ++ nl_s ++ nl_s)%string)).
  { intros out ->. rewrite fallback_sections. split; [reflexivity|].
    split; [discriminate|].
    intros ga aa sa text -> -> -> Hg Hne Ha Hs.
    destruct (review_section_cases "### Security Review") as (_ & Hno & _).
    destruct (review_section_cases "### Architecture Review") as (Hyes_a & _ & _).
    destruct (review_section_cases "### Style Review") as (Hyes_s & _ & _).
    rewrite (Hno ga text Hg Hne), (Hyes_a aa (or_introl Ha)),
      (Hyes_s sa (or_introl Hs)).
    unfold header. cbn [append]. now rewrite !append_assoc. }
  unfold Synthesizer.analyze.
  destruct (client (Synthesizer.request model g a s ctx)) as [response | m].
  - destruct (first (choices response)) as [[text|] | m1];
      [destruct (total_tokens response) as [n | m2]
      |destruct (total_tokens response) as [n | m2] |];
      eexists; (split; [reflexivity|]); (split; [discriminate|]);
      cbn [error output]; intros He; try congruence;
      now apply Hfallback.
  - eexists. split; [reflexivity|]. split; [now intros msg [= ->]|].
    cbn [error output]. intros _. now apply Hfallback.
Qed.

(** The provider of the synthesizer is down; Guardian timed out,
    Architect and Stylist answered. *)
Lemma fallback_comment_concatenates_successes_witness :
  exists r,
    Synthesizer.analyze (fun _ => Raise "Connection error.") "gpt-4o"
      "1 validation error for AgentResult" 0%Q 2%Q None
      (Some failed_guardian) (Some good_architect) (Some good_stylist)
      AgentsNotions.no_context = Ok r /\
    error r = Some "Connection error." /\
    output r
    = ("## Code Review Summary" ++ nl_s ++ nl_s
       ++ "### Architecture Review" ++ nl_s ++ "Extract the retry loop." ++ nl_s ++ nl_s
       ++ "### Style Review" ++ nl_s ++ "Rename tmp." ++ nl_s ++ nl_s)%string.
Proof.
  destruct (fallback_comment_concatenates_successes
              (fun _ => Raise "Connection error.") "gpt-4o"
              "1 validation error for AgentResult" 0%Q 2%Q None
              (Some failed_guardian) (Some good_architect) (Some good_stylist)
              AgentsNotions.no_context)
    as [(r & Hr & Hmsg & Hfail) _].
  exists r. split; [exact Hr|].
  pose proof (Hmsg "Connection error." eq_refl) as He.
  split; [exact He|].
  assert (Herr : error r <> None) by (rewrite He; discriminate).
  destruct (Hfail Herr) as (_ & _ & Hcase).
  apply (Hcase failed_guardian good_architect good_stylist "Request timed out.");
    try reflexivity.
  discriminate.
Defined.

End SynthesizerFacts.

(** ** The work queue *)

Module QueueFacts.
Import Models Exc Stores Queue QueueNotions.

Lemma rev_snoc_queue (q : list string) (x : string) : rev (q ++ [x]) = x :: rev q.
Proof. now rewrite rev_app_distr. Qed.

(** [brpop] serves the element that was pushed first. *)
Lemma brpop_serves_oldest (q : list string) (oldest : string) (w : World) :
  pr_review_queue w = q ++ [oldest] ->
  brpop Served w = (with_queue q w, Ok (Some oldest)).
Proof.
  intros Hq. unfold brpop. rewrite Hq, rev_snoc_queue, removelast_last.
  reflexivity.
Qed.

(** Claim C10. [dequeue] always returns: it never raises. When Redis
    times out or fails, and when the list is empty, it returns [None] and
    leaves every store as it was. When the rightmost entry cannot be
    decoded into a task it returns the same [None], and the entry is gone
    from the queue while the dead-letter list and the status table are
    unchanged: nothing records it. *)
Theorem dequeue_never_raises_drops_malformed
    (parse_task : string -> result PRTask) (reply : redis_reply) (w : World) :
  (exists w' r, dequeue parse_task reply w = (w', Ok r)) /\
  (reply <> Served -> dequeue parse_task reply w = (w, Ok None)) /\
  (pr_review_queue w = [] -> dequeue parse_task reply w = (w, Ok None)) /\
  (forall q payload msg,
     pr_review_queue w = q ++ [payload] ->
     parse_task payload = Raise msg ->
     exists w',
       dequeue parse_task Served w = (w', Ok None) /\
       pr_review_queue w' = q /\
       pr_review_dlq w' = pr_review_dlq w /\
       pr_reviews w' = pr_reviews w).
Proof.
  repeat split.
  - unfold dequeue, try_except, bind, brpop, ret.
    destruct reply; try (eexists; eexists; reflexivity).
    destruct (rev (pr_review_queue w)) as [|task_data rest];
      [eexists; eexists; reflexivity|].
    destruct (parse_task task_data); eexists; eexists; reflexivity.
  - intros Hr. destruct reply; [congruence | reflexivity | reflexivity].
  - intros Hq. unfold dequeue, try_except, bind, brpop, ret.
    destruct reply; try reflexivity. now rewrite Hq.
  - intros q payload msg Hq Hp.
    exists (with_queue q w).
    unfold dequeue, try_except, bind.
    rewrite (brpop_serves_oldest q payload w Hq), Hp.
    repeat split.
Qed.

Lemma dequeue_never_raises_drops_malformed_witness :
  exists w',
    dequeue no_parse Served queue_with_garbage = (w', Ok None) /\
    pr_review_queue w' = ["{}"] /\
    pr_review_dlq w' = [] /\
    pr_reviews w' = [].
Proof.
  destruct (dequeue_never_raises_drops_malformed no_parse Served queue_with_garbage)
    as (_ & _ & _ & Hdrop).
  apply (Hdrop ["{}"] "not json" "Expecting value: line 1 column 1 (char 0)");
    reflexivity.
Defined.

End QueueFacts.

(** ** The pipeline's failure policy *)

Module OrchestratorFacts.
Import Str Models Exc Stores Agents Queue Orchestrator OrchestratorNotions.

Section Failure.
Variable settings : Settings.Settings.
Variable model_dump_json : PRTask -> string.
Variable env : Env.

(** A failure of the review runs the [except] clause from the world
    the review left. *)
Lemma process_task_raised task w w0 w1 e :
  open_review env task w = (w0, Ok true) ->
  review settings env task w0 = (w1, Raise e) ->
  process_task settings model_dump_json env task w
  = on_failure settings model_dump_json env task e w1.
Proof.
  intros Ho Hr. unfold process_task, bind. rewrite Ho.
  unfold try_except. now rewrite Hr.
Qed.


(** [open_review] writes rows to [pr_reviews] and nothing else. *)
Lemma open_review_stores task w w0 b :
  open_review env task w = (w0, b) ->
  pr_review_queue w0 = pr_review_queue w /\
  pr_review_dlq w0 = pr_review_dlq w /\
  sleeps w0 = sleeps w.
Proof.
  unfold open_review, try_except, bind, call, ret.
  destruct (create_pr_review env) as [[]|m1]; simpl;
    [destruct (update_processing env) as [[]|m2]; simpl|];
    intros [= <- <-]; auto.
Qed.

(** The ceiling is reached: one status row, no sleep, no re-enqueue,
    and the dead-letter entry when Redis serves the push. *)
Lemma on_failure_ceiling task e w1 :
  update_failed env = Ok tt ->
  Settings.max_retries settings <= retry_count task ->
  exists w',
    on_failure settings model_dump_json env task e w1 = (w', Ok tt) /\
    pr_reviews w' = pr_reviews w1 ++ [failed_write task e] /\
    pr_review_queue w' = pr_review_queue w1 /\
    sleeps w' = sleeps w1 /\
    pr_review_dlq w' =
      match lpush_dlq env with
      | Served => dead_letter model_dump_json env task e :: pr_review_dlq w1
      | _ => pr_review_dlq w1
      end.
Proof.
  intros Hu Hc. unfold on_failure, bind, call. rewrite Hu.
  replace (retry_count task >=? Settings.max_retries settings) with true
    by (symmetry; rewrite Z.geb_leb; now apply Z.leb_le).
  unfold enqueue_dlq, try_except, ret.
  destruct (lpush_dlq env); eexists; (split; [reflexivity|]); simpl; auto.
Qed.

(** Below the ceiling: one status row, the back-off sleep, no
    dead-letter entry, and the re-enqueue when Redis serves the push. *)
Lemma on_failure_below_ceiling task e w1 :
  update_failed env = Ok tt ->
  retry_count task < Settings.max_retries settings ->
  exists w',
    on_failure settings model_dump_json env task e w1 = (w', Ok tt) /\
    pr_reviews w' = pr_reviews w1 ++ [failed_write task e] /\
    pr_review_dlq w' = pr_review_dlq w1 /\
    sleeps w' =
      sleeps w1 ++ [Settings.retry_delay settings * (retry_count task + 1)] /\
    pr_review_queue w' =
      match lpush_queue env with
      | Served => model_dump_json (bump_retry_count task) :: pr_review_queue w1
      | _ => pr_review_queue w1
      end.
Proof.
  intros Hu Hc. unfold on_failure, bind, call. rewrite Hu.
  replace (retry_count task >=? Settings.max_retries settings) with false
    by (symmetry; rewrite Z.geb_leb; apply Z.leb_gt; lia).
  unfold sleep, enqueue, try_except, ret.
  destruct (lpush_queue env); eexists; (split; [reflexivity|]); simpl; auto.
Qed.

End Failure.

(** *** Which failures reach the [except] clause *)

Lemma synthesizer_never_raises client model verr t0 t1 sc g a st ctx :
  exists r,
    Synthesizer.analyze client model verr t0 t1 sc g a st ctx = Ok r /\
    agent_name r = "synthesizer".
Proof.
  unfold Synthesizer.analyze.
  destruct (client _) as [response | msg0];
    [destruct (first (choices response)) as [[text|] | msg1];
       [destruct (total_tokens response) as [n | msg2]
       |destruct (total_tokens response) as [n | msg2]
       |]
    |];
    eexists; split; reflexivity.
Qed.

Lemma or_exception_name name fallback model r :
  (forall a, r = Ok a -> agent_name a = name) ->
  agent_name (or_exception name fallback model r) = name.
Proof. intros H. destruct r as [a|msg]; simpl; auto. Qed.

(** [review] raises exactly when one of the replies it waits for raises,
    and then with the text of the first such reply; otherwise it returns.
    It writes to neither Redis list and does not sleep. *)
Theorem review_raises_first_failure
    (settings : Settings.Settings) (env : Env) (task : PRTask) (w0 : World) :
  let run := review settings env task w0 in
  snd run
  = match first_failure (review_steps env) with
    | Some e => Raise e
    | None => Ok tt
    end /\
  pr_review_queue (fst run) = pr_review_queue w0 /\
  pr_review_dlq (fst run) = pr_review_dlq w0 /\
  sleeps (fst run) = sleeps w0.
Proof.
  cbv zeta.
  unfold review, review_steps, Stores.bind, await, call.
  cbn [first_failure forget].
  destruct (github_wait_diff env) as [[]|e]; [|repeat split; reflexivity].
  destruct (get_pr_diff env) as [diff|e]; [|repeat split; reflexivity].
  cbv beta iota. cbn [first_failure forget].
  destruct (DiffParser.process_diff settings diff) as [filtered_diff files_info].
  destruct (openai_wait_scout env) as [[]|e]; [|repeat split; reflexivity].
  cbv beta iota.
  match goal with
  | |- context [ScoutAgent.analyze ?c ?m ?a ?b ?d ?x] =>
      destruct (AgentsFacts.scout_never_raises c m a b d x)
        as (scout_result & -> & Hscout & _)
  end.
  cbv beta iota.
  match goal with
  | |- context [or_exception "guardian" ?f ?m (GuardianAgent.analyze ?c ?mo ?a ?b ?d ?x)] =>
      assert (Hguardian :
                agent_name (or_exception "guardian" f m
                              (GuardianAgent.analyze c mo a b d x)) = "guardian")
        by (destruct (AgentsFacts.guardian_never_raises c mo a b d x)
              as (r & -> & Hn & _); exact Hn);
      revert Hguardian;
      generalize (or_exception "guardian" f m (GuardianAgent.analyze c mo a b d x));
      intros guardian_result Hguardian
  end.
  match goal with
  | |- context [or_exception "architect" ?f ?m (ArchitectAgent.analyze ?c ?mo ?v ?a ?b ?d ?x)] =>
      assert (Harchitect :
                agent_name (or_exception "architect" f m
                              (ArchitectAgent.analyze c mo v a b d x)) = "architect")
        by (destruct (AgentsFacts.architect_never_raises c mo v a b d x)
              as (r & -> & Hn & _); exact Hn);
      revert Harchitect;
      generalize (or_exception "architect" f m (ArchitectAgent.analyze c mo v a b d x));
      intros architect_result Harchitect
  end.
  match goal with
  | |- context [or_exception "stylist" ?f ?m (StylistAgent.analyze ?c ?mo ?v ?a ?b ?d ?x)] =>
      assert (Hstylist :
                agent_name (or_exception "stylist" f m
                              (StylistAgent.analyze c mo v a b d x)) = "stylist")
        by (destruct (AgentsFacts.stylist_never_raises c mo v a b d x)
              as (r & -> & Hn & _); exact Hn);
      revert Hstylist;
      generalize (or_exception "stylist" f m (StylistAgent.analyze c mo v a b d x));
      intros stylist_result Hstylist
  end.
  destruct (reviewers_wait env) as [[]|e]; [|repeat split; reflexivity].
  destruct (openai_wait_synthesizer env) as [[]|e]; [|repeat split; reflexivity].
  destruct (get_pr_details env) as [pr_title|e]; [|repeat split; reflexivity].
  cbv beta iota. cbn [first_failure forget].
  match goal with
  | |- context [Synthesizer.analyze ?c ?m ?v ?a ?b ?r1 ?r2 ?r3 ?r4 ?x] =>
      destruct (synthesizer_never_raises c m v a b r1 r2 r3 r4 x)
        as (synthesizer_result & -> & Hsynthesizer)
  end.
  cbv beta iota.
  destruct (save_review_result env) as [[]|e]; [|repeat split; reflexivity].
  cbv beta iota. cbn [save_usages]. unfold Stores.bind, call, ret.
  rewrite Hscout, Hguardian, Harchitect, Hstylist, Hsynthesizer.
  destruct (save_api_usage env "scout") as [[]|e]; [|repeat split; reflexivity].
  destruct (save_api_usage env "guardian") as [[]|e]; [|repeat split; reflexivity].
  destruct (save_api_usage env "architect") as [[]|e]; [|repeat split; reflexivity].
  destruct (save_api_usage env "stylist") as [[]|e]; [|repeat split; reflexivity].
  destruct (save_api_usage env "synthesizer") as [[]|e]; [|repeat split; reflexivity].
  cbv beta iota.
  destruct (github_wait_comment env) as [[]|e]; [|repeat split; reflexivity].
  destruct (post_pr_comment env) as [comment_id|e]; [|repeat split; reflexivity].
  cbv beta iota. cbn [first_failure forget].
  destruct (update_completed env) as [[]|e]; repeat split; reflexivity.
Qed.

(** *** Concrete runs *)

(** The happy path: the task is marked pending, processing and
    completed, one outcome is saved whose total is the sum of the five
    stage counts, one comment is posted, and nothing is queued again. *)
Example happy_path_completes :
  let w := fst (process_task Settings.defaults show_task all_answer
                  (widget_task 0) empty_world) in
  map sw_status (pr_reviews w) = ["pending"; "processing"; "completed"] /\
  map sw_comment_id (pr_reviews w) = [None; None; Some 1001] /\
  map c_body (comments w) = ["Looks fine."] /\
  map au_tokens_used (api_usage w) = [100; 106; 100; 100; 100] /\
  map rr_total_tokens (review_results w) = [506] /\
  pr_review_queue w = [] /\ pr_review_dlq w = [] /\ sleeps w = [].
Proof. vm_compute. repeat split. Qed.

(** Every collaborator answers but GitHub refuses the comment: the
    outcome has been saved, no comment exists, the task is marked failed
    with the error text and queued again with one more retry. *)
Example late_failure_is_retried :
  let env :=
    {| create_pr_review := Ok tt; update_processing := Ok tt;
       save_review_result := Ok tt; save_api_usage := fun _ => Ok tt;
       update_completed := Ok tt; update_failed := Ok tt;
       get_pr_diff := get_pr_diff all_answer;
       get_pr_details := get_pr_details all_answer;
       post_pr_comment := Raise "403 Forbidden";
       github_wait_diff := Ok tt; openai_wait_scout := Ok tt;
       reviewers_wait := Ok tt; openai_wait_synthesizer := Ok tt;
       github_wait_comment := Ok tt;
       openai := openai all_answer; anthropic := anthropic all_answer;
       validation_error := validation_error all_answer;
       clock := clock all_answer;
       lpush_queue := Served; lpush_dlq := Served;
       utcnow := utcnow all_answer |} in
  let w := fst (process_task Settings.defaults show_task env
                  (widget_task 1) empty_world) in
  map sw_status (pr_reviews w) = ["pending"; "processing"; "failed"] /\
  map sw_error_message (pr_reviews w) = [None; None; Some "403 Forbidden"] /\
  List.length (review_results w) = 1%nat /\
  comments w = [] /\
  pr_review_queue w = ["acme/widgets#42 retry 2"] /\
  pr_review_dlq w = [] /\ sleeps w = [10].
Proof. vm_compute. repeat split. Qed.

(** Exhausted retries with a ceiling of 3: the fourth failure
    dead-letters the task, once, after delays of 5, 10 and 15 seconds,
    and the queue stays empty afterwards. *)
Example exhausted_retries_dead_letter_once :
  let w := work 10 (with_queue [show_task (widget_task 0)] empty_world) in
  pr_review_queue w = [] /\
  pr_review_dlq w
  = [{| dlq_task := "acme/widgets#42 retry 3"; dlq_error := "502 Bad Gateway";
        dlq_failed_at := "2024-05-01T10:00:30" |}] /\
  sleeps w = [5; 10; 15] /\
  filter (String.eqb "failed") (map sw_status (pr_reviews w))
  = ["failed"; "failed"; "failed"; "failed"].
Proof. vm_compute. repeat split. Qed.

(** Claim C2, as stated, fails: a task at the retry ceiling whose
    processing raised is not in the dead-letter list when Redis refuses
    the push, because [enqueue_dlq] catches the error and only logs it. *)
Lemma dead_letter_lost_when_redis_refuses :
  let env := fetch_fails (Ok tt) (OtherError "Connection refused") in
  let task := widget_task 3 in
  let w0 := write_status (status_write task "processing" None false None)
              (write_status (status_write task "pending" None false None)
                 empty_world) in
  Settings.max_retries Settings.defaults <= retry_count task /\
  review Settings.defaults env task w0 = (w0, Raise "502 Bad Gateway") /\
  exists w',
    process_task Settings.defaults show_task env task empty_world = (w', Ok tt) /\
    pr_review_dlq w' = [] /\ pr_review_queue w' = [].
Proof.
  cbv zeta. split; [vm_compute; discriminate|]. split; [reflexivity|].
  eexists. split; [reflexivity|]. split; reflexivity.
Qed.


(** Claim C2 (amended). When the review of a task raises [e] and the
    failed-status write returns: if [retry_count] has reached
    [max_retries], the task is not re-enqueued, no delay elapses, and,
    when Redis serves the push, exactly one entry holding the task, the
    error text and the timestamp is put on the dead-letter list (when
    Redis refuses it, the list is unchanged); otherwise nothing is
    dead-lettered, [retry_count] is incremented by 1, a delay of
    [retry_delay] times the new [retry_count] elapses, and, when Redis
    serves the push, the task with the new count is pushed on the primary
    queue at its tail: the next pop still serves the oldest entry that was
    already queued. *)
Theorem failed_task_dead_lettered_or_retried
    (settings : Settings.Settings) (model_dump_json : PRTask -> string)
    (env : Env) (task : PRTask) (w w0 w1 : World) (e : string) :
  open_review env task w = (w0, Ok true) ->
  review settings env task w0 = (w1, Raise e) ->
  update_failed env = Ok tt ->
  exists w',
    process_task settings model_dump_json env task w = (w', Ok tt) /\
    pr_reviews w' = pr_reviews w1 ++ [failed_write task e] /\
    (Settings.max_retries settings <= retry_count task ->
       pr_review_queue w' = pr_review_queue w /\
       sleeps w' = sleeps w /\
       (lpush_dlq env = Served ->
          pr_review_dlq w'
          = dead_letter model_dump_json env task e :: pr_review_dlq w) /\
       (lpush_dlq env <> Served -> pr_review_dlq w' = pr_review_dlq w)) /\
    (retry_count task < Settings.max_retries settings ->
       pr_review_dlq w' = pr_review_dlq w /\
       retry_count (bump_retry_count task) = retry_count task + 1 /\
       sleeps w'
       = sleeps w
         ++ [Settings.retry_delay settings * retry_count (bump_retry_count task)] /\
       (lpush_queue env = Served ->
          pr_review_queue w'
          = lpush (model_dump_json (bump_retry_count task)) (pr_review_queue w) /\
          forall older oldest,
            pr_review_queue w = older ++ [oldest] ->
            brpop Served w'
            = (with_queue (model_dump_json (bump_retry_count task) :: older) w',
               Ok (Some oldest)))).
Proof.
  intros Ho Hr Hu.
  rewrite (process_task_raised settings model_dump_json env task w w0 w1 e Ho Hr).
  destruct (open_review_stores env task w w0 _ Ho) as (Hq0 & Hd0 & Hs0).
  destruct (review_raises_first_failure settings env task w0)
    as (_ & Hq1 & Hd1 & Hs1).
  rewrite Hr in Hq1, Hd1, Hs1. simpl in Hq1, Hd1, Hs1.
  rewrite <- Hq0, <- Hd0, <- Hs0, <- Hq1, <- Hd1, <- Hs1.
  destruct (Z_le_gt_dec (Settings.max_retries settings) (retry_count task)) as [Hc | Hc].
  - destruct (on_failure_ceiling settings model_dump_json env task e w1 Hu Hc)
      as (w' & Hf & Hs & Hq & Hsl & Hd).
    exists w'. split; [exact Hf|]. split; [exact Hs|]. split; [|intros; lia].
    intros _. split; [exact Hq|]. split; [exact Hsl|].
    split; intros Hp; rewrite Hd.
    + now rewrite Hp.
    + destruct (lpush_dlq env); congruence.
  - destruct (on_failure_below_ceiling settings model_dump_json env task e w1 Hu)
      as (w' & Hf & Hs & Hd & Hsl & Hq); [lia|].
    exists w'. split; [exact Hf|]. split; [exact Hs|]. split; [intros; lia|].
    intros _. split; [exact Hd|]. split; [reflexivity|].
    split; [exact Hsl|]. intros Hp. rewrite Hp in Hq.
    split; [exact Hq|]. intros older oldest Hold.
    apply QueueFacts.brpop_serves_oldest. rewrite Hq, Hold. reflexivity.
Qed.

(** The first failure of a fresh task, with every store answering. *)
Lemma failed_task_dead_lettered_or_retried_witness :
  let env := fetch_fails (Ok tt) Served in
  let task := widget_task 0 in
  let w0 := write_status (status_write task "processing" None false None)
              (write_status (status_write task "pending" None false None)
                 empty_world) in
  exists w',
    process_task Settings.defaults show_task env task empty_world = (w', Ok tt) /\
    pr_reviews w' = pr_reviews w0 ++ [failed_write task "502 Bad Gateway"] /\
    pr_review_dlq w' = [] /\
    sleeps w' = [5] /\
    pr_review_queue w' = ["acme/widgets#42 retry 1"].
Proof.
  cbv zeta.
  destruct (failed_task_dead_lettered_or_retried Settings.defaults show_task
              (fetch_fails (Ok tt) Served) (widget_task 0) empty_world
              (write_status (status_write (widget_task 0) "processing" None false None)
                 (write_status (status_write (widget_task 0) "pending" None false None)
                    empty_world))
              (write_status (status_write (widget_task 0) "processing" None false None)
                 (write_status (status_write (widget_task 0) "pending" None false None)
                    empty_world))
              "502 Bad Gateway" eq_refl eq_refl eq_refl)
    as (w' & Hrun & Hrows & _ & Hretry).
  destruct Hretry as (Hd & _ & Hs & Hq); [vm_compute; reflexivity|].
  exists w'. split; [exact Hrun|]. split; [exact Hrows|].
  split; [exact Hd|]. split; [exact Hs|]. exact (proj1 (Hq eq_refl)).
Defined.



End OrchestratorFacts.

(** ** The token bucket while the clock stands still *)

Module RateLimiterBurst.
Import RateLimiter RateLimiterFacts.

(** Truncation of a rational that is not positive. *)
Lemma int_of_nonpos (x : Q) : (Qnum x <= 0)%Z -> (int_of x <= 0)%Z.
Proof.
  intros H. unfold int_of.
  replace (Qnum x) with (- (- Qnum x))%Z by lia.
  rewrite Z.quot_opp_l by discriminate.
  pose proof (Z.quot_pos (- Qnum x) (Z.pos (Qden x))) as Hq. lia.
Qed.

(** A reading that is not after the last refill adds no token. *)
Lemma tokens_to_add_stopped_clock (l : RateLimiter) (now : time) :
  (now <= last_refill l)%Q -> (0 <= rate l)%Z -> (0 < per l)%Z ->
  exists n, tokens_to_add l now = Some n /\ (n <= 0)%Z.
Proof.
  intros Hnow Hrate Hper. unfold tokens_to_add.
  destruct (per l) as [|p|p] eqn:Eper; try lia.
  simpl Z.eqb. cbv iota. eexists. split; [reflexivity|].
  apply int_of_nonpos.
  unfold Qle in Hnow. simpl. nia.
Qed.

(** With the clock stopped, [acquire] is the check and the decrement. *)
Lemma acquire_stopped_clock (l : RateLimiter) (now : time) :
  (now <= last_refill l)%Q -> (0 <= rate l)%Z -> (0 < per l)%Z ->
  returned (acquire now l) = Some (0 <? tokens l)%Z /\
  final (acquire now l) = fst (take l).
Proof.
  intros Hnow Hrate Hper.
  destruct (tokens_to_add_stopped_clock l now Hnow Hrate Hper) as (n & Hn & Hle).
  unfold acquire. rewrite Hn. unfold refill_by.
  replace (n >? 0)%Z with false by (symmetry; rewrite Z.gtb_ltb; apply Z.ltb_ge; lia).
  unfold take. rewrite Z.gtb_ltb.
  destruct (0 <? tokens l)%Z; split; reflexivity.
Qed.

Lemma acquire_all_stopped_clock (nows : list time) : forall l : RateLimiter,
  (0 <= rate l)%Z -> (0 < per l)%Z -> (0 <= tokens l)%Z ->
  Forall (fun now => now <= last_refill l)%Q nows ->
  map returned (acquire_all nows l)
  = map (fun i => Some (Z.of_nat i <? tokens l)%Z) (seq 0 (List.length nows)).
Proof.
  induction nows as [|now nows IH]; intros l Hrate Hper Htok Hall; [reflexivity|].
  inversion Hall as [|? ? Hnow Hrest]; subst.
  destruct (acquire_stopped_clock l now Hnow Hrate Hper) as [Hret Hfin].
  cbn [acquire_all map List.length seq]. rewrite Hret, Hfin. f_equal.
  rewrite <- seq_shift, map_map.
  unfold take. rewrite Z.gtb_ltb.
  destruct (0 <? tokens l)%Z eqn:E.
  - apply Z.ltb_lt in E.
    rewrite IH; cbn [fst rate per tokens last_refill]; auto; [|lia].
    apply map_ext. intros i. f_equal.
    destruct (Z.ltb_spec (Z.of_nat i) (tokens l - 1));
      destruct (Z.ltb_spec (Z.of_nat (S i)) (tokens l)); auto; lia.
  - cbn [fst]. rewrite IH; auto.
    apply Z.ltb_ge in E. assert (tokens l = 0)%Z as -> by lia.
    apply map_ext. intros i. f_equal.
    destruct (Z.ltb_spec (Z.of_nat i) 0);
      destruct (Z.ltb_spec (Z.of_nat (S i)) 0); auto; lia.
Qed.

(** A burst: on a fresh limiter with a positive period, calls made while
    the clock has not moved past the creation time succeed exactly
    [capacity] times, the first [capacity] calls, and every later call is
    refused. *)
Theorem burst_is_capacity
    (capacity period : Z) (start : time) (nows : list time) :
  (0 <= capacity)%Z -> (0 < period)%Z ->
  Forall (fun now => now <= start)%Q nows ->
  map returned (acquire_all nows (init capacity period start))
  = map (fun i => Some (Z.of_nat i <? capacity)%Z) (seq 0 (List.length nows)).
Proof.
  intros Hcap Hper Hall.
  apply (acquire_all_stopped_clock nows (init capacity period start)); auto.
Qed.

(** Three tokens per minute, five calls in the same instant. *)
Lemma burst_is_capacity_witness :
  map returned (acquire_all [0%Q; 0%Q; 0%Q; 0%Q; 0%Q] (init 3 60 0%Q))
  = [Some true; Some true; Some true; Some false; Some false].
Proof.
  apply (burst_is_capacity 3 60 0%Q [0%Q; 0%Q; 0%Q; 0%Q; 0%Q]);
    [lia | lia | repeat constructor; discriminate].
Defined.

(** A limiter of capacity zero never lets [wait()] through: whatever the
    period and the clock, the first attempt is refused and the pause
    [per / rate] raises, leaving the limiter as it was. *)
Theorem wait_raises_on_zero_capacity
    (period : Z) (start now : time) (rest : list time) :
  wait (now :: rest) (init 0 period start) = (init 0 period start, Raised).
Proof.
  cbn [wait]. unfold acquire, tokens_to_add. cbn [per init rate last_refill].
  destruct (period =? 0)%Z; [reflexivity|].
  assert (Hn : int_of ((now - start) * inject_Z 0 / inject_Z period) = 0%Z).
  { unfold int_of. simpl Qnum. rewrite Z.mul_0_r, Z.mul_0_l. apply Z.quot_0_l.
    discriminate. }
  cbv zeta. rewrite Hn. reflexivity.
Qed.

End RateLimiterBurst.

(** ** The work queue is first in, first out *)

Module QueueOrder.
Import Models Exc Stores Queue QueueRuns QueueFacts.

Lemma with_queue_with_queue a b w : with_queue a (with_queue b w) = with_queue a w.
Proof. reflexivity. Qed.

Lemma with_queue_same w : with_queue (pr_review_queue w) w = w.
Proof. now destruct w. Qed.

Lemma enqueue_served dump task w :
  enqueue dump Served task w
  = (with_queue (dump task :: pr_review_queue w) w, Ok true).
Proof. reflexivity. Qed.

Lemma enqueue_all_queue dump tasks : forall w,
  enqueue_all dump tasks w
  = with_queue (rev (map dump tasks) ++ pr_review_queue w) w.
Proof.
  unfold enqueue_all.
  induction tasks as [|t tasks IH]; intros w; simpl.
  - now rewrite with_queue_same.
  - rewrite IH. simpl. rewrite with_queue_with_queue, <- app_assoc. reflexivity.
Qed.

Lemma dequeue_times_served dump parse tasks : forall w,
  Forall (fun t => parse (dump t) = Ok t) tasks ->
  dequeue_times parse (List.length tasks) (with_queue (rev (map dump tasks)) w)
  = (map (fun t => Ok (Some t)) tasks, with_queue [] w).
Proof.
  induction tasks as [|t tasks IH]; intros w Hall; [reflexivity|].
  inversion Hall as [|? ? Ht Hrest]; subst.
  cbn [List.length dequeue_times map rev].
  unfold dequeue at 1. unfold try_except, Stores.bind.
  rewrite (brpop_serves_oldest (rev (map dump tasks)) (dump t)) by reflexivity.
  rewrite Ht. unfold ret. rewrite with_queue_with_queue, IH by assumption.
  reflexivity.
Qed.

(** Tasks pushed by [enqueue] on an
    empty queue come back from [dequeue] in the order they were pushed,
    each decoded to the task that was encoded, and the queue is empty
    again afterwards; the call after the last one returns [None]. The
    encoding has to be readable back for the tasks concerned. *)
Theorem enqueue_dequeue_first_in_first_out
    (model_dump_json : PRTask -> string) (parse_task : string -> result PRTask)
    (tasks : list PRTask) (w : World) :
  Forall (fun t => parse_task (model_dump_json t) = Ok t) tasks ->
  pr_review_queue w = [] ->
  dequeue_times parse_task (List.length tasks)
    (enqueue_all model_dump_json tasks w)
  = (map (fun t => Ok (Some t)) tasks, w) /\
  dequeue parse_task Served w = (w, Ok None).
Proof.
  intros Hall Hq. split.
  - rewrite enqueue_all_queue, Hq, app_nil_r.
    rewrite dequeue_times_served by assumption.
    now rewrite <- Hq, with_queue_same.
  - unfold dequeue, try_except, Stores.bind, brpop. now rewrite Hq.
Qed.

(** Three retries of one pull request, pushed and popped. *)
Lemma enqueue_dequeue_first_in_first_out_witness :
  let tasks := map OrchestratorNotions.widget_task [0; 1; 2] in
  dequeue_times OrchestratorNotions.read_task 3
    (enqueue_all OrchestratorNotions.show_task tasks OrchestratorNotions.empty_world)
  = (map (fun t => Ok (Some t)) tasks, OrchestratorNotions.empty_world).
Proof.
  cbv zeta.
  apply (enqueue_dequeue_first_in_first_out OrchestratorNotions.show_task
           OrchestratorNotions.read_task
           (map OrchestratorNotions.widget_task [0; 1; 2])
           OrchestratorNotions.empty_world);
    [repeat constructor | reflexivity].
Defined.

End QueueOrder.

(** ** What the stages hand on *)

Module StagesOutcome.
Import Str Models Exc Agents Synthesizer AgentsNotions StagesNotions.
Import Orchestrator.

Ltac chat_cases client req :=
  destruct (client req) as [response | msg0];
  [ unfold first, total_tokens, usable;
    destruct (choices response) as [|[text|] rest] eqn:Ec;
    destruct (usage response) as [n|] eqn:Eu
  | ]; simpl.

(** The synthesizer never raises. Whenever its result carries an error
    the output is the fallback comment built from the three reviews, and
    when the provider call itself raised, the error is the text of that
    exception and no token is counted. *)
Theorem synthesizer_never_raises_falls_back
    (client : OpenAI) (model verr : string) (t0 t1 : Q)
    (sc g a st : option AgentResult) (ctx : Context) :
  exists r,
    Synthesizer.analyze client model verr t0 t1 sc g a st ctx = Ok r /\
    agent_name r = "synthesizer" /\
    degraded (_create_fallback_comment sc g a st) r /\
    (forall msg,
       client (Synthesizer.request model g a st ctx) = Raise msg ->
       error r = Some msg /\ tokens_used r = 0 /\
       output r = _create_fallback_comment sc g a st).
Proof.
  unfold Synthesizer.analyze, degraded.
  chat_cases client (Synthesizer.request model g a st ctx);
    eexists; (split; [reflexivity|]); simpl;
    repeat split; try discriminate; try congruence.
Qed.

(** The synthesizer's provider is down and only Architect has answered. *)
Lemma synthesizer_never_raises_falls_back_witness :
  exists r,
    Synthesizer.analyze (fun _ => Raise "Connection error.") "gpt-4o"
      "1 validation error for AgentResult" 0%Q 2%Q None
      (Some SynthesizerNotions.failed_guardian)
      (Some SynthesizerNotions.good_architect) None no_context = Ok r /\
    error r = Some "Connection error." /\
    output r
    = ("## Code Review Summary" ++ nl_s ++ nl_s
       ++ "### Architecture Review" ++ nl_s ++ "Extract the retry loop."
       ++ nl_s ++ nl_s)%string.
Proof.
  destruct (synthesizer_never_raises_falls_back
              (fun _ => Raise "Connection error.") "gpt-4o"
              "1 validation error for AgentResult" 0%Q 2%Q None
              (Some SynthesizerNotions.failed_guardian)
              (Some SynthesizerNotions.good_architect) None no_context)
    as (r & Hr & _ & _ & Hfail).
  exists r. split; [exact Hr|].
  destruct (Hfail "Connection error." eq_refl) as (He & _ & Ho).
  split; [exact He|]. rewrite Ho. reflexivity.
Defined.

(** A result without error carries the provider's answer unchanged: for
    the four chat stages the output is the text of the first choice and
    the token count is the provider's; for Guardian the output is the
    first text block and the count is the word-count estimate over the
    prompt and the answer. *)
Theorem result_without_error_is_providers_answer
    (openai : OpenAI) (anthropic : Anthropic) (model verr : string)
    (t0 t1 : Q) (diff : string) (ctx : Context)
    (sc g a st : option AgentResult) :
  (forall r,
     ScoutAgent.analyze openai model t0 t1 diff ctx = Ok r ->
     error r = None ->
     exists response,
       openai (ScoutAgent.request model diff) = Ok response /\
       usable response = Some (output r, tokens_used r)) /\
  (forall r,
     ArchitectAgent.analyze openai model verr t0 t1 diff ctx = Ok r ->
     error r = None ->
     exists response,
       openai (ArchitectAgent.request model diff) = Ok response /\
       usable response = Some (output r, tokens_used r)) /\
  (forall r,
     StylistAgent.analyze openai model verr t0 t1 diff ctx = Ok r ->
     error r = None ->
     exists response,
       openai (StylistAgent.request model diff ctx) = Ok response /\
       usable response = Some (output r, tokens_used r)) /\
  (forall r,
     Synthesizer.analyze openai model verr t0 t1 sc g a st ctx = Ok r ->
     error r = None ->
     exists response,
       openai (Synthesizer.request model g a st ctx) = Ok response /\
       usable response = Some (output r, tokens_used r)) /\
  (forall r,
     GuardianAgent.analyze anthropic model t0 t1 diff ctx = Ok r ->
     error r = None ->
     exists response rest,
       anthropic (GuardianAgent.request model diff) = Ok response /\
       content response = output r :: rest /\
       tokens_used r
       = word_count (GuardianAgent.prompt diff) + word_count (output r)).
Proof.
  repeat split; intros r.
  - unfold ScoutAgent.analyze.
    chat_cases openai (ScoutAgent.request model diff);
      intros [= <-]; simpl; try discriminate; intros _;
      eexists; (split; [reflexivity|]); unfold usable; now rewrite Ec, Eu.
  - unfold ArchitectAgent.analyze.
    chat_cases openai (ArchitectAgent.request model diff);
      intros [= <-]; simpl; try discriminate; intros _;
      eexists; (split; [reflexivity|]); unfold usable; now rewrite Ec, Eu.
  - unfold StylistAgent.analyze.
    chat_cases openai (StylistAgent.request model diff ctx);
      intros [= <-]; simpl; try discriminate; intros _;
      eexists; (split; [reflexivity|]); unfold usable; now rewrite Ec, Eu.
  - unfold Synthesizer.analyze.
    chat_cases openai (Synthesizer.request model g a st ctx);
      intros [= <-]; simpl; try discriminate; intros _;
      eexists; (split; [reflexivity|]); unfold usable; now rewrite Ec, Eu.
  - unfold GuardianAgent.analyze.
    destruct (anthropic (GuardianAgent.request model diff)) as [response | msg0]; simpl;
      [destruct (content response) as [|text rest] eqn:E; simpl|];
      intros [= <-]; simpl; try discriminate; intros _.
    exists response, rest. repeat split; assumption.
Qed.

(** Scout with a provider that answers. *)
Lemma result_without_error_is_providers_answer_witness :
  exists response,
    openai OrchestratorNotions.all_answer (ScoutAgent.request "gpt-4o-mini" "+x")
    = Ok response /\
    usable response = Some ("Looks fine.", 100).
Proof.
  destruct (result_without_error_is_providers_answer
              (openai OrchestratorNotions.all_answer)
              (anthropic OrchestratorNotions.all_answer)
              "gpt-4o-mini" "1 validation error for AgentResult"
              0%Q 1%Q "+x" no_context None None None None) as (Hscout & _).
  exact (Hscout
           {| agent_name := "scout"; output := "Looks fine."; tokens_used := 100;
              model_used := "gpt-4o-mini"; processing_time := (1 - 0)%Q;
              error := None |} eq_refl eq_refl).
Defined.

End StagesOutcome.

(** ** What a run of the pipeline leaves behind *)

Module PipelineOutcome.
Import Str Models Exc Stores Agents Queue Orchestrator.
Import OrchestratorNotions OrchestratorFacts.

(** Replace the result of a reviewer by a name for it, keeping what is
    known of its [agent_name]. *)
Ltac name_guardian :=
  match goal with
  | |- context [or_exception "guardian" ?f ?m (GuardianAgent.analyze ?c ?mo ?a ?b ?d ?x)] =>
      let H := fresh "Hguardian" in
      assert (H : agent_name (or_exception "guardian" f m
                                (GuardianAgent.analyze c mo a b d x)) = "guardian")
        by (destruct (AgentsFacts.guardian_never_raises c mo a b d x)
              as (r & -> & Hn & _); exact Hn);
      revert H;
      generalize (or_exception "guardian" f m (GuardianAgent.analyze c mo a b d x));
      intros guardian_result H
  end.

Ltac name_architect :=
  match goal with
  | |- context [or_exception "architect" ?f ?m (ArchitectAgent.analyze ?c ?mo ?v ?a ?b ?d ?x)] =>
      let H := fresh "Harchitect" in
      assert (H : agent_name (or_exception "architect" f m
                                (ArchitectAgent.analyze c mo v a b d x)) = "architect")
        by (destruct (AgentsFacts.architect_never_raises c mo v a b d x)
              as (r & -> & Hn & _); exact Hn);
      revert H;
      generalize (or_exception "architect" f m (ArchitectAgent.analyze c mo v a b d x));
      intros architect_result H
  end.

Ltac name_stylist :=
  match goal with
  | |- context [or_exception "stylist" ?f ?m (StylistAgent.analyze ?c ?mo ?v ?a ?b ?d ?x)] =>
      let H := fresh "Hstylist" in
      assert (H : agent_name (or_exception "stylist" f m
                                (StylistAgent.analyze c mo v a b d x)) = "stylist")
        by (destruct (AgentsFacts.stylist_never_raises c mo v a b d x)
              as (r & -> & Hn & _); exact Hn);
      revert H;
      generalize (or_exception "stylist" f m (StylistAgent.analyze c mo v a b d x));
      intros stylist_result H
  end.

Ltac name_scout :=
  match goal with
  | |- context [ScoutAgent.analyze ?c ?m ?a ?b ?d ?x] =>
      let H := fresh "Hscout" in
      destruct (AgentsFacts.scout_never_raises c m a b d x)
        as (scout_result & -> & H & _)
  end.

Ltac name_synthesizer :=
  match goal with
  | |- context [Synthesizer.analyze ?c ?m ?v ?a ?b ?r1 ?r2 ?r3 ?r4 ?x] =>
      let H := fresh "Hsynthesizer" in
      destruct (synthesizer_never_raises c m v a b r1 r2 r3 r4 x)
        as (synthesizer_result & -> & H)
  end.

(** Walk through the replies [review] waits for, in order; [fin] closes
    the branch of each reply that raises. *)
Ltac walk_review settings env fin :=
  unfold review, review_steps, Stores.bind, await, call;
  cbn [first_failure forget];
  destruct (github_wait_diff env) as [[]|e]; [|fin];
  destruct (get_pr_diff env) as [diff|e]; [|fin];
  cbv beta iota; cbn [first_failure forget];
  match goal with
  | |- context [DiffParser.process_diff settings ?d] =>
      destruct (DiffParser.process_diff settings d) as [filtered_diff files_info]
  end;
  destruct (openai_wait_scout env) as [[]|e]; [|fin];
  cbv beta iota;
  name_scout; cbv beta iota;
  name_guardian; name_architect; name_stylist;
  destruct (reviewers_wait env) as [[]|e]; [|fin];
  destruct (openai_wait_synthesizer env) as [[]|e]; [|fin];
  destruct (get_pr_details env) as [pr_title|e]; [|fin];
  cbv beta iota; cbn [first_failure forget];
  name_synthesizer; cbv beta iota;
  destruct (save_review_result env) as [[]|e]; [|fin];
  cbv beta iota; cbn [save_usages]; unfold Stores.bind, call, ret;
  match goal with
  | Hs : agent_name ?sc = "scout", Hg : agent_name ?g = "guardian",
    Ha : agent_name ?a = "architect", Ht : agent_name ?st = "stylist",
    Hy : agent_name ?sy = "synthesizer" |- _ =>
      rewrite Hs, Hg, Ha, Ht, Hy
  end;
  destruct (save_api_usage env "scout") as [[]|e]; [|fin];
  destruct (save_api_usage env "guardian") as [[]|e]; [|fin];
  destruct (save_api_usage env "architect") as [[]|e]; [|fin];
  destruct (save_api_usage env "stylist") as [[]|e]; [|fin];
  destruct (save_api_usage env "synthesizer") as [[]|e]; [|fin];
  cbv beta iota;
  destruct (github_wait_comment env) as [[]|e]; [|fin];
  destruct (post_pr_comment env) as [comment_id|e]; [|fin];
  cbv beta iota; cbn [first_failure forget].

(** [review] posts at most one comment, and only after it has saved the
    outcome and the five usage rows; the comment is the final comment of
    the saved outcome. *)
Lemma review_posts_what_it_saved settings env task w0 :
  let w1 := fst (review settings env task w0) in
  (comments w1 = comments w0) \/
  (exists c rr u1 u2 u3 u4 u5,
     comments w1 = comments w0 ++ [c] /\
     review_results w1 = review_results w0 ++ [rr] /\
     api_usage w1 = api_usage w0 ++ [u1; u2; u3; u4; u5] /\
     rr_final_comment rr = Some (c_body c)).
Proof.
  cbv zeta.
  walk_review settings env ltac:(left; reflexivity).
  right. do 7 eexists.
  destruct (update_completed env) as [[]|e]; cbn [fst];
    (split; [reflexivity|]); (split; [reflexivity|]);
    (split; [cbn; rewrite <- !app_assoc; reflexivity | reflexivity]).
Qed.

(** The [except] clause writes a status row and to Redis, and sleeps:
    it saves no outcome, no usage row, and posts nothing. *)
Lemma on_failure_frame settings dump env task e w1 :
  let w' := fst (on_failure settings dump env task e w1) in
  comments w' = comments w1 /\
  review_results w' = review_results w1 /\
  api_usage w' = api_usage w1.
Proof.
  cbv zeta. unfold on_failure, Stores.bind, call, sleep, enqueue, enqueue_dlq,
    try_except, ret.
  destruct (update_failed env) as [[]|m]; [|repeat split].
  destruct (retry_count task >=? Settings.max_retries settings).
  - destruct (lpush_dlq env); repeat split.
  - destruct (lpush_queue env); repeat split.
Qed.

Lemma open_review_frame env task w :
  exists w0 opened,
    open_review env task w = (w0, Ok opened) /\
    comments w0 = comments w /\
    review_results w0 = review_results w /\
    api_usage w0 = api_usage w.
Proof.
  unfold open_review, try_except, Stores.bind, call, ret.
  destruct (create_pr_review env) as [[]|m1];
    [destruct (update_processing env) as [[]|m2]|];
    eexists; eexists; repeat split.
Qed.

(** Whatever the collaborators answer, one run of [process_task] posts at
    most one comment, and a comment is posted only after the outcome and
    its five usage rows have been saved; the text posted is the final
    comment of the saved outcome. *)
Theorem comment_posted_only_after_outcome_saved
    (settings : Settings.Settings) (model_dump_json : PRTask -> string)
    (env : Env) (task : PRTask) (w : World) :
  let w' := fst (process_task settings model_dump_json env task w) in
  comments w' = comments w \/
  (exists c rr u1 u2 u3 u4 u5,
     comments w' = comments w ++ [c] /\
     review_results w' = review_results w ++ [rr] /\
     api_usage w' = api_usage w ++ [u1; u2; u3; u4; u5] /\
     rr_final_comment rr = Some (c_body c)).
Proof.
  cbv zeta.
  destruct (open_review_frame env task w) as (w0 & opened & Ho & Hc0 & Hr0 & Hu0).
  unfold process_task, Stores.bind. rewrite Ho.
  destruct opened; [|left; exact Hc0].
  pose proof (review_posts_what_it_saved settings env task w0) as Hpost.
  cbv zeta in Hpost. unfold try_except.
  destruct (review settings env task w0) as [w1 [[]|e]] eqn:Hrun; cbn [fst] in *.
  - rewrite <- Hc0, <- Hr0, <- Hu0. exact Hpost.
  - destruct (on_failure_frame settings model_dump_json env task e w1)
      as (Hc & Hr & Hu).
    rewrite Hc, Hr, Hu, <- Hc0, <- Hr0, <- Hu0. exact Hpost.
Qed.

(** When every collaborator answers, [process_task] returns having
    written the rows pending, processing and completed (with the id of
    the comment), saved one outcome and five usage rows (one per stage, in
    order), and posted one comment. The comment is the outcome's final
    comment, the outcome's total is the sum of the five stage counts, and
    nothing is queued, dead-lettered or slept. *)
Theorem all_answers_complete_the_review
    (settings : Settings.Settings) (model_dump_json : PRTask -> string)
    (env : Env) (task : PRTask) (w : World) :
  create_pr_review env = Ok tt ->
  update_processing env = Ok tt ->
  first_failure (review_steps env) = None ->
  exists w' rr c rows comment_id,
    process_task settings model_dump_json env task w = (w', Ok tt) /\
    post_pr_comment env = Ok comment_id /\
    pr_reviews w'
    = pr_reviews w
      ++ [status_write task "pending" None false None;
          status_write task "processing" None false None;
          status_write task "completed" None true comment_id] /\
    review_results w' = review_results w ++ [rr] /\
    api_usage w' = api_usage w ++ rows /\
    comments w' = comments w ++ [c] /\
    map au_agent_name rows
    = ["scout"; "guardian"; "architect"; "stylist"; "synthesizer"] /\
    rr_total_tokens rr = fold_right Z.add 0 (map au_tokens_used rows) /\
    rr_final_comment rr = Some (c_body c) /\
    c_pr_number c = pr_id (pr_metadata task) /\
    pr_review_queue w' = pr_review_queue w /\
    pr_review_dlq w' = pr_review_dlq w /\
    sleeps w' = sleeps w.
Proof.
  intros Hcreate Hmark Hnone.
  unfold process_task, open_review, try_except.
  unfold Stores.bind at 1. unfold Stores.bind at 1. unfold Stores.bind at 1.
  unfold call at 1. unfold call at 1. rewrite Hcreate, Hmark. unfold ret.
  cbv beta iota.
  revert Hnone.
  walk_review settings env ltac:(intros Hnone; discriminate Hnone).
  destruct (update_completed env) as [[]|e]; [|intros Hnone; discriminate Hnone].
  intros _. do 5 eexists.
  split; [reflexivity|]. split; [reflexivity|].
  cbn [fst pr_reviews review_results api_usage comments pr_review_queue
       pr_review_dlq sleeps write_status with_pr_reviews with_review_results
       with_api_usage with_comments].
  split; [rewrite <- !app_assoc; reflexivity|].
  split; [reflexivity|].
  split; [rewrite <- !app_assoc; reflexivity|].
  split; [reflexivity|].
  cbn [map au_agent_name au_tokens_used fold_right rr_total_tokens
       rr_final_comment c_body c_pr_number app].
  repeat split; try assumption; try reflexivity; try lia.
Qed.

(** A run in which every collaborator answers. *)
Lemma all_answers_complete_the_review_witness :
  let w := fst (process_task Settings.defaults show_task all_answer
                  (widget_task 0) empty_world) in
  map sw_status (pr_reviews w) = ["pending"; "processing"; "completed"] /\
  List.length (comments w) = 1%nat /\
  List.length (api_usage w) = 5%nat.
Proof.
  cbv zeta.
  destruct (all_answers_complete_the_review Settings.defaults show_task all_answer
              (widget_task 0) empty_world eq_refl eq_refl eq_refl)
    as (w' & rr & c & rows & cid & Hrun & _ & Hrows & _ & Husage & Hcomments
        & Hnames & _).
  rewrite Hrun. cbn [fst]. rewrite Hrows, Hcomments, Husage.
  split; [reflexivity|]. split; [reflexivity|].
  cbn [api_usage empty_world app].
  rewrite <- (length_map au_agent_name), Hnames. reflexivity.
Defined.

(** [review] returns exactly when none of the replies it waits for
    raises, and raises [e] exactly when [e] is the text of the first
    reply that raises: the stages themselves never make a run fail. *)
Theorem review_fails_only_with_a_collaborator
    (settings : Settings.Settings) (env : Env) (task : PRTask) (w0 : World)
    (e : string) :
  (snd (review settings env task w0) = Ok tt
   <-> first_failure (review_steps env) = None) /\
  (snd (review settings env task w0) = Raise e
   <-> first_failure (review_steps env) = Some e).
Proof.
  destruct (review_raises_first_failure settings env task w0) as (Hr & _).
  cbv zeta in Hr. rewrite Hr.
  destruct (first_failure (review_steps env)) as [e'|]; split; split;
    intros H; try discriminate; try reflexivity; congruence.
Qed.

End PipelineOutcome.

(** ** Language detection *)

Module LanguageFacts.
Import Str Orchestrator LanguageNotions.

Lemma detect_loop files : forall start,
  fold_left
    (fun extensions file_info =>
       match extension (DiffParser.effective_path file_info) with
       | Some ext => count_extension (lower ext) extensions
       | None => extensions
       end)
    files start
  = counted_extensions (extensions_of files) start.
Proof.
  unfold counted_extensions, extensions_of.
  induction files as [|f files IH]; intros start; [reflexivity|].
  cbn [fold_left flat_map]. rewrite IH.
  destruct (extension (DiffParser.effective_path f)); reflexivity.
Qed.

(** Counting an extension adds one to its entry and leaves the others. *)
Lemma get_count_extension e k : forall c,
  get_or k 0 (count_extension e c)
  = get_or k 0 c + (if String.eqb e k then 1 else 0).
Proof.
  induction c as [|[x n] c IH]; cbn [count_extension get_or].
  - destruct (String.eqb e k); lia.
  - destruct (String.eqb_spec x e) as [->|Hxe]; cbn [get_or].
    + destruct (String.eqb e k); lia.
    + destruct (String.eqb_spec x k) as [->|Hxk].
      * destruct (String.eqb_spec e k); [congruence | lia].
      * exact IH.
Qed.

Lemma get_counted_extensions k exts : forall c,
  get_or k 0 (counted_extensions exts c)
  = get_or k 0 c + Z.of_nat (List.length (filter (String.eqb k) exts)).
Proof.
  unfold counted_extensions.
  induction exts as [|e exts IH]; intros c; cbn [fold_left filter].
  - simpl. lia.
  - rewrite IH, get_count_extension, String.eqb_sym.
    destruct (String.eqb k e); cbn [List.length]; lia.
Qed.

Lemma count_extension_keys e : forall c,
  (In e (map fst c) /\ map fst (count_extension e c) = map fst c) \/
  (~ In e (map fst c) /\ map fst (count_extension e c) = map fst c ++ [e]).
Proof.
  induction c as [|[x n] c IH]; cbn [count_extension map fst].
  - right. split; [intros [] | reflexivity].
  - destruct (String.eqb_spec x e) as [->|Hxe]; cbn [map fst].
    + left. split; [now left | reflexivity].
    + destruct IH as [[Hin Hk] | [Hnin Hk]]; rewrite Hk.
      * left. split; [now right | reflexivity].
      * right. split; [|reflexivity]. intros [H|H]; [congruence | contradiction].
Qed.

Lemma count_extension_positive e : forall c,
  Forall (fun item => 0 < snd item) c ->
  Forall (fun item => 0 < snd item) (count_extension e c).
Proof.
  induction c as [|[x n] c IH]; intros Hc; cbn [count_extension].
  - repeat constructor.
  - inversion Hc as [|? ? Hn Hrest]; subst. simpl in Hn.
    destruct (String.eqb x e); constructor; simpl; auto; lia.
Qed.

Lemma count_extension_tidy e c : tidy c -> tidy (count_extension e c).
Proof.
  intros [Hnd Hpos]. split; [|now apply count_extension_positive].
  destruct (count_extension_keys e c) as [[_ ->] | [Hnin ->]]; [exact Hnd|].
  apply NoDup_app; [exact Hnd | repeat constructor; intros [] |].
  intros x Hx [<-|[]]. contradiction.
Qed.

Lemma counted_extensions_tidy exts : forall c,
  tidy c -> tidy (counted_extensions exts c).
Proof.
  unfold counted_extensions.
  induction exts as [|e exts IH]; intros c Hc; [exact Hc|].
  cbn [fold_left]. apply IH. now apply count_extension_tidy.
Qed.

Lemma get_or_entry k n : forall c,
  NoDup (map fst c) -> In (k, n) c -> get_or k 0 c = n.
Proof.
  induction c as [|[x m] c IH]; intros Hnd Hin; [contradiction|].
  cbn [map fst] in Hnd. inversion Hnd as [|? ? Hx Hrest]; subst.
  cbn [get_or]. destruct Hin as [[= -> ->] | Hin].
  - now rewrite String.eqb_refl.
  - destruct (String.eqb_spec x k) as [->|]; [|now apply IH].
    exfalso. apply Hx. change k with (fst (k, n)). now apply in_map.
Qed.

Lemma get_or_zero_or_entry k : forall c,
  get_or k 0 c = 0 \/ In (k, get_or k 0 c) c.
Proof.
  induction c as [|[x m] c IH]; [now left|].
  cbn [get_or]. destruct (String.eqb_spec x k) as [->|].
  - right. now left.
  - destruct IH; [now left | right; now right].
Qed.

(** [max] returns an item of the dictionary whose count no other exceeds. *)
Lemma max_by_count_greatest items : forall best,
  In (max_by_count best items) (best :: items) /\
  forall item, In item (best :: items) ->
               snd item <= snd (max_by_count best items).
Proof.
  induction items as [|x items IH]; intros best; cbn [max_by_count].
  - split; [now left|]. intros item [<-|[]]. lia.
  - destruct (IH (if snd x >? snd best then x else best)) as [Hin Hmax].
    split.
    + destruct Hin as [Hin|Hin]; [|now right; right].
      rewrite <- Hin. destruct (snd x >? snd best); [right; now left | now left].
    + intros item [<-|[<-|Hitem]].
      * specialize (Hmax _ (or_introl eq_refl)).
        destruct (snd x >? snd best) eqn:E; [|exact Hmax].
        rewrite Z.gtb_ltb in E. apply Z.ltb_lt in E. lia.
      * specialize (Hmax _ (or_introl eq_refl)).
        destruct (snd x >? snd best) eqn:E; [exact Hmax|].
        rewrite Z.gtb_ltb in E. apply Z.ltb_ge in E. lia.
      * apply Hmax. now right.
Qed.

(** [_detect_language] answers ["unknown"] when no path has an
    extension; otherwise it answers for an extension that no other
    extension outnumbers among the files (letter case ignored): the
    language mapped to it, or the extension itself when none is. *)
Theorem detect_language_most_common (files_info : list DiffParser.DiffFile) :
  (extensions_of files_info = [] -> _detect_language files_info = "unknown") /\
  (extensions_of files_info <> [] ->
   exists ext,
     _detect_language files_info = get_or ext ext lang_map /\
     0 < occurrences ext files_info /\
     forall other, occurrences other files_info <= occurrences ext files_info).
Proof.
  unfold _detect_language. rewrite detect_loop. split.
  - intros ->. reflexivity.
  - intros Hne.
    assert (Htidy : tidy (counted_extensions (extensions_of files_info) []))
      by (apply counted_extensions_tidy; split; constructor).
    assert (Hget : forall k,
               get_or k 0 (counted_extensions (extensions_of files_info) [])
               = occurrences k files_info)
      by (intros k; rewrite get_counted_extensions; reflexivity).
    destruct (counted_extensions (extensions_of files_info) [])
      as [|first_item rest] eqn:Ec.
    + exfalso. destruct (extensions_of files_info) as [|e exts] eqn:Ee; [congruence|].
      specialize (Hget e). unfold occurrences in Hget. rewrite Ee in Hget.
      cbn [filter get_or] in Hget. rewrite String.eqb_refl in Hget.
      cbn [List.length] in Hget. lia.
    + destruct (max_by_count_greatest rest first_item) as [Hin Hmax].
      destruct Htidy as [Hnd Hpos].
      destruct (max_by_count first_item rest) as [ext n] eqn:Em.
      exists ext. cbn [fst]. split; [reflexivity|].
      assert (Hn : occurrences ext files_info = n)
        by (rewrite <- Hget; now apply get_or_entry).
      rewrite Hn. split.
      * rewrite Forall_forall in Hpos. apply (Hpos _ Hin).
      * intros other. rewrite <- Hget.
        destruct (get_or_zero_or_entry other (first_item :: rest)) as [-> | Hentry].
        -- rewrite Forall_forall in Hpos. specialize (Hpos _ Hin). simpl in Hpos. lia.
        -- apply (Hmax _ Hentry).
Qed.

(** One file with an extension that [lang_map] does not know. *)
Lemma detect_language_most_common_witness :
  exists ext,
    _detect_language (DiffParser.parse_diff DiffParserNotions.one_line_change)
    = get_or ext ext lang_map /\
    0 < occurrences ext (DiffParser.parse_diff DiffParserNotions.one_line_change).
Proof.
  destruct (detect_language_most_common
              (DiffParser.parse_diff DiffParserNotions.one_line_change))
    as [_ Hsome].
  destruct Hsome as (ext & Hlang & Hpos & _); [vm_compute; discriminate|].
  exists ext. split; assumption.
Defined.

End LanguageFacts.

(** ** Lines and their joins *)

Module LinesFacts.
Import Str StrFacts.

Lemma join_lines_cons l rest :
  rest <> [] -> join_lines (l :: rest) = (l ++ nl_s ++ join_lines rest)%string.
Proof. destruct rest; [congruence | reflexivity]. Qed.

Lemma join_lines_app a b :
  a <> [] -> b <> [] ->
  join_lines (a ++ b) = (join_lines a ++ nl_s ++ join_lines b)%string.
Proof.
  induction a as [|x a IH]; [congruence|]. intros _ Hb.
  destruct a as [|y a].
  - simpl app. now rewrite join_lines_cons.
  - change ((x :: y :: a) ++ b) with (x :: ((y :: a) ++ b)).
    rewrite join_lines_cons by discriminate.
    rewrite IH by (auto; discriminate).
    rewrite (join_lines_cons x (y :: a)) by discriminate.
    now rewrite !append_assoc.
Qed.

(** Joining joined groups is joining all their lines. *)
Lemma join_lines_concat groups :
  Forall (fun g => g <> []) groups ->
  join_lines (map join_lines groups) = join_lines (concat groups).
Proof.
  induction groups as [|g groups IH]; [reflexivity|]. intros Hall.
  inversion Hall as [|? ? Hg Hrest]; subst.
  destruct groups as [|g' groups'].
  - simpl. now rewrite app_nil_r.
  - cbn [map concat]. rewrite join_lines_cons by discriminate.
    cbn [map] in IH. rewrite IH by assumption.
    rewrite join_lines_app; auto.
    inversion Hrest; subst. cbn [concat]. destruct g'; [congruence | discriminate].
Qed.

Lemma split_lines_app a b :
  split_lines (a ++ nl_s ++ b)%string = split_lines a ++ split_lines b.
Proof.
  induction a as [|c a IH]; [reflexivity|].
  change (String c a ++ nl_s ++ b)%string with (String c (a ++ nl_s ++ b))%string.
  cbn [split_lines]. rewrite IH.
  destruct (Ascii.eqb c nl); [reflexivity|].
  pose proof (split_lines_nonempty a) as Hne.
  destruct (split_lines a); [congruence | reflexivity].
Qed.

Lemma has_nl_app a b : has_nl (a ++ b)%string = has_nl a || has_nl b.
Proof.
  induction a as [|c a IH]; [reflexivity|].
  simpl. rewrite IH. now rewrite orb_assoc.
Qed.

(** A string is its prefix followed by the rest. *)
Lemma prefix_drop p : forall s,
  String.prefix p s = true -> s = (p ++ drop (String.length p) s)%string.
Proof.
  induction p as [|a p IH]; intros s H; [reflexivity|].
  destruct s as [|c s]; [discriminate|].
  simpl in H. destruct (Ascii.ascii_dec a c) as [->|]; [|discriminate].
  simpl. f_equal. now apply IH.
Qed.

Lemma prefix_app p : forall after, String.prefix p (p ++ after) = true.
Proof.
  induction p as [|c p IH]; intros after; [now destruct after|].
  simpl. destruct (Ascii.ascii_dec c c); [apply IH | congruence].
Qed.

Lemma drop_app p : forall after, drop (String.length p) (p ++ after) = after.
Proof. induction p as [|c p IH]; intros after; [reflexivity | apply IH]. Qed.

Lemma truthy_join_lines l rest :
  truthy l = true -> truthy (join_lines (l :: rest)) = true.
Proof.
  destruct l; [discriminate|]. intros _.
  destruct rest; reflexivity.
Qed.

End LinesFacts.

(** ** [parse_diff]: every dictionary is the record of one segment *)

Module ReparseFacts.
Import Str StrFacts LinesFacts DiffParser DiffParserNotions DiffParserFacts.
Import ReparseNotions.

Lemma mutation_set_content line c f :
  mutation line (set_content c f) = set_content c (mutation line f).
Proof.
  unfold mutation, hunk_counts, content_counts.
  repeat match goal with
         | |- context [if ?b then _ else _] => destruct b
         end; try reflexivity.
  all: destruct (match_hunk_header line) as [[g2 g4]|]; reflexivity.
Qed.

Lemma mutation_paths line f :
  old_path (mutation line f) = old_path f /\
  new_path (mutation line f) = new_path f.
Proof.
  unfold mutation, hunk_counts, content_counts.
  repeat match goal with
         | |- context [if ?b then _ else _] => destruct b
         end; try (split; reflexivity).
  all: destruct (match_hunk_header line) as [[g2 g4]|]; split; reflexivity.
Qed.

Lemma mutate_all_snoc body line f :
  mutate_all (body ++ [line]) f = mutation line (mutate_all body f).
Proof. unfold mutate_all. now rewrite fold_left_app. Qed.

Lemma mutate_all_paths body : forall f,
  old_path (mutate_all body f) = old_path f /\
  new_path (mutate_all body f) = new_path f.
Proof.
  induction body as [|l body IH]; intros f; [split; reflexivity|].
  change (mutate_all (l :: body) f) with (mutate_all body (mutation l f)).
  destruct (IH (mutation l f)) as [-> ->]. apply mutation_paths.
Qed.

(** **** The invariant *)

Lemma reparse_inv_initial : reparse_inv initial_state.
Proof.
  split; simpl.
  - intros [|i] f; discriminate.
  - discriminate.
Qed.

Lemma close_current_canonical st :
  reparse_inv st ->
  forall i f, nth_error (heap (close_current st)) i = Some f -> canonical f.
Proof.
  intros [Ho Hc] i f. unfold close_current.
  destruct (current_file st) as [r|] eqn:E; simpl.
  - destruct (Hc r eq_refl) as (header & body & op & np & c & Hl & Hseg & Hm & Hr).
    intros Hi.
    apply nth_error_update_inv in Hi as [(-> & f1 & Hf1 & ->) | (Hir & Hi)].
    + rewrite Hr in Hf1. injection Hf1 as <-.
      exists header, body. split; [exact Hseg|]. exists op, np.
      split; [exact Hm|]. now rewrite Hl.
    + apply (Ho i f Hi). congruence.
  - intros Hi. apply (Ho i f Hi). discriminate.
Qed.

Lemma close_current_reparse_inv st : reparse_inv st -> reparse_inv (close_current st).
Proof.
  intros Hinv. pose proof (close_current_canonical st Hinv) as Hcan.
  split; [intros i f Hi _; now apply (Hcan i f)|].
  destruct Hinv as [_ Hc]. unfold close_current in *.
  destruct (current_file st) as [r0|] eqn:E; simpl; [|intros r Hr; congruence].
  intros r Hr. injection Hr as <-.
  destruct (Hc r0 eq_refl) as (header & body & op & np & c & Hl & Hseg & Hm & Hr).
  exists header, body, op, np, (join_lines (current_lines st)).
  repeat split; try assumption; try apply Hseg.
  now rewrite (nth_error_update_eq _ _ _ _ Hr).
Qed.

Lemma on_current_reparse_inv st line :
  has_nl line = false ->
  startswith line "diff --git" = false ->
  reparse_inv st -> reparse_inv (on_current (mutation line) line st).
Proof.
  intros Hnl Hd [Ho Hc]. unfold on_current.
  destruct (current_file st) as [r|] eqn:E; [|split; auto; now rewrite E].
  destruct (Hc r eq_refl) as (header & body & op & np & c & Hl & Hseg & Hm & Hr).
  destruct Hseg as (Hh & Hfree & Hnone).
  split; simpl.
  - intros i f Hi Hcur.
    apply nth_error_update_inv in Hi as [(-> & _) | (_ & Hi)]; [congruence|].
    apply (Ho i f Hi). congruence.
  - intros r' Hr'. injection Hr' as <-.
    exists header, (body ++ [line])%list, op, np, c.
    split; [now rewrite Hl|]. split; [|split; [exact Hm|]].
    + split; [exact Hh|]. split; apply Forall_app; split; auto.
    + rewrite (nth_error_update_eq _ _ _ _ Hr).
      now rewrite mutation_set_content, mutate_all_snoc.
Qed.

Lemma parse_line_reparse_inv st line :
  has_nl line = false -> reparse_inv st -> reparse_inv (parse_line st line).
Proof.
  intros Hnl Hinv.
  destruct (startswith line "diff --git") eqn:Hd;
    [|rewrite parse_line_mutation by assumption; now apply on_current_reparse_inv].
  unfold parse_line. rewrite Hd.
  destruct (match_file_header line) as [[op np]|] eqn:Hm;
    [|now apply close_current_reparse_inv].
  pose proof (close_current_canonical st Hinv) as Hcan.
  split; simpl.
  - intros i f Hi Hcur.
    destruct (Nat.lt_ge_cases i (List.length (heap (close_current st)))) as [Hlt|Hge].
    + rewrite nth_error_app1 in Hi by assumption. now apply (Hcan i f).
    + destruct (Nat.eq_dec i (List.length (heap (close_current st)))) as [->|Hne];
        [congruence|].
      rewrite nth_error_app2 in Hi by assumption.
      destruct (i - List.length (heap (close_current st)))%nat as [|[|k]] eqn:Ek;
        simpl in Hi; try discriminate. lia.
  - intros r Hr. injection Hr as <-.
    exists line, [], op, np, EmptyString.
    split; [reflexivity|]. split; [|split; [exact Hm|]].
    + split; [exact Hnl|]. split; constructor.
    + rewrite nth_error_app2, Nat.sub_diag by reflexivity. reflexivity.
Qed.

Lemma fold_parse_line_reparse_inv lines : forall st,
  newline_free lines -> reparse_inv st ->
  reparse_inv (fold_left parse_line lines st).
Proof.
  induction lines as [|line lines IH]; intros st Hfree Hinv; [exact Hinv|].
  inversion Hfree; subst. simpl. apply IH; [assumption|].
  now apply parse_line_reparse_inv.
Qed.

(** Every dictionary [parse_diff] returns is the record of a segment. *)
Lemma parse_diff_canonical diff_text f :
  In f (parse_diff diff_text) -> canonical f.
Proof.
  unfold parse_diff. destruct (negb (truthy diff_text)); [contradiction|].
  intros Hin. apply in_deref in Hin as [r Hr].
  pose proof (fold_parse_line_reparse_inv (split_lines diff_text) initial_state
                (split_lines_no_nl diff_text) reparse_inv_initial) as Hinv.
  now apply (close_current_canonical _ Hinv r f).
Qed.

(** **** What the header expression captures *)

Lemma dot_plus_dollar_whole s : forall g,
  has_nl s = false -> dot_plus_dollar s = Some g -> g = s /\ s <> EmptyString.
Proof.
  induction s as [|c s IH]; intros g Hnl; cbn [dot_plus_dollar]; [discriminate|].
  cbn [has_nl] in Hnl. apply orb_false_iff in Hnl as [Hc Hs]. rewrite Hc.
  destruct (dollar s) eqn:Ed.
  - intros H. injection H as <-. split; [|discriminate].
    destruct s as [|c' [|c'' s]]; try discriminate; [reflexivity|].
    simpl in Ed. simpl in Hs. rewrite Ed in Hs. discriminate.
  - destruct (dot_plus_dollar s) as [g'|] eqn:Eg; [|discriminate].
    intros H. injection H as <-. split; [|discriminate].
    f_equal. now apply (IH g').
Qed.

Lemma match_paths_whole s : forall op np,
  has_nl s = false -> match_paths s = Some (op, np) ->
  s = (op ++ " b/" ++ np)%string /\ np <> EmptyString /\ has_nl np = false.
Proof.
  induction s as [|c s IH]; intros op np Hnl; cbn [match_paths]; [discriminate|].
  cbn [has_nl] in Hnl. apply orb_false_iff in Hnl as [Hc Hs]. rewrite Hc.
  destruct (String.prefix " b/" s) eqn:Ep.
  - pose proof (prefix_drop _ _ Ep) as Hrest.
    change (String.length " b/") with 3%nat in Hrest.
    assert (Hd : has_nl (drop 3 s) = false).
    { rewrite Hrest, has_nl_app in Hs. now apply orb_false_iff in Hs as [_ Hs]. }
    destruct (dot_plus_dollar (drop 3 s)) as [g|] eqn:Eg.
    + intros H. injection H as <- <-.
      destruct (dot_plus_dollar_whole _ _ Hd Eg) as [-> Hne].
      split; [|split; assumption].
      cbn [append]. f_equal. exact Hrest.
    + destruct (match_paths s) as [[op' np']|] eqn:Em; [|discriminate].
      intros H. injection H as <- <-.
      destruct (IH op' np' Hs eq_refl) as (Hw & Hne & Hnp).
      split; [|split; assumption].
      cbn [append]. f_equal. exact Hw.
  - destruct (match_paths s) as [[op' np']|] eqn:Em; [|discriminate].
    intros H. injection H as <- <-.
    destruct (IH op' np' Hs eq_refl) as (Hw & Hne & Hnp).
    split; [|split; assumption].
    cbn [append]. f_equal. exact Hw.
Qed.

Lemma match_file_header_whole line op np :
  has_nl line = false -> match_file_header line = Some (op, np) ->
  line = ("diff --git a/" ++ op ++ " b/" ++ np)%string /\
  op <> EmptyString /\ np <> EmptyString /\ has_nl np = false.
Proof.
  intros Hnl. unfold match_file_header.
  destruct (String.prefix "diff --git a/" line) eqn:Ep; [|discriminate].
  pose proof (prefix_drop _ _ Ep) as Hrest.
  change (String.length "diff --git a/") with 13%nat in Hrest.
  intros Hm.
  assert (Hd : has_nl (drop 13 line) = false).
  { rewrite Hrest, has_nl_app in Hnl. now apply orb_false_iff in Hnl as [_ Hs]. }
  destruct (match_paths_whole _ _ _ Hd Hm) as (Hw & Hne & Hnp).
  destruct (match_paths_named _ _ _ Hm) as (c & t & Hop).
  split; [|split; [rewrite Hop; discriminate | split; assumption]].
  rewrite <- Hw. exact Hrest.
Qed.

Lemma match_file_header_opens line op np :
  match_file_header line = Some (op, np) -> startswith line "diff --git" = true.
Proof.
  unfold match_file_header.
  destruct (String.prefix "diff --git a/" line) eqn:Ep; [|discriminate].
  intros _. pose proof (prefix_drop _ _ Ep) as Hrest.
  remember (drop (String.length "diff --git a/") line) as rest.
  rewrite Hrest. reflexivity.
Qed.

(** **** Running the loop over whole segments *)

Lemma update_last (hp : list DiffFile) g f :
  update (List.length hp) g (hp ++ [f]) = hp ++ [g f].
Proof. induction hp as [|x hp IH]; simpl; [reflexivity | now rewrite IH]. Qed.

Lemma deref_seq (h : list DiffFile) : forall pre,
  deref (pre ++ h) (seq (List.length pre) (List.length h)) = h.
Proof.
  induction h as [|x h IH]; intros pre; [reflexivity|].
  cbn [List.length seq]. unfold deref. cbn [flat_map].
  rewrite nth_error_app2, Nat.sub_diag by reflexivity. cbn [nth_error app].
  f_equal. specialize (IH (pre ++ [x])).
  rewrite <- app_assoc, length_app, Nat.add_1_r in IH. exact IH.
Qed.

Lemma deref_all (h : list DiffFile) : deref h (seq 0 (List.length h)) = h.
Proof. exact (deref_seq h []). Qed.

Lemma run_body body : forall hp f fs lines,
  Forall (fun l => startswith l "diff --git" = false) body ->
  fold_left parse_line body
    {| heap := hp ++ [f]; files := fs;
       current_file := Some (List.length hp); current_lines := lines |}
  = {| heap := hp ++ [mutate_all body f]; files := fs;
       current_file := Some (List.length hp); current_lines := lines ++ body |}.
Proof.
  induction body as [|l body IH]; intros hp f fs lines Hall.
  - simpl. now rewrite app_nil_r.
  - inversion Hall as [|? ? Hl Hrest]; subst. cbn [fold_left].
    rewrite parse_line_mutation by assumption.
    unfold on_current. cbn [current_file heap files current_lines].
    rewrite update_last, IH by assumption.
    now rewrite <- app_assoc.
Qed.

Lemma run_header st header op np :
  match_file_header header = Some (op, np) ->
  parse_line st header
  = {| heap := heap (close_current st) ++ [fresh op np];
       files := files (close_current st);
       current_file := Some (List.length (heap (close_current st)));
       current_lines := [header] |}.
Proof.
  intros Hm. unfold parse_line.
  now rewrite (match_file_header_opens _ _ _ Hm), Hm.
Qed.

Lemma close_at_segment closed cur lines :
  close_current (at_segment closed cur lines)
  = {| heap := closed ++ [set_content (join_lines lines) cur];
       files := seq 0 (S (List.length closed));
       current_file := Some (List.length closed);
       current_lines := lines |}.
Proof.
  unfold close_current, at_segment. cbn [current_file heap files current_lines].
  now rewrite update_last, seq_S.
Qed.

Lemma run_segment closed cur lines header body op np :
  match_file_header header = Some (op, np) ->
  Forall (fun l => startswith l "diff --git" = false) body ->
  fold_left parse_line (header :: body) (at_segment closed cur lines)
  = at_segment (closed ++ [set_content (join_lines lines) cur])
      (mutate_all body (fresh op np)) (header :: body).
Proof.
  intros Hm Hbody. cbn [fold_left].
  rewrite (run_header _ _ _ _ Hm), close_at_segment.
  cbn [heap files].
  replace (S (List.length closed))
    with (List.length (closed ++ [set_content (join_lines lines) cur]))
    by (rewrite length_app; simpl; lia).
  now rewrite run_body.
Qed.

Lemma run_segments segs fs :
  Forall2 segment_of segs fs ->
  forall closed cur lines,
    returned_files
      (fold_left parse_line (concat (map segment_lines segs))
         (at_segment closed cur lines))
    = closed ++ [set_content (join_lines lines) cur] ++ fs.
Proof.
  induction 1 as [|[header body] f segs fs [Hseg Hbuilt] Hrest IH];
    intros closed cur lines.
  - unfold returned_files. simpl fold_left. rewrite close_at_segment.
    cbn [heap files].
    replace (S (List.length closed))
      with (List.length (closed ++ [set_content (join_lines lines) cur]))
      by (rewrite length_app; simpl; lia).
    apply deref_all.
  - cbn [fst snd] in Hseg, Hbuilt.
    destruct Hbuilt as (op & np & Hm & ->). destruct Hseg as (_ & _ & Hbody).
    cbn [map concat]. unfold segment_lines at 1. cbn [fst snd].
    rewrite fold_left_app, (run_segment _ _ _ _ _ _ _ Hm Hbody), IH.
    now rewrite <- app_assoc.
Qed.

Lemma run_first_segment header body op np :
  match_file_header header = Some (op, np) ->
  Forall (fun l => startswith l "diff --git" = false) body ->
  fold_left parse_line (header :: body) initial_state
  = at_segment [] (mutate_all body (fresh op np)) (header :: body).
Proof.
  intros Hm Hbody. cbn [fold_left].
  rewrite (run_header _ _ _ _ Hm).
  change (close_current initial_state) with initial_state.
  exact (run_body body [] (fresh op np) [] [header] Hbody).
Qed.

Lemma canonical_segments fs :
  Forall canonical fs -> exists segs, Forall2 segment_of segs fs.
Proof.
  induction 1 as [|f fs (header & body & Hseg & Hb) _ [segs IH]].
  - exists []. constructor.
  - exists ((header, body) :: segs). constructor; [split; assumption | exact IH].
Qed.

Lemma segments_contents segs fs :
  Forall2 segment_of segs fs ->
  map content fs = map join_lines (map segment_lines segs) /\
  Forall (fun g => g <> []) (map segment_lines segs) /\
  newline_free (concat (map segment_lines segs)).
Proof.
  induction 1 as [|[header body] f segs fs [Hseg Hbuilt] Hrest (IHc & IHn & IHf)].
  - repeat split; constructor.
  - cbn [fst snd] in Hseg, Hbuilt.
    destruct Hbuilt as (op & np & Hm & ->). destruct Hseg as (Hh & Hfree & _).
    cbn [map concat]. unfold segment_lines at 1 3 4. cbn [fst snd content set_content].
    rewrite IHc. repeat split.
    + constructor; [discriminate | exact IHn].
    + constructor; [exact Hh|]. apply Forall_app. split; assumption.
Qed.

(** Parsing the joined contents of dictionaries that record segments
    gives those dictionaries back. *)
Lemma parse_diff_contents fs :
  Forall canonical fs -> parse_diff (join_lines (map content fs)) = fs.
Proof.
  intros Hcan. destruct (canonical_segments fs Hcan) as [segs Hsegs].
  destruct (segments_contents segs fs Hsegs) as (Hc & Hne & Hfree).
  rewrite Hc, join_lines_concat by assumption.
  destruct Hsegs as [|[header body] f segs fs [Hseg Hbuilt] Hrest]; [reflexivity|].
  cbn [fst snd] in Hseg, Hbuilt.
  destruct Hbuilt as (op & np & Hm & ->). destruct Hseg as (Hh & _ & Hbody).
  assert (Hlines : concat (map segment_lines ((header, body) :: segs))
                   = header :: (body ++ concat (map segment_lines segs)))
    by reflexivity.
  rewrite Hlines in Hfree |- *. clear Hlines.
  unfold parse_diff. rewrite truthy_join_lines.
  2:{ destruct (match_file_header_whole _ _ _ Hh Hm) as (-> & _). reflexivity. }
  cbn [negb]. rewrite split_join_lines by (try discriminate; exact Hfree).
  change (header :: (body ++ concat (map segment_lines segs)))
    with ((header :: body) ++ concat (map segment_lines segs)).
  rewrite fold_left_app, (run_first_segment _ _ _ _ Hm Hbody).
  exact (run_segments segs fs Hrest [] _ _).
Qed.

Lemma run_no_segment lines :
  Forall (fun l => startswith l "diff --git" = false) lines ->
  fold_left parse_line lines initial_state = initial_state.
Proof.
  induction 1 as [|l lines Hl _ IH]; [reflexivity|].
  cbn [fold_left]. now rewrite parse_line_mutation.
Qed.

(** **** What a caller of [parse_diff] and [process_diff] can rely on *)

(** Every dictionary [parse_diff] returns records exactly one segment of
    the diff: both paths are present and not empty, the path the later
    steps use is the new one, the first line of the content is the
    [diff --git] line that names the two paths, and no later line of the
    content opens a file. *)
Theorem parse_diff_content_is_one_segment (diff_text : string) (f : DiffFile) :
  In f (parse_diff diff_text) ->
  exists op np rest,
    old_path f = Some op /\ new_path f = Some np /\
    op <> EmptyString /\ np <> EmptyString /\
    effective_path f = np /\
    split_lines (content f) = ("diff --git a/" ++ op ++ " b/" ++ np)%string :: rest /\
    Forall (fun l => startswith l "diff --git" = false) rest.
Proof.
  intros Hin.
  destruct (parse_diff_canonical _ _ Hin)
    as (header & body & (Hh & Hfree & Hbody) & op & np & Hm & ->).
  destruct (match_file_header_whole _ _ _ Hh Hm) as (Hw & Hop & Hnp & _).
  destruct (mutate_all_paths body (fresh op np)) as [Ho Hn].
  exists op, np, body. unfold effective_path.
  cbn [old_path new_path content set_content]. rewrite Ho, Hn.
  cbn [old_path new_path fresh].
  repeat split; try assumption.
  - destruct np; [congruence | reflexivity].
  - rewrite split_join_lines; [now rewrite Hw | discriminate|].
    constructor; assumption.
Qed.

Lemma parse_diff_content_is_one_segment_witness :
  exists op np rest,
    old_path change_of_f_txt = Some op /\ new_path change_of_f_txt = Some np /\
    op <> EmptyString /\ np <> EmptyString /\
    effective_path change_of_f_txt = np /\
    split_lines (content change_of_f_txt)
      = ("diff --git a/" ++ op ++ " b/" ++ np)%string :: rest /\
    Forall (fun l => startswith l "diff --git" = false) rest.
Proof.
  apply (parse_diff_content_is_one_segment one_line_change).
  vm_compute. left. reflexivity.
Defined.

(** The filtered text [process_diff] hands to the stages and the list of
    dictionaries it returns beside it agree: parsing the text again gives
    exactly that list, paths, counters and flags included. *)
Theorem process_diff_text_reparses (settings : Settings.Settings) (diff_text : string) :
  parse_diff (fst (process_diff settings diff_text))
  = snd (process_diff settings diff_text).
Proof.
  unfold process_diff. cbn [fst snd].
  apply parse_diff_contents.
  rewrite filter_noise_filter. apply Forall_forall. intros f Hf.
  apply filter_In in Hf as [Hf _].
  now apply parse_diff_canonical in Hf.
Qed.

(** Lines before the first [diff --git] line are dropped: a text made of
    such lines only gives no dictionary, and putting it in front of a
    diff does not change what is parsed. *)
Theorem parse_diff_ignores_leading_lines (preamble diff_text : string) :
  Forall (fun l => startswith l "diff --git" = false) (split_lines preamble) ->
  parse_diff preamble = [] /\
  parse_diff (preamble ++ nl_s ++ diff_text) = parse_diff diff_text.
Proof.
  intros Hpre. split; unfold parse_diff.
  - destruct (negb (truthy preamble)); [reflexivity|].
    now rewrite run_no_segment.
  - replace (truthy (preamble ++ nl_s ++ diff_text)) with true
      by (now destruct preamble).
    cbn [negb]. rewrite split_lines_app, fold_left_app, run_no_segment by assumption.
    destruct diff_text as [|c t]; reflexivity.
Qed.

Lemma parse_diff_ignores_leading_lines_witness :
  parse_diff mail_header = [] /\
  parse_diff (mail_header ++ nl_s ++ one_line_change) = parse_diff one_line_change.
Proof.
  apply parse_diff_ignores_leading_lines.
  vm_compute. repeat constructor.
Defined.

(** Joining the chunks of [chunk_large_file] with newlines gives the
    content back, whatever the size limit. *)
Theorem chunk_large_file_joins_to_content
    (settings : Settings.Settings) (file_content : string) (max_size : option Z) :
  join_lines (chunk_large_file settings file_content max_size) = file_content.
Proof.
  unfold chunk_large_file, chunk_large_file_with.
  destruct (len file_content <=? _); [reflexivity|].
  match goal with
  | |- context [fold_left (chunk_line ?m) _ _] =>
      destruct (chunk_loop m (split_lines file_content) [] [] 0 [] [])
        as (groups & cur & size & Hf & Hcat & Hall & Hcur); auto
  end.
  rewrite Hf. simpl in Hcat. unfold chunk_finish.
  assert (Hne : Forall (fun g : list string => g <> []) groups)
    by (eapply Forall_impl; [|exact Hall]; now intros g [Hg _]).
  destruct cur as [|l cur].
  - rewrite app_nil_r in Hcat.
    now rewrite join_lines_concat, Hcat, join_split_lines.
  - change (map join_lines groups ++ [join_lines (l :: cur)])
      with (map join_lines groups ++ map join_lines [l :: cur]).
    rewrite <- map_app, join_lines_concat.
    + rewrite concat_app. simpl. now rewrite app_nil_r, Hcat, join_split_lines.
    + apply Forall_app. split; [exact Hne|]. constructor; [discriminate | constructor].
Qed.

End ReparseFacts.

(** ** [get_file_summary] and [is_noise_file] *)

Module SummaryFacts.
Import Str StrFacts LinesFacts DiffParser DiffParserNotions DiffParserFacts.
Import ReparseNotions ReparseFacts.

Lemma summary_loop (fs : list DiffFile) : forall summary_lines,
  fold_left (fun summary_lines file_info => summary_lines ++ [summary_line file_info])
    fs summary_lines
  = summary_lines ++ map summary_line fs.
Proof.
  induction fs as [|f fs IH]; intros acc; simpl.
  - now rewrite app_nil_r.
  - now rewrite IH, <- app_assoc.
Qed.

Lemma get_file_summary_map fs : get_file_summary fs = join_lines (map summary_line fs).
Proof. unfold get_file_summary. now rewrite summary_loop. Qed.

Lemma string_of_uint_no_nl d : has_nl (NilEmpty.string_of_uint d) = false.
Proof. induction d; simpl; auto. Qed.

Lemma str_of_int_no_nl n : has_nl (str_of_int n) = false.
Proof.
  unfold str_of_int, NilZero.string_of_int, NilZero.string_of_uint.
  destruct (Z.to_int n) as [d|d]; cbn [has_nl];
    destruct d; try reflexivity; apply (string_of_uint_no_nl (_ d)).
Qed.

Lemma summary_line_no_nl f :
  has_nl (effective_path f) = false -> has_nl (summary_line f) = false.
Proof.
  intros Hp. unfold summary_line.
  rewrite !has_nl_app, Hp, !str_of_int_no_nl.
  now destruct (status_of f).
Qed.

(** The summary of dictionaries that [parse_diff] returned has one line
    for each of them, in order. *)
Theorem get_file_summary_one_line_per_file (diff_text : string) (fs : list DiffFile) :
  fs <> [] ->
  incl fs (parse_diff diff_text) ->
  split_lines (get_file_summary fs) = map summary_line fs.
Proof.
  intros Hne Hincl. rewrite get_file_summary_map.
  apply split_join_lines; [now destruct fs|].
  apply Forall_forall. intros l Hl. apply in_map_iff in Hl as (f & <- & Hf).
  apply summary_line_no_nl.
  destruct (parse_diff_canonical _ _ (Hincl f Hf))
    as (header & body & (Hh & _ & _) & op & np & Hm & ->).
  destruct (match_file_header_whole _ _ _ Hh Hm) as (_ & _ & Hnp & Hnl).
  destruct (mutate_all_paths body (fresh op np)) as [Ho Hn].
  unfold effective_path. cbn [old_path new_path set_content]. rewrite Ho, Hn.
  cbn [old_path new_path fresh]. destruct np; [congruence | exact Hnl].
Qed.

Lemma get_file_summary_one_line_per_file_witness :
  split_lines (get_file_summary (filter_noise (parse_diff two_files)))
  = map summary_line (filter_noise (parse_diff two_files)).
Proof.
  apply (get_file_summary_one_line_per_file two_files).
  - vm_compute. discriminate.
  - rewrite filter_noise_filter. intros f Hf. now apply filter_In in Hf as [Hf _].
Defined.

(** **** The denylist *)

Lemma dollar_iff after :
  dollar after = true <-> after = EmptyString \/ after = nl_s.
Proof.
  split.
  - destruct after as [|c [|c' after]]; simpl; auto; [|discriminate].
    intros H. apply Ascii.eqb_eq in H. subst. now right.
  - intros [-> | ->]; reflexivity.
Qed.

Lemma lit_here_occurs p s :
  existsb (fun lit => lit_here (at_end p) s (lower lit)) (alternatives p) = true ->
  exists lit before after,
    In lit (alternatives p) /\
    s = (before ++ lower lit ++ after)%string /\
    (at_end p = true -> after = EmptyString \/ after = nl_s).
Proof.
  intros H. apply existsb_exists in H as (lit & Hin & Hl).
  unfold lit_here in Hl. apply andb_true_iff in Hl as [Hp Hd].
  exists lit, EmptyString, (drop (String.length (lower lit)) s).
  split; [exact Hin|]. split; [exact (prefix_drop _ _ Hp)|].
  intros He. rewrite He in Hd. now apply dollar_iff.
Qed.

Lemma search_lower_iff p s :
  search_lower p s = true <->
  exists lit before after,
    In lit (alternatives p) /\
    s = (before ++ lower lit ++ after)%string /\
    (at_end p = true -> after = EmptyString \/ after = nl_s).
Proof.
  split.
  - induction s as [|c s IH]; cbn [search_lower]; intros H;
      apply orb_true_iff in H as [H | H]; try discriminate;
      try (now apply lit_here_occurs).
    destruct (IH H) as (lit & before & after & Hin & -> & Hd).
    exists lit, (String c before), after. auto.
  - intros (lit & before & after & Hin & -> & Hd).
    induction before as [|c before IH].
    + assert (Hhere : existsb
                (fun l => lit_here (at_end p) (lower lit ++ after) (lower l))
                (alternatives p) = true).
      { apply existsb_exists. exists lit. split; [exact Hin|].
        unfold lit_here. rewrite prefix_app, drop_app. cbn [andb].
        destruct (at_end p); [|reflexivity].
        cbn [negb orb]. now apply dollar_iff, Hd. }
      cbn [append]. remember (lower lit ++ after)%string as s eqn:Es.
      destruct s; cbn [search_lower]; now rewrite Hhere.
    + cbn [append search_lower]. rewrite IH. apply orb_true_r.
Qed.

Lemma is_noise_loop_iff patterns filepath :
  is_noise_loop patterns filepath = true <->
  exists p, In p patterns /\ search p filepath = true.
Proof.
  induction patterns as [|p patterns IH]; cbn [is_noise_loop].
  - split; [discriminate | now intros (p & [] & _)].
  - destruct (search p filepath) eqn:E.
    + split; [|reflexivity]. intros _. exists p. split; [now left | exact E].
    + rewrite IH. split.
      * intros (q & Hq & Hs). exists q. split; [now right | exact Hs].
      * intros (q & [<- | Hq] & Hs); [congruence|]. now exists q.
Qed.

(** A path of ASCII characters is noise exactly when, lower-cased, it
    holds the literal of one of the patterns: anywhere for the patterns
    without [$], at the very end (or just before a newline that ends the
    path) for the others. On such a path the case folding of
    [re.IGNORECASE] is the lower-casing of the letters [A] to [Z]. *)
Theorem is_noise_file_iff_literal_occurs (filepath : string) :
  Webhook.is_ascii filepath = true ->
  (is_noise_file filepath = true <->
   exists p, In p NOISE_PATTERNS /\ occurs p filepath).
Proof.
  intros _. unfold is_noise_file. rewrite is_noise_loop_iff.
  split; intros (p & Hin & H); exists p; (split; [exact Hin|]);
    now apply (search_lower_iff p (lower filepath)).
Qed.

(** An image whose extension is in capitals. *)
Lemma is_noise_file_iff_literal_occurs_witness :
  is_noise_file "assets/Logo.PNG" = true <->
  exists p, In p NOISE_PATTERNS /\ occurs p "assets/Logo.PNG".
Proof.
  apply is_noise_file_iff_literal_occurs. reflexivity.
Defined.

End SummaryFacts.

(** ** [parse_diff]: the counters and the status on a small diff *)

Module DiffParserExamples.
Import Str DiffParser DiffParserNotions DiffParserFacts ReparseNotions.

Lemma parse_diff_counts_witness :
  added_lines change_of_f_txt
    = rescan_added change_of_f_txt + hunk_added (content change_of_f_txt) /\
  removed_lines change_of_f_txt
    = rescan_removed change_of_f_txt + hunk_removed (content change_of_f_txt) /\
  0 <= rescan_added change_of_f_txt /\ 0 <= hunk_added (content change_of_f_txt) /\
  0 <= rescan_removed change_of_f_txt /\ 0 <= hunk_removed (content change_of_f_txt).
Proof.
  apply (parse_diff_counts one_line_change).
  vm_compute. left. reflexivity.
Defined.

Lemma parse_diff_never_new_witness : status_of change_of_f_txt <> new.
Proof.
  apply (parse_diff_never_new one_line_change).
  vm_compute. left. reflexivity.
Defined.

End DiffParserExamples.

(** ** The webhook *)

Module WebhookFacts.
Import Str StrFacts LinesFacts Models Stores Webhook WebhookNotions.

Lemma compare_digest_throws a b e :
  compare_digest a b = Throw e -> e = OtherException.
Proof.
  unfold compare_digest. destruct (is_ascii a && is_ascii b); [discriminate|].
  now intros [= <-].
Qed.

Lemma verify_throws secret hmac payload signature e :
  verify_webhook_signature secret hmac payload signature = Throw e ->
  e = OtherException.
Proof.
  unfold verify_webhook_signature.
  destruct (negb (truthy signature)); [discriminate|].
  destruct (negb (startswith signature "sha256=")); [discriminate|].
  apply compare_digest_throws.
Qed.

(** When the keyed digest is ASCII text, as a hexadecimal digest is,
    [verify_webhook_signature] returns [True] for exactly one signature:
    ["sha256="] followed by the digest of the payload under the
    configured secret. *)
Theorem verify_accepts_exactly_the_digest
    (secret : string) (hmac : string -> string -> string)
    (payload signature : string) :
  is_ascii (hmac secret payload) = true ->
  (verify_webhook_signature secret hmac payload signature = Return true
   <-> signature = ("sha256=" ++ hmac secret payload)%string).
Proof.
  intros Hascii. unfold verify_webhook_signature, compare_digest. split.
  - destruct (negb (truthy signature)); [discriminate|].
    unfold startswith.
    destruct (String.prefix "sha256=" signature) eqn:Ep; [|discriminate].
    cbn [negb]. rewrite Hascii.
    destruct (is_ascii (drop 7 signature)); [|discriminate].
    cbn [andb]. intros H. injection H as H. apply String.eqb_eq in H.
    rewrite H. exact (prefix_drop _ _ Ep).
  - intros ->. unfold startswith. rewrite prefix_app.
    change (drop 7 ("sha256=" ++ hmac secret payload)) with (hmac secret payload).
    cbn [append truthy negb]. now rewrite Hascii, String.eqb_refl.
Qed.

Lemma verify_accepts_exactly_the_digest_witness :
  verify_webhook_signature "s3cret" toy_digest "opened" "sha256=s3cret:opened"
  = Return true.
Proof.
  apply (verify_accepts_exactly_the_digest "s3cret" toy_digest "opened").
  - vm_compute. reflexivity.
  - vm_compute. reflexivity.
Defined.

Section Handler.
Variable github_webhook_secret : string.
Variable hmac_hexdigest : string -> string -> string.
Variable loads : string -> outcome JSON.
Variable str_of : JSON -> string.
Variable validate : RawMetadata -> option PRMetadata.
Variable model_dump_json : PRTask -> string.
Variable reply : Queue.redis_reply.
Variable utcnow : string.

(** A request whose signature is not accepted is never answered with
    status 401: the [HTTPException] the handler raises for it is caught
    by its own [except Exception] clause, and the caller gets status 500,
    detail ["Internal server error"]. Nothing is queued. *)
Theorem rejected_signature_answers_500
    (request : Request) (x_github_event x_github_delivery : string) (w : World) :
  verify_webhook_signature github_webhook_secret hmac_hexdigest (body request)
    (match hub_signature_256 request with Some v => v | None => EmptyString end)
    <> Return true ->
  handle_webhook github_webhook_secret hmac_hexdigest loads str_of validate
    model_dump_json reply utcnow request x_github_event x_github_delivery w
  = (w, Throw (HTTPException 500 "Internal server error")).
Proof.
  intros Hv. unfold handle_webhook, try_except, bind, lift, throw.
  destruct (verify_webhook_signature _ _ _ _) as [[|]|e] eqn:E.
  - congruence.
  - reflexivity.
  - now rewrite (verify_throws _ _ _ _ _ E).
Qed.


End Handler.

Lemma rejected_signature_answers_500_witness :
  handle_webhook "s3cret" toy_digest toy_loads toy_str_of toy_validate
    (fun _ => "task") Queue.Served "2024-01-01T00:00:00"
    unsigned_request "pull_request" "d-1" quiet_world
  = (quiet_world, Throw (HTTPException 500 "Internal server error")).
Proof.
  apply rejected_signature_answers_500.
  vm_compute. discriminate.
Defined.

End WebhookFacts.

(** ** [process_diff]: what is lost *)

Module ProcessDiffFacts.
Import Str StrFacts LinesFacts DiffParser DiffParserNotions DiffParserFacts.
Import ReparseNotions ReparseFacts.

Lemma returned_at_segment closed cur lines :
  returned_files (at_segment closed cur lines)
  = closed ++ [set_content (join_lines lines) cur].
Proof.
  rewrite <- (app_nil_r [set_content (join_lines lines) cur]).
  exact (run_segments [] [] (Forall2_nil _) closed cur lines).
Qed.

Lemma on_current_at_segment closed cur lines g line :
  on_current g line (at_segment closed cur lines)
  = at_segment closed (g cur) (lines ++ [line]).
Proof.
  unfold on_current, at_segment. cbn [current_file heap files current_lines].
  now rewrite update_last.
Qed.

(** The loop over sound lines: the contents recorded so far and the
    lines of the current segment make up the lines read. *)
Lemma run_sound_lines lines : forall closed cur cur_lines groups,
  forallb sound_line lines = true ->
  map content closed = map join_lines groups ->
  Forall (fun g => g <> []) groups ->
  cur_lines <> [] ->
  exists closed' cur' cur_lines' groups',
    fold_left parse_line lines (at_segment closed cur cur_lines)
      = at_segment closed' cur' cur_lines' /\
    map content closed' = map join_lines groups' /\
    Forall (fun g => g <> []) groups' /\
    cur_lines' <> [] /\
    concat groups' ++ cur_lines' = (concat groups ++ cur_lines) ++ lines.
Proof.
  induction lines as [|l lines IH]; intros closed cur cur_lines groups Hs Hc Hg Hne.
  - exists closed, cur, cur_lines, groups. now rewrite app_nil_r.
  - cbn [forallb] in Hs. apply andb_true_iff in Hs as [Hl Hs].
    cbn [fold_left]. unfold sound_line, opens in Hl.
    destruct (startswith l "diff --git") eqn:Hd.
    + destruct (match_file_header l) as [[op np]|] eqn:Hm; [|discriminate].
      rewrite (run_header _ _ _ _ Hm), close_at_segment. cbn [heap files].
      replace (S (List.length closed))
        with (List.length (closed ++ [set_content (join_lines cur_lines) cur]))
        by (rewrite length_app; simpl; lia).
      destruct (IH (closed ++ [set_content (join_lines cur_lines) cur])
                  (fresh op np) [l] (groups ++ [cur_lines]) Hs)
        as (closed' & cur' & lines' & groups' & Hf & Hc' & Hg' & Hne' & Hcat).
      * rewrite !map_app, Hc. reflexivity.
      * apply Forall_app. split; [exact Hg | now constructor].
      * discriminate.
      * exists closed', cur', lines', groups'.
        split; [exact Hf|]. repeat split; try assumption.
        rewrite Hcat, concat_app. cbn [concat].
        now rewrite app_nil_r, <- !app_assoc.
    + rewrite parse_line_mutation, on_current_at_segment by assumption.
      destruct (IH closed (mutation l cur) (cur_lines ++ [l]) groups Hs Hc Hg)
        as (closed' & cur' & lines' & groups' & Hf & Hc' & Hg' & Hne' & Hcat).
      * now destruct cur_lines.
      * exists closed', cur', lines', groups'.
        split; [exact Hf|]. repeat split; try assumption.
        now rewrite Hcat, <- !app_assoc.
Qed.

(** A diff that starts with a file header and in which every line that
    starts with [diff --git] is a file header is cut into the contents
    of its dictionaries and nothing else. *)
Lemma parse_diff_contents_join diff_text :
  well_headed diff_text = true ->
  join_lines (map content (parse_diff diff_text)) = diff_text.
Proof.
  unfold well_headed, parse_diff.
  destruct (split_lines diff_text) as [|header rest] eqn:El; [discriminate|].
  intros H. apply andb_true_iff in H as [Ho Hs]. unfold opens in Ho.
  destruct (match_file_header header) as [[op np]|] eqn:Hm; [|discriminate].
  assert (Ht : truthy diff_text = true).
  { destruct diff_text; [|reflexivity]. simpl in El. injection El as <- _.
    discriminate. }
  rewrite Ht. cbn [negb fold_left].
  rewrite (run_header _ _ _ _ Hm).
  change (close_current initial_state) with initial_state.
  change {| heap := heap initial_state ++ [fresh op np];
            files := files initial_state;
            current_file := Some (List.length (heap initial_state));
            current_lines := [header] |}
    with (at_segment [] (fresh op np) [header]).
  destruct (run_sound_lines rest [] (fresh op np) [header] [] Hs)
    as (closed & cur & lines & groups & Hf & Hc & Hg & Hne & Hcat);
    [reflexivity | constructor | discriminate |].
  rewrite Hf. fold (returned_files (at_segment closed cur lines)).
  rewrite returned_at_segment, map_app, Hc. cbn [map content set_content].
  change [join_lines lines] with (map join_lines [lines]).
  rewrite <- map_app, join_lines_concat.
  - rewrite concat_app. cbn [concat]. rewrite app_nil_r, Hcat. cbn [concat app].
    now rewrite <- El, join_split_lines.
  - apply Forall_app. split; [exact Hg | now constructor].
Qed.

(** [process_diff] returns a diff unchanged, beside what [parse_diff]
    makes of it, when the diff is within the size limit, starts with a
    file header, has no line that starts with [diff --git] without being
    a file header, and names no noise file. *)
Theorem process_diff_keeps_clean_diff
    (settings : Settings.Settings) (diff_text : string) :
  len diff_text <= Settings.max_diff_size settings ->
  well_headed diff_text = true ->
  forallb kept (parse_diff diff_text) = true ->
  process_diff settings diff_text = (diff_text, parse_diff diff_text).
Proof.
  intros Hlen Hw Hk. unfold process_diff.
  replace (len diff_text >? Settings.max_diff_size settings) with false
    by (symmetry; rewrite Z.gtb_ltb; apply Z.ltb_ge; exact Hlen).
  rewrite filter_noise_filter.
  replace (filter kept (parse_diff diff_text)) with (parse_diff diff_text).
  - now rewrite parse_diff_contents_join.
  - symmetry. apply forallb_filter_id. exact Hk.
Qed.

Lemma process_diff_keeps_clean_diff_witness :
  process_diff Settings.defaults one_line_change
  = (one_line_change, parse_diff one_line_change).
Proof.
  apply process_diff_keeps_clean_diff;
    [vm_compute; discriminate | vm_compute; reflexivity..].
Defined.

End ProcessDiffFacts.
